(** * Seraph dashboard: file synchronisation, job scripts and GPU status

    A shallow embedding of the decision logic of the extension
    (fileSyncManager.ts, jobManager.ts, gpuManager.ts) together with the
    properties its specification states about it.

    Conventions.
    - A JavaScript string is a [string]; every [ascii] stands for one
      code unit below 256.
    - A JavaScript [Map<string, V>] is an insertion-ordered association
      list ([JsMap.t]); a [Set<string>] is a duplicate-free list in
      insertion order ([JsSet.of_list]).
    - Time stamps are integer milliseconds ([Z]).
    - Calls that leave the extension (node:path, minimatch, glob, the
      SFTP and SSH channels, the editor UI) are fields of the classes
      [NodeLib] and [Host]; the embedding never looks inside them. *)

From Stdlib Require Import String Ascii List ZArith Lia Bool Arith.
From Stdlib Require Import DecimalString.
Import ListNotations.
Set Warnings "-register-all".
Open Scope string_scope.
Open Scope list_scope.

(* ================================================================== *)
(** * Part I: the embedding                                            *)
(* ================================================================== *)

(** ** JavaScript containers *)

Module JsMap.

Definition t (V : Type) : Type := list (string * V).

Definition empty {V : Type} : t V := [].

(** [Map.prototype.get]: [None] is [undefined]. *)
Fixpoint get {V : Type} (m : t V) (k : string) : option V :=
  match m with
  | [] => None
  | (k', v) :: m' => if String.eqb k' k then Some v else get m' k
  end.

(** [Map.prototype.set]: an existing key keeps its position. *)
Fixpoint set {V : Type} (k : string) (v : V) (m : t V) : t V :=
  match m with
  | [] => [(k, v)]
  | (k', v') :: m' =>
      if String.eqb k' k then (k, v) :: m' else (k', v') :: set k v m'
  end.

(** [Map.prototype.keys], in insertion order. *)
Definition keys {V : Type} (m : t V) : list string := map fst m.

End JsMap.

Module JsSet.

Definition mem (k : string) (s : list string) : bool :=
  existsb (String.eqb k) s.

(** [Set.prototype.add]. *)
Definition add (s : list string) (k : string) : list string :=
  if mem k s then s else s ++ [k].

(** [new Set(iterable)]. *)
Definition of_list (l : list string) : list string :=
  fold_left add l [].

End JsSet.

(** ** JavaScript strings *)

Module Js.

(** Truthiness of an optional string: [undefined] and [''] are falsy. *)
Definition truthy (s : option string) : bool :=
  match s with
  | None | Some EmptyString => false
  | Some _ => true
  end.

(** [s.startsWith(p)]. *)
Definition startsWith (s p : string) : bool := String.prefix p s.

(** [s.replace(/c/g, by)] for a one-character pattern [c]. *)
Fixpoint replace_all (c : ascii) (by_ : string) (s : string) : string :=
  match s with
  | EmptyString => EmptyString
  | String a s' =>
      if Ascii.eqb a c then by_ ++ replace_all c by_ s'
      else String a (replace_all c by_ s')
  end.

(** The line feed, and the double quote of shell text. *)
Definition LF : ascii := "010"%char.
Definition nl : string := String LF EmptyString.
Definition dq : string := String "034"%char EmptyString.

(** White space and line terminators below 256: what [trim] strips and
    what [\s] matches. *)
Definition is_space (c : ascii) : bool :=
  let n := nat_of_ascii c in
  (((9 <=? n) && (n <=? 13)) || (n =? 32) || (n =? 160))%nat.

Definition is_digit (c : ascii) : bool :=
  let n := nat_of_ascii c in ((48 <=? n) && (n <=? 57))%nat.

Fixpoint trimStart (s : string) : string :=
  match s with
  | EmptyString => EmptyString
  | String c s' => if is_space c then trimStart s' else s
  end.

Fixpoint trimEnd (s : string) : string :=
  match s with
  | EmptyString => EmptyString
  | String c s' =>
      match trimEnd s' with
      | EmptyString => if is_space c then EmptyString else String c EmptyString
      | r => String c r
      end
  end.

(** [s.trim()]. *)
Definition trim (s : string) : string := trimEnd (trimStart s).

(** Truthiness of a string. *)
Definition nonempty (s : string) : bool :=
  match s with
  | EmptyString => false
  | String _ _ => true
  end.

(** [s.split(c)] for a one-character separator. *)
Fixpoint split (c : ascii) (s : string) : list string :=
  match s with
  | EmptyString => [EmptyString]
  | String a s' =>
      if Ascii.eqb a c then EmptyString :: split c s'
      else
        match split c s' with
        | h :: t => String a h :: t
        | [] => [String a EmptyString]
        end
  end.

(** [s.split(/\s+/)]; [in_sep] tells that the character before was part
    of a separator. *)
Fixpoint split_spaces_from (in_sep : bool) (s : string) : list string :=
  match s with
  | EmptyString => [EmptyString]
  | String a s' =>
      if is_space a then
        if in_sep then split_spaces_from true s'
        else EmptyString :: split_spaces_from true s'
      else
        match split_spaces_from false s' with
        | h :: t => String a h :: t
        | [] => [String a EmptyString]
        end
  end.

Definition split_spaces (s : string) : list string :=
  split_spaces_from false s.

(** A string without line feed. *)
Fixpoint one_line (s : string) : bool :=
  match s with
  | EmptyString => true
  | String c s' => negb (Ascii.eqb c LF) && one_line s'
  end.

(** ** Numbers

    [`${n}`] for a count [n]: a loop counter or the length of an array,
    which a template literal prints as a decimal numeral. *)
Definition string_of_count (n : nat) : string :=
  NilZero.string_of_uint (Nat.to_uint n).

(** Every other number is a double of the platform, and so is its
    arithmetic: the double of a count, [parseInt], [parseFloat], the
    product, the difference, [Math.round((a / b) * 100)] and the text a
    template literal prints, which never holds a line feed. *)
Class Doubles : Type := {
  double : Type;
  of_count : nat -> double;
  parseInt : string -> double;
  parseFloat : string -> double;
  mul : double -> double -> double;
  sub : double -> double -> double;
  round_percent : double -> double -> double;
  show : double -> string;
  show_one_line : forall d, one_line (show d) = true
}.

End Js.

(** ** Programs with effects

    An [async] method is a function from the state of the outside world to
    an outcome, the new state and the calls it made, in order.  A thrown
    exception is [inl] of its rendering as a string (what [`${error}`]
    prints); the state reached and the calls made before the throw are
    kept. *)

Module Prog.

Definition Err : Type := string.

Section Monad.
Context {St Ev : Type}.

Definition M (A : Type) : Type := St -> (Err + A) * St * list Ev.

Definition ret {A : Type} (a : A) : M A := fun s => (inr a, s, []).

Definition bind {A B : Type} (m : M A) (k : A -> M B) : M B :=
  fun s =>
    match m s with
    | (inl e, s1, t1) => (inl e, s1, t1)
    | (inr a, s1, t1) =>
        match k a s1 with (r, s2, t2) => (r, s2, t1 ++ t2) end
    end.

Definition throw {A : Type} (e : Err) : M A := fun s => (inl e, s, []).

(** [try { m } catch (error) { h error }]. *)
Definition try_catch {A : Type} (m : M A) (h : Err -> M A) : M A :=
  fun s =>
    match m s with
    | (inl e, s1, t1) =>
        match h e s1 with (r, s2, t2) => (r, s2, t1 ++ t2) end
    | (inr a, s1, t1) => (inr a, s1, t1)
    end.

(** [try { m } finally { fin }]: an exception of [fin] replaces the
    outcome of [m]. *)
Definition try_finally {A : Type} (m : M A) (fin : M unit) : M A :=
  fun s =>
    match m s with
    | (r, s1, t1) =>
        match fin s1 with
        | (inl e, s2, t2) => (inl e, s2, t1 ++ t2)
        | (inr _, s2, t2) => (r, s2, t1 ++ t2)
        end
    end.

(** A call that cannot fail and is only observed. *)
Definition emit (ev : Ev) : M unit := fun s => (inr tt, s, [ev]).

(** A read of the outside world. *)
Definition read {A : Type} (f : St -> A) : M A :=
  fun s => (inr (f s), s, []).

(** A call that changes the outside world and may throw; the call is
    recorded together with its outcome. *)
Definition call (op : St -> option Err * St) (ev : option Err -> Ev)
  : M unit :=
  fun s =>
    match op s with
    | (Some e, s1) => (inl e, s1, [ev (Some e)])
    | (None, s1) => (inr tt, s1, [ev None])
    end.

(** [let current = c; for (const x of l) { ...; current++ }], with the
    body returning the new value of [current]. *)
Fixpoint for_of {A : Type} (l : list A) (body : A -> nat -> M nat)
    (current : nat) : M nat :=
  match l with
  | [] => ret current
  | x :: l' => bind (body x current) (for_of l' body)
  end.

End Monad.

(** The outcome without its value. *)
Definition unit_of {A : Type} (r : Err + A) : Err + unit :=
  match r with
  | inl e => inl e
  | inr _ => inr tt
  end.

Declare Scope prog_scope.
Delimit Scope prog_scope with prog.
Notation "x <- m ;; k" := (bind m (fun x => k))
  (at level 61, m at next level, right associativity) : prog_scope.
Notation "m ;;; k" := (bind m (fun _ => k))
  (at level 61, right associativity) : prog_scope.

End Prog.

(** ** fileSyncManager.ts: the three-way comparison *)

Module FileSync.

(** The part of [fs.Stats] the engine reads: [mtime.getTime()]. *)
Record Stats : Type := mkStats { mtime : Z }.

(** One entry of [sftp.list]. [listing] is what [sftp.list] answers for
    the entry's own path ([None]: the call throws); it is consulted for
    directories only. *)
Inductive RemoteItem : Type :=
| mkItem (name : string) (type : string) (modifyTime : option Z)
         (listing : option (list RemoteItem)).

Definition item_modifyTime (i : RemoteItem) : option Z :=
  match i with mkItem _ _ m _ => m end.

Inductive ActionType : Type := upload | download.

Record SyncAction : Type := mkAction { type : ActionType; file : string }.

(** [remoteStats.modifyTime || 0]: [undefined] and [0] are both falsy. *)
Definition remoteTime (remoteStats : RemoteItem) : Z :=
  match item_modifyTime remoteStats with
  | Some t => if Z.eqb t 0 then 0%Z else t
  | None => 0%Z
  end.

(** The body of the [for (const file of allFiles)] loop: the actions it
    pushes for one path. *)
Definition decide (localFiles : JsMap.t Stats)
    (remoteFiles : JsMap.t RemoteItem) (file : string) : list SyncAction :=
  match JsMap.get localFiles file, JsMap.get remoteFiles file with
  | Some _, None => [mkAction upload file]
  | None, Some _ => [mkAction download file]
  | Some localStats, Some remoteStats =>
      let localTime := mtime localStats in
      let remoteTime := remoteTime remoteStats in
      if Z.ltb remoteTime localTime then [mkAction upload file]
      else if Z.ltb localTime remoteTime then [mkAction download file]
      else []
  | None, None => []
  end.

Definition calculateSyncActions (localFiles : JsMap.t Stats)
    (remoteFiles : JsMap.t RemoteItem) : list SyncAction :=
  let allFiles :=
    JsSet.of_list (JsMap.keys localFiles ++ JsMap.keys remoteFiles) in
  fold_left (fun actions file => actions ++ decide localFiles remoteFiles file)
            allFiles [].

(** The actions of a list that concern one path. *)
Definition actions_for (f : string) (actions : list SyncAction)
  : list SyncAction :=
  filter (fun a => String.eqb (file a) f) actions.

(** ** fileSyncManager.ts: the engine *)

Import Prog.
Local Open Scope prog_scope.

Inductive SyncDirection : Type := LocalToRemote | RemoteToLocal | Both.

Record SyncOptions : Type := mkOptions {
  direction : SyncDirection;
  excludePatterns : list string;
  includeHidden : bool;
  deleteExtraFiles : bool
}.

(** [Partial<SyncOptions>], the fields [syncFiles] reads. *)
Record PartialOptions : Type := mkPartial {
  opt_excludePatterns : option (list string);
  opt_includeHidden : option bool;
  opt_deleteExtraFiles : option bool
}.

Record SyncProgress : Type := mkProgress {
  current : nat;
  total : nat;
  currentFile : string;
  percentage : Z
}.

(** The configuration section [seraph] and what else [syncFiles] asks the
    editor and the SSH manager. *)
Record Session : Type := mkSession {
  isConnected : bool;
  workspaceFolder : option string;
  cfg_host : option string;
  cfg_port : option Z;
  cfg_username : option string;
  cfg_privateKeyPath : option string;
  cfg_remotePath : option string
}.

Record ConnectionConfig : Type := mkConnection {
  conn_host : string;
  conn_port : Z;
  conn_username : string;
  conn_privateKey : option string;
  conn_password : option string
}.

(** Calls made on the outside world, with the outcome of those that may
    throw ([Some e]: the call threw [e]). *)
Inductive Event : Type :=
| SyncProgressFired (p : SyncProgress)
| ShowInformationMessage (msg : string)
| ShowErrorMessage (msg : string)
| SftpConnect (c : ConnectionConfig) (err : option Err)
| SftpEnd (err : option Err)
| SftpMkdir (remotePath : string) (err : option Err)
| SftpPut (localPath remotePath : string) (err : option Err)
| SftpGet (remotePath localPath : string) (err : option Err)
| FsMkdir (localDir : string) (err : option Err).

(** Pure library functions: node:path, minimatch, and the double
    arithmetic of [Math.round((i / total) * 100)]. *)
Class NodeLib : Type := {
  path_join : string -> string -> string;
  path_dirname : string -> string;
  path_sep : string;
  posix_join : string -> string -> string;
  posix_dirname : string -> string;
  minimatch : string -> string -> bool;
  round_percent : nat -> nat -> Z
}.

(** The outside world in state [W]: the local file system (through glob
    and fs), the password prompt and the SFTP channel. [sftp_list] gives
    the listing of a remote directory with the listings of its
    sub-directories attached ([None]: the call throws). *)
Class Host (W : Type) : Type := {
  glob_sync : string -> string -> bool -> W -> list string;
  fs_statSync : string -> W -> option Stats;
  fs_existsSync : string -> W -> bool;
  fs_readFileSync : string -> W -> Err + string;
  fs_mkdirSync : string -> W -> option Err * W;
  showInputBox : W -> option string;
  sftp_connect : ConnectionConfig -> W -> option Err * W;
  sftp_end : W -> option Err * W;
  sftp_list : string -> W -> option (list RemoteItem);
  sftp_mkdir : string -> W -> option Err * W;
  sftp_put : string -> string -> W -> option Err * W;
  sftp_get : string -> string -> W -> option Err * W
}.

Definition defaultExcludePatterns : list string :=
  ["node_modules/**"; ".git/**"; "**/__pycache__/**"; "**/*.pyc";
   "**/*.pyo"; ".vscode/**"; ".DS_Store"; "Thumbs.db"; "*.tmp"; "*.temp";
   "**/.pytest_cache/**"; "**/out/**"; "**/dist/**"].

(** [options?.excludePatterns || []]. *)
Definition user_patterns (options : option PartialOptions) : list string :=
  match options with
  | Some (mkPartial (Some patterns) _ _) => patterns
  | _ => []
  end.

(** The [syncOptions] of [syncFiles]: the built-in patterns, then the
    caller's. *)
Definition syncOptions_of (direction : SyncDirection)
    (options : option PartialOptions) : SyncOptions :=
  mkOptions direction
    (defaultExcludePatterns ++ user_patterns options)
    match options with
    | Some (mkPartial _ (Some b) _) => b
    | _ => false
    end
    match options with
    | Some (mkPartial _ _ (Some b)) => b
    | _ => false
    end.

Section Engine.
Context {L : NodeLib} {W : Type} {H : Host W}.

Local Notation "'M'" := (@Prog.M W Event).

Definition shouldExcludeFile (filePath : string)
    (excludePatterns : list string) : bool :=
  existsb (fun pattern => minimatch filePath pattern) excludePatterns.

Definition ensureRemoteDirectory (remotePath : string) : M unit :=
  try_catch (call (sftp_mkdir remotePath) (SftpMkdir remotePath))
            (fun _ => ret tt).

Definition connectSFTP (s : Session) : M unit :=
  let host := cfg_host s in
  let port := match cfg_port s with Some p => p | None => 22%Z end in
  let username := cfg_username s in
  let privateKeyPath := cfg_privateKeyPath s in
  match host, username with
  | Some (String _ _ as host), Some (String _ _ as username) =>
      useKey <- read (fun w =>
                  match privateKeyPath with
                  | Some (String _ _ as p) => fs_existsSync p w
                  | _ => false
                  end) ;;
      connectionConfig <-
        (if useKey
         then
           key <- (fun w =>
                     (fs_readFileSync
                        (match privateKeyPath with Some p => p | None => "" end)
                        w, w, [])) ;;
           ret (mkConnection host port username (Some key) None)
         else
           password <- read showInputBox ;;
           if Js.truthy password
           then ret (mkConnection host port username None password)
           else throw "Error: Password required for file sync") ;;
      call (sftp_connect connectionConfig) (SftpConnect connectionConfig)
  | _, _ => throw "Error: SSH configuration incomplete"
  end.

Definition disconnectSFTP : M unit := call sftp_end SftpEnd.

Definition getLocalFiles (basePath : string) (options : SyncOptions)
  : M (list string) :=
  let includePattern :=
    if includeHidden options then "**/*" else "**/!(.*)*" in
  allFiles <- read (glob_sync includePattern basePath
                              (includeHidden options)) ;;
  ret (filter (fun file =>
                 negb (shouldExcludeFile file (excludePatterns options)))
              allFiles).

(** The closure [traverse] of [getRemoteFiles] and of
    [getRemoteFilesWithStats], run on one entry of a listing: the
    entries that reach [files.push] / [files.set], in order, each with
    its [relativeItemPath]. A listing that throws contributes nothing. *)
Fixpoint traverse_item (options : SyncOptions) (relativePath : string)
    (item : RemoteItem) {struct item} : list (string * RemoteItem) :=
  match item with
  | mkItem name type _ listing =>
      let relativeItemPath :=
        match relativePath with
        | EmptyString => name
        | _ => posix_join relativePath name
        end in
      let shown :=
        includeHidden options || negb (Js.startsWith name ".") in
      if String.eqb type "d" then
        if shown then
          match listing with
          | Some items =>
              flat_map (traverse_item options relativeItemPath) items
          | None => []
          end
        else []
      else
        if shown && negb (shouldExcludeFile relativeItemPath
                                            (excludePatterns options))
        then [(relativeItemPath, item)]
        else []
  end.

Definition traverse (options : SyncOptions) (basePath : string) (w : W)
  : list (string * RemoteItem) :=
  match sftp_list basePath w with
  | Some items => flat_map (traverse_item options "") items
  | None => []
  end.

Definition getRemoteFiles (basePath : string) (options : SyncOptions)
  : M (list string) :=
  read (fun w => map fst (traverse options basePath w)).

Definition getLocalFilesWithStats (basePath : string)
    (options : SyncOptions) : M (JsMap.t Stats) :=
  fileList <- getLocalFiles basePath options ;;
  read (fun w =>
          fold_left
            (fun files file =>
               let fullPath := path_join basePath file in
               match fs_statSync fullPath w with
               | Some stats => JsMap.set file stats files
               | None => files
               end)
            fileList JsMap.empty).

Definition getRemoteFilesWithStats (basePath : string)
    (options : SyncOptions) : M (JsMap.t RemoteItem) :=
  read (fun w =>
          fold_left (fun files e => JsMap.set (fst e) (snd e) files)
                    (traverse options basePath w) JsMap.empty).

Definition fire (c n : nat) (f : string) : M unit :=
  emit (SyncProgressFired
          (mkProgress (c + 1) n f (round_percent (c + 1) n))).

Definition put_file (localPath remotePath file : string) : M unit :=
  let localFilePath := path_join localPath file in
  let remoteFilePath :=
    posix_join remotePath (Js.replace_all "\" "/" file) in
  let remoteDir := posix_dirname remoteFilePath in
  ensureRemoteDirectory remoteDir ;;;
  call (sftp_put localFilePath remoteFilePath)
       (SftpPut localFilePath remoteFilePath).

Definition get_file (localPath remotePath file : string) : M unit :=
  let remoteFilePath := posix_join remotePath file in
  let localFilePath :=
    path_join localPath (Js.replace_all "/" path_sep file) in
  let localDir := path_dirname localFilePath in
  exists_ <- read (fs_existsSync localDir) ;;
  (if negb exists_
   then call (fs_mkdirSync localDir) (FsMkdir localDir)
   else ret tt) ;;;
  call (sftp_get remoteFilePath localFilePath)
       (SftpGet remoteFilePath localFilePath).

Definition uploadFiles (localPath remotePath : string)
    (options : SyncOptions) : M unit :=
  files <- getLocalFiles localPath options ;;
  ensureRemoteDirectory remotePath ;;;
  for_of files
    (fun file current =>
       fire current (length files) file ;;;
       put_file localPath remotePath file ;;;
       ret (current + 1))
    0 ;;;
  ret tt.

Definition downloadFiles (remotePath localPath : string)
    (options : SyncOptions) : M unit :=
  files <- getRemoteFiles remotePath options ;;
  for_of files
    (fun file current =>
       fire current (length files) file ;;;
       get_file localPath remotePath file ;;;
       ret (current + 1))
    0 ;;;
  ret tt.

Definition bidirectionalSync (localPath remotePath : string)
    (options : SyncOptions) : M unit :=
  localFiles <- getLocalFilesWithStats localPath options ;;
  remoteFiles <- getRemoteFilesWithStats remotePath options ;;
  let syncActions := calculateSyncActions localFiles remoteFiles in
  let total := length syncActions in
  for_of syncActions
    (fun action current =>
       fire current total (file action) ;;;
       match type action with
       | upload => put_file localPath remotePath (file action)
       | download => get_file localPath remotePath (file action)
       end ;;;
       ret (current + 1))
    0 ;;;
  ret tt.

(** The [switch (direction)] of [syncFiles]. *)
Definition run_direction (direction : SyncDirection)
    (localPath remotePath : string) (syncOptions : SyncOptions)
  : M unit :=
  match direction with
  | LocalToRemote => uploadFiles localPath remotePath syncOptions
  | RemoteToLocal => downloadFiles remotePath localPath syncOptions
  | Both => bidirectionalSync localPath remotePath syncOptions
  end.

Definition syncFiles (s : Session) (direction : SyncDirection)
    (options : option PartialOptions) : M unit :=
  if negb (isConnected s) then throw "Error: Not connected to server"
  else
    match workspaceFolder s with
    | None => throw "Error: No workspace folder found"
    | Some localPath =>
        match cfg_remotePath s with
        | Some (String _ _ as remotePath) =>
            let syncOptions := syncOptions_of direction options in
            try_finally
              (try_catch
                 (connectSFTP s ;;;
                  run_direction direction localPath remotePath
                                syncOptions ;;;
                  emit (ShowInformationMessage
                          "File synchronization completed successfully"))
                 (fun error =>
                    emit (ShowErrorMessage ("Sync failed: " ++ error)) ;;;
                    throw error))
              disconnectSFTP
        | _ => throw "Error: Remote path not configured"
        end
    end.

(** *** What a run is expected to show

    The list of transfers a mode computes before its loop starts, seen
    as actions. *)
Definition computed {A : Type} (m : M A) (w : W) (default : A) : A :=
  match m w with
  | (inr a, _, _) => a
  | (inl _, _, _) => default
  end.

Definition transfer_list (direction : SyncDirection)
    (localPath remotePath : string) (options : SyncOptions) (w : W)
  : list SyncAction :=
  match direction with
  | LocalToRemote =>
      map (mkAction upload) (computed (getLocalFiles localPath options) w [])
  | RemoteToLocal =>
      map (mkAction download)
          (computed (getRemoteFiles remotePath options) w [])
  | Both =>
      computed
        (localFiles <- getLocalFilesWithStats localPath options ;;
         remoteFiles <- getRemoteFilesWithStats remotePath options ;;
         ret (calculateSyncActions localFiles remoteFiles))
        w []
  end.

(** The call that transfers the file of an action. *)
Definition transfer_event (localPath remotePath : string)
    (a : SyncAction) (err : option Err) : Event :=
  match type a with
  | upload =>
      SftpPut (path_join localPath (file a))
              (posix_join remotePath (Js.replace_all "\" "/" (file a)))
              err
  | download =>
      SftpGet (posix_join remotePath (file a))
              (path_join localPath
                         (Js.replace_all "/" path_sep (file a)))
              err
  end.

(** The progress event of the action at (zero-based) position [i] of a
    list of [n] actions. *)
Definition progress_event (n i : nat) (a : SyncAction) : Event :=
  SyncProgressFired
    (mkProgress (i + 1) n (file a) (round_percent (i + 1) n)).

(** *** The files of a remote tree

    What "every remote file not excluded, by recursive directory
    listing" means for a listing [items] found under the relative path
    [relativePath]: an entry that is not a directory, is not hidden
    (unless hidden entries are asked for) and whose relative path
    matches no exclusion pattern; or such a file of the listing of a
    directory entry that is not hidden, under the path of that
    directory. *)
Definition item_path (relativePath name : string) : string :=
  match relativePath with
  | EmptyString => name
  | _ => posix_join relativePath name
  end.

Inductive Enumerated (options : SyncOptions)
  : list RemoteItem -> string -> string -> Prop :=
| Enumerated_file items relativePath name type modifyTime listing :
    In (mkItem name type modifyTime listing) items ->
    type <> "d" ->
    includeHidden options = true \/ Js.startsWith name "." = false ->
    (forall pattern,
        In pattern (excludePatterns options) ->
        minimatch (item_path relativePath name) pattern = false) ->
    Enumerated options items relativePath (item_path relativePath name)
| Enumerated_directory items relativePath name modifyTime children file :
    In (mkItem name "d" modifyTime (Some children)) items ->
    includeHidden options = true \/ Js.startsWith name "." = false ->
    Enumerated options children (item_path relativePath name) file ->
    Enumerated options items relativePath file.

End Engine.

Definition is_dir_event (ev : Event) : bool :=
  match ev with
  | SftpMkdir _ _ | FsMkdir _ _ => true
  | _ => false
  end.

Definition is_transfer (ev : Event) : bool :=
  match ev with
  | SftpPut _ _ _ | SftpGet _ _ _ => true
  | _ => false
  end.

(** The error of a transfer that threw. *)
Definition transfer_error (ev : Event) : option Err :=
  match ev with
  | SftpPut _ _ err | SftpGet _ _ err => err
  | _ => None
  end.

Definition is_progress (ev : Event) : bool :=
  match ev with
  | SyncProgressFired _ => true
  | _ => false
  end.

Definition is_connect (ev : Event) : bool :=
  match ev with
  | SftpConnect _ _ => true
  | _ => false
  end.

(** The message shown when the [try] block of [syncFiles] ends with
    outcome [r]. *)
Definition final_message (r : Err + unit) : Event :=
  match r with
  | inl e => ShowErrorMessage ("Sync failed: " ++ e)
  | inr _ =>
      ShowInformationMessage "File synchronization completed successfully"
  end.

Definition transfers (t : list Event) : list Event := filter is_transfer t.

Section Traces.
Context {L : NodeLib}.
Variables (localPath remotePath : string) (n : nat).

(** One iteration on action [a] at position [i], seen from outside. *)
Definition IterSpec (i : nat) (a : SyncAction) (r : Err + unit)
    (t : list Event) : Prop :=
  exists prep, forallb is_dir_event prep = true /\
    match r with
    | inr _ =>
        t = progress_event n i a :: prep ++
            [transfer_event localPath remotePath a None]
    | inl e =>
        t = progress_event n i a :: prep ++
            [transfer_event localPath remotePath a (Some e)] \/
        t = progress_event n i a :: prep
    end.

(** The calls of a loop over [actions] that starts at position [i] and
    ends with outcome [r]: per action a progress event, directory
    creations, then the transfer; the loop stops at the first call that
    throws. *)
Inductive TransferTrace
  : nat -> list SyncAction -> Err + unit -> list Event -> Prop :=
| TT_done i : TransferTrace i [] (inr tt) []
| TT_step i a actions prep r t :
    forallb is_dir_event prep = true ->
    TransferTrace (S i) actions r t ->
    TransferTrace i (a :: actions) r
      (progress_event n i a :: prep ++
       transfer_event localPath remotePath a None :: t)
| TT_transfer_fails i a actions prep e :
    forallb is_dir_event prep = true ->
    TransferTrace i (a :: actions) (inl e)
      (progress_event n i a :: prep ++
       [transfer_event localPath remotePath a (Some e)])
| TT_mkdir_fails i a actions prep e :
    forallb is_dir_event prep = true ->
    TransferTrace i (a :: actions) (inl e)
      (progress_event n i a :: prep).

End Traces.



End FileSync.

(** ** jobManager.ts *)

Module Job.

Import Prog.
Local Open Scope prog_scope.

Record JobInfo : Type := mkJobInfo {
  jobId : string;
  job_name : string;
  status : string;
  job_gpuNode : string;
  submitTime : Z;
  job_partition : string;
  job_timeLimit : string
}.

(** [`${s}`] for an optional string. *)
Definition show_optional (s : option string) : string :=
  match s with
  | Some v => v
  | None => "undefined"
  end.

(** A text made of lines, each ended by a line feed. *)
Fixpoint unlines (ls : list string) : string :=
  match ls with
  | [] => EmptyString
  | l :: ls' => (l ++ Js.nl ++ unlines ls')%string
  end.

Section Script.
Context {D : Js.Doubles}.

Record JobConfig : Type := mkJobConfig {
  name : string;
  gpuCount : Js.double;
  gpuNode : option string;
  cpuPerGpu : Js.double;
  memoryPerGpu : string;
  partition : string;
  timeLimit : string;
  scriptPath : string;
  outputPath : option string;
  errorPath : option string
}.

Definition generateScriptContent (config : JobConfig) : string :=
  unlines
    ["#!/bin/bash";
     "#SBATCH --job-name=" ++ name config;
     "#SBATCH --output=" ++ show_optional (outputPath config);
     "#SBATCH --error=" ++ show_optional (errorPath config);
     "#SBATCH --partition=" ++ partition config;
     "#SBATCH --nodes=1";
     "#SBATCH --ntasks=1";
     "#SBATCH --gres=gpu:" ++ Js.show (gpuCount config);
     "#SBATCH --cpus-per-task=" ++
       Js.show (Js.mul (cpuPerGpu config) (gpuCount config));
     "#SBATCH --mem=" ++
       Js.show (Js.mul (Js.parseInt (memoryPerGpu config))
                       (gpuCount config)) ++ "G";
     "#SBATCH --time=" ++ timeLimit config;
     if Js.truthy (gpuNode config)
     then "#SBATCH --nodelist=" ++ show_optional (gpuNode config)
     else "";
     "";
     "# Job information";
     "echo " ++ Js.dq ++ "Job started at: $(date)" ++ Js.dq;
     "echo " ++ Js.dq ++ "Running on node: $(hostname)" ++ Js.dq;
     "echo " ++ Js.dq ++ "CUDA devices: $CUDA_VISIBLE_DEVICES" ++ Js.dq;
     "";
     "# Activate conda environment (modify as needed)";
     "# source ~/miniconda3/etc/profile.d/conda.sh";
     "# conda activate your-env";
     "";
     "# Run the Python script";
     "python " ++ scriptPath config;
     "";
     "echo " ++ Js.dq ++ "Job completed at: $(date)" ++ Js.dq]%string.

End Script.

(** The resource requests of a batch script: its lines that start with
    the directive prefix, without the prefix. *)
Fixpoint strip_prefix (p s : string) : option string :=
  match p, s with
  | EmptyString, _ => Some s
  | String a p', String b s' =>
      if Ascii.eqb a b then strip_prefix p' s' else None
  | String _ _, EmptyString => None
  end.

Fixpoint keep_some {A : Type} (l : list (option A)) : list A :=
  match l with
  | [] => []
  | Some a :: l' => a :: keep_some l'
  | None :: l' => keep_some l'
  end.

Definition directives (script : string) : list string :=
  keep_some (map (strip_prefix "#SBATCH ") (Js.split Js.LF script)).

(** *** Status and cancellation *)

Record CommandResult : Type := mkResult {
  stdout : string;
  stderr : string;
  code : option Z
}.

Inductive Event : Type :=
| ExecCommand (command : string) (result : Err + CommandResult)
| ShowInformationMessage (msg : string)
| ShowErrorMessage (msg : string)
| JobStatusChanged (jobs : list JobInfo).

(** The SSH channel, the clock and the setting [seraph.username]. *)
Class Host (W : Type) : Type := {
  ssh_isConnected : W -> bool;
  ssh_execCommand : string -> W -> (Err + CommandResult) * W;
  cfg_username : W -> option string;
  Date_now : W -> Z
}.

(** The job manager and the world around it. *)
Record State (W : Type) : Type := mkState {
  world : W;
  runningJobs : list JobInfo
}.
Arguments mkState {W} _ _.
Arguments world {W} _.
Arguments runningJobs {W} _.

Section Manager.
Context {W : Type} {H : Host W}.

Local Notation "'M'" := (@Prog.M (State W) Event).

(** [SSHManager.executeCommand]. *)
Definition executeCommand (command : string) : M CommandResult :=
  fun st =>
    if negb (ssh_isConnected (world st))
    then (inl "Error: Not connected to server", st, [])
    else
      match ssh_execCommand command (world st) with
      | (inl e, w) =>
          (inl e, mkState w (runningJobs st), [ExecCommand command (inl e)])
      | (inr r, w) =>
          (inr r, mkState w (runningJobs st), [ExecCommand command (inr r)])
      end.

Definition nth_part (parts : list string) (i : nat) : string :=
  nth i parts "".

(** [parseJobQueue]; [now] is the value of [new Date()]. *)
Definition parseJobQueue (now : Z) (output : string) : list JobInfo :=
  let lines :=
    filter (fun line => Js.nonempty (Js.trim line))
           (Js.split Js.LF output) in
  flat_map
    (fun line =>
       let parts := Js.split_spaces (Js.trim line) in
       if (6 <=? length parts)%nat then
         [mkJobInfo (nth_part parts 0) (nth_part parts 1)
                    (nth_part parts 2) (nth_part parts 9) now
                    (nth_part parts 3) (nth_part parts 5)]
       else [])
    lines.

Definition squeue_command (username : string) : string :=
  ("squeue -u " ++ username ++ " --format=" ++ Js.dq ++
   "%.10i %.20j %.8T %.15P %.10M %.15l %.6D %.20S %.20e %.20N" ++
   Js.dq ++ " --noheader")%string.

Definition refreshJobs : M unit :=
  connected <- read (fun st => ssh_isConnected (world st)) ;;
  if negb connected then ret tt
  else
    try_catch
      (username <- read (fun st => cfg_username (world st)) ;;
       match username with
       | Some (String _ _ as username) =>
           result <- executeCommand (squeue_command username) ;;
           match code result with
           | Some 0%Z =>
               now <- read (fun st => Date_now (world st)) ;;
               let jobs := parseJobQueue now (stdout result) in
               (fun st => (inr tt, mkState (world st) jobs, [])) ;;;
               emit (JobStatusChanged jobs)
           | _ => ret tt
           end
       | _ => ret tt
       end)
      (fun _ => ret tt).

Definition cancelJob (jobId : string) : M unit :=
  try_catch
    (result <- executeCommand ("scancel " ++ jobId) ;;
     match code result with
     | Some 0%Z =>
         emit (ShowInformationMessage
                 ("Job " ++ jobId ++ " cancelled successfully")) ;;;
         refreshJobs
     | _ =>
         emit (ShowErrorMessage
                 ("Failed to cancel job " ++ jobId ++ ": " ++
                  stderr result))
     end)
    (fun error =>
       emit (ShowErrorMessage ("Failed to cancel job: " ++ error))).

End Manager.

End Job.

(** ** Regular expressions

    The patterns of the extension are sequences of single characters,
    repeated character classes and capture groups that do not nest; they
    are matched by backtracking, in the order ECMAScript prescribes. *)

Module Regex.

Inductive Item : Type :=
| Chr (p : ascii -> bool)                  (* one character of a class *)
| Star (p : ascii -> bool) (lazy : bool)   (* [p*] or [p*?] *)
| Open                                     (* [(] *)
| Close.                                   (* [)] *)

Definition lit (s : string) : list Item :=
  map (fun c => Chr (Ascii.eqb c)) (list_ascii_of_string s).

(** [p+] and [p+?]. *)
Definition plus (p : ascii -> bool) (lazy : bool) : list Item :=
  [Chr p; Star p lazy].

Definition group (r : list Item) : list Item := Open :: r ++ [Close].

(** [\d], [\s], [.] and [[\d.]]. *)
Definition digit : ascii -> bool := Js.is_digit.
Definition space : ascii -> bool := Js.is_space.
Definition dot (c : ascii) : bool :=
  negb (Ascii.eqb c Js.LF || Ascii.eqb c "013"%char).
Definition digit_or_point (c : ascii) : bool :=
  Js.is_digit c || Ascii.eqb c "."%char.

Definition push (c : ascii) (cur : option string) : option string :=
  match cur with
  | Some g => Some (g ++ String c EmptyString)%string
  | None => None
  end.

(** Match [r] at the start of [s]. [cur] is the text of the group being
    captured, [caps] the finished captures, latest first. The result is
    the captures in order and the rest of [s] behind the match. *)
Fixpoint run (r : list Item) (s : string) (cur : option string)
    (caps : list string) {struct r} : option (list string * string) :=
  match r with
  | [] => Some (rev caps, s)
  | Chr p :: r' =>
      match s with
      | String c s' => if p c then run r' s' (push c cur) caps else None
      | EmptyString => None
      end
  | Open :: r' => run r' s (Some EmptyString) caps
  | Close :: r' =>
      run r' s None
          (match cur with Some g => g | None => EmptyString end :: caps)
  | Star p lazy :: r' =>
      (fix star (s : string) (cur : option string) {struct s}
         : option (list string * string) :=
         let stop := run r' s cur caps in
         let more :=
           match s with
           | String c s' => if p c then star s' (push c cur) else None
           | EmptyString => None
           end in
         if lazy
         then match stop with Some m => Some m | None => more end
         else match more with Some m => Some m | None => stop end)
        s cur
  end.

(** The number of capture groups of a pattern. *)
Definition groups (r : list Item) : nat :=
  length (filter (fun it => match it with Close => true | _ => false end) r).

(** [s.match(/^r/)]: the captures, or [None]. *)
Definition match_start (r : list Item) (s : string) : option (list string) :=
  match run r s None [] with
  | Some (caps, _) => Some caps
  | None => None
  end.

(** The leftmost match of [r] in [s]: captures and rest. *)
Fixpoint search (r : list Item) (s : string) : option (list string * string) :=
  match run r s None [] with
  | Some m => Some m
  | None =>
      match s with
      | String _ s' => search r s'
      | EmptyString => None
      end
  end.

(** [s.matchAll(/r/g)]: the captures of the successive matches. Every
    match of the patterns used here consumes a character, so there are
    at most [length s] of them and the fuel is never used up. *)
Fixpoint matchAll_fuel (fuel : nat) (r : list Item) (s : string)
  : list (list string) :=
  match fuel with
  | O => []
  | S fuel' =>
      match search r s with
      | Some (caps, rest) => caps :: matchAll_fuel fuel' r rest
      | None => []
      end
  end.

Definition matchAll (r : list Item) (s : string) : list (list string) :=
  matchAll_fuel (S (String.length s)) r s.

End Regex.

(** ** gpuManager.ts *)

Module Gpu.

Section Parser.
Context {D : Js.Doubles}.

Record GPUNode : Type := mkNode {
  name : string;
  gpuStatus : list string;
  cpuUsage : option Js.double;
  memoryUsage : option Js.double;
  availableGPUs : Js.double;
  totalGPUs : Js.double
}.

Record GPUStatus : Type := mkStatus {
  nodes : list GPUNode;
  lastUpdated : Z
}.

(** [/^(aurora-g\d+):\s*\[GPU\]\s*\[(\d+)\/(\d+)\]\s*(.+?)\s*\[CPU\]\s*(\d+)\/(\d+)\s*\[MEM\]\s*(\d+)\/([\d.]+)\s*GiB/] *)
Definition node_pattern : list Regex.Item :=
  Regex.group (Regex.lit "aurora-g" ++ Regex.plus Regex.digit false) ++
  Regex.lit ":" ++ [Regex.Star Regex.space false] ++
  Regex.lit "[GPU]" ++ [Regex.Star Regex.space false] ++
  Regex.lit "[" ++ Regex.group (Regex.plus Regex.digit false) ++
  Regex.lit "/" ++ Regex.group (Regex.plus Regex.digit false) ++
  Regex.lit "]" ++ [Regex.Star Regex.space false] ++
  Regex.group (Regex.plus Regex.dot true) ++
  [Regex.Star Regex.space false] ++
  Regex.lit "[CPU]" ++ [Regex.Star Regex.space false] ++
  Regex.group (Regex.plus Regex.digit false) ++ Regex.lit "/" ++
  Regex.group (Regex.plus Regex.digit false) ++
  [Regex.Star Regex.space false] ++
  Regex.lit "[MEM]" ++ [Regex.Star Regex.space false] ++
  Regex.group (Regex.plus Regex.digit false) ++ Regex.lit "/" ++
  Regex.group (Regex.plus Regex.digit_or_point false) ++
  [Regex.Star Regex.space false] ++ Regex.lit "GiB".

(** [/\[(.)\]/g] *)
Definition slot_pattern : list Regex.Item :=
  Regex.lit "[" ++ Regex.group [Regex.Chr Regex.dot] ++ Regex.lit "]".

Definition nodeMatch (trimmedLine : string) : option (list string) :=
  Regex.match_start node_pattern trimmedLine.

Definition capture (m : list string) (i : nat) : string :=
  nth (i - 1) m "".

(** The lines the parser looks at. *)
Definition status_lines (output : string) : list string :=
  filter (fun line => Js.nonempty (Js.trim line)) (Js.split Js.LF output).

(** The node pushed for one line, if the line matches. *)
Definition parse_line (line : string) : list GPUNode :=
  let trimmedLine := Js.trim line in
  match nodeMatch trimmedLine with
  | Some m =>
      let nodeName := capture m 1 in
      let usedGPUs := Js.parseInt (capture m 2) in
      let totalGPUs := Js.parseInt (capture m 3) in
      let gpuString := capture m 4 in
      let usedCPU := Js.parseInt (capture m 5) in
      let totalCPU := Js.parseInt (capture m 6) in
      let usedMEM := Js.parseInt (capture m 7) in
      let totalMEM := Js.parseFloat (capture m 8) in
      let gpuArray :=
        map (fun m => capture m 1) (Regex.matchAll slot_pattern gpuString) in
      let cpuUsage := Js.round_percent usedCPU totalCPU in
      let memUsage := Js.round_percent usedMEM totalMEM in
      [mkNode nodeName gpuArray (Some cpuUsage) (Some memUsage)
              (Js.sub totalGPUs usedGPUs) totalGPUs]
  | None => []
  end.

(** The nodes pushed when no line matched: [aurora-g1] to
    [aurora-g8]. *)
Definition fallback_nodes : list GPUNode :=
  map (fun i =>
         mkNode ("aurora-g" ++ Js.string_of_count i)
                ["-"; "-"; "-"; "-"; "-"; "-"; "-"; "-"]
                (Some (Js.of_count 0)) (Some (Js.of_count 0))
                (Js.of_count 8) (Js.of_count 8))
      (seq 1 8).

(** [parseGPUStatus]; [now] is the value of [new Date()]. *)
Definition parseGPUStatus (now : Z) (output : string) : GPUStatus :=
  let lines := status_lines output in
  let nodes := flat_map parse_line lines in
  let nodes :=
    match nodes with
    | [] => fallback_nodes
    | _ => nodes
    end in
  mkStatus nodes now.

End Parser.

End Gpu.

(** ** src/gpuManager.ts: the parser of the earlier, multi-line format

    A header line [aurora-gN:] opens a node; the lines [GPU: ...],
    [CPU: n%] and [MEM: n%] that follow fill it in. *)

Module GpuLegacy.

(** [/^(aurora-g\d+):/], [/GPU:\s*(.+)/], [/\[(.)\]/g],
    [/CPU:\s*(\d+)%/] and [/MEM:\s*(\d+)%/]. *)
Definition header_pattern : list Regex.Item :=
  Regex.group (Regex.lit "aurora-g" ++ Regex.plus Regex.digit false) ++
  Regex.lit ":".

Definition gpu_pattern : list Regex.Item :=
  Regex.lit "GPU:" ++ [Regex.Star Regex.space false] ++
  Regex.group (Regex.plus Regex.dot false).

Definition slot_pattern : list Regex.Item :=
  Regex.lit "[" ++ Regex.group [Regex.Chr Regex.dot] ++ Regex.lit "]".

Definition percent_pattern (label : string) : list Regex.Item :=
  Regex.lit label ++ [Regex.Star Regex.space false] ++
  Regex.group (Regex.plus Regex.digit false) ++ Regex.lit "%".

Definition first_capture (m : option (list string * string)) : option string :=
  match m with
  | Some (caps, _) => Some (nth 0 caps "")
  | None => None
  end.

Section Parser.
Context {D : Js.Doubles}.

Record GPUNode : Type := mkNode {
  name : string;
  gpuStatus : list string;
  cpuUsage : option Js.double;
  memoryUsage : option Js.double;
  availableGPUs : nat;
  totalGPUs : nat
}.

Record GPUStatus : Type := mkStatus {
  nodes : list GPUNode;
  lastUpdated : Z
}.

(** The loop variables [nodes] and [currentNode]. *)
Definition LoopState : Type := (list GPUNode * option GPUNode)%type.

Definition step (st : LoopState) (line : string) : LoopState :=
  let (nodes, currentNode) := st in
  let trimmedLine := Js.trim line in
  match Regex.match_start header_pattern trimmedLine with
  | Some m =>
      (match currentNode with
       | Some node => nodes ++ [node]
       | None => nodes
       end,
       Some (mkNode (nth 0 m "") [] None None 0 0))
  | None =>
      match currentNode with
      | None => st
      | Some node =>
          match first_capture (Regex.search gpu_pattern trimmedLine) with
          | Some gpuString =>
              let gpuArray :=
                map (fun m => nth 0 m "")
                    (Regex.matchAll slot_pattern gpuString) in
              (nodes,
               Some (mkNode (name node) gpuArray (cpuUsage node)
                            (memoryUsage node)
                            (length (filter (String.eqb "-") gpuArray))
                            (length gpuArray)))
          | None =>
              match first_capture
                      (Regex.search (percent_pattern "CPU:") trimmedLine) with
              | Some n =>
                  (nodes,
                   Some (mkNode (name node) (gpuStatus node)
                                (Some (Js.parseInt n)) (memoryUsage node)
                                (availableGPUs node) (totalGPUs node)))
              | None =>
                  match first_capture
                          (Regex.search (percent_pattern "MEM:") trimmedLine)
                  with
                  | Some n =>
                      (nodes,
                       Some (mkNode (name node) (gpuStatus node)
                                    (cpuUsage node) (Some (Js.parseInt n))
                                    (availableGPUs node) (totalGPUs node)))
                  | None => st
                  end
              end
          end
      end
  end.

Definition status_lines (output : string) : list string :=
  filter (fun line => Js.nonempty (Js.trim line)) (Js.split Js.LF output).

Definition parseGPUStatus (now : Z) (output : string) : GPUStatus :=
  let (nodes, currentNode) :=
    fold_left step (status_lines output) ([], None) in
  mkStatus (match currentNode with
            | Some node => nodes ++ [node]
            | None => nodes
            end)
           now.

End Parser.

End GpuLegacy.

(** ** More observations on the calls of [syncFiles] *)

Module SyncObs.

Import FileSync.

Definition is_end (ev : Event) : bool :=
  match ev with
  | SftpEnd _ => true
  | _ => false
  end.

Definition is_message (ev : Event) : bool :=
  match ev with
  | ShowInformationMessage _ | ShowErrorMessage _ => true
  | _ => false
  end.

(** A call made on the SFTP channel or on the local file system. *)
Definition is_channel_call (ev : Event) : bool :=
  match ev with
  | SyncProgressFired _ | ShowInformationMessage _ | ShowErrorMessage _ =>
      false
  | _ => true
  end.

End SyncObs.

(** ** syncUI.ts *)

Module SyncUI.

Import Prog FileSync.
Local Open Scope prog_scope.

(** The editor's dialogs, answered by the user ([None]: dismissed), and
    [path.basename]. A pick among the three directions is answered by
    the position of the chosen item. *)
Class Editor (W : Type) : Type := {
  showQuickPick : list string -> string -> W -> option string;
  pickDirection : W -> option nat;
  showWarningMessage : string -> list string -> W -> option string;
  showInputBox : string -> W -> option string;
  path_basename : string -> string
}.

(** What the user sees of a run: the calls of the engine, the progress
    reports of the notification and the error message of the UI. *)
Inductive Event : Type :=
| Engine (ev : FileSync.Event)
| Report (increment : Z) (message : string)
| ErrorMessage (msg : string).

Section UI.
Context {L : NodeLib} {W : Type} {H : Host W} {E : Editor W}.

Local Notation "'M'" := (@Prog.M W Event).

Definition selectSyncDirection (w : W) : option SyncDirection :=
  match pickDirection w with
  | Some i => nth_error [LocalToRemote; RemoteToLocal; Both] i
  | None => None
  end.

(** [additionalExcludes.split(',').map(p => p.trim()).filter(p => p.length > 0)] *)
Definition parse_patterns (additionalExcludes : string) : list string :=
  filter Js.nonempty (map Js.trim (Js.split "," additionalExcludes)).

Definition getSyncOptions (w : W) : option PartialOptions :=
  match showQuickPick ["No"; "Yes"]
          "Include hidden files (.gitignore, .vscode, etc.)?" w with
  | None => None
  | Some includeHidden =>
      let additionalExcludes :=
        showInputBox
          "Additional exclude patterns (comma-separated, optional)" w in
      Some (mkPartial
              match additionalExcludes with
              | Some text => Some (parse_patterns text)
              | None => None
              end
              (Some (String.eqb includeHidden "Yes"))
              None)
  end.

(** The listener of [performSync] on the calls of the engine:
    [lastProgress] is the percentage reported last. *)
Fixpoint with_reports (lastProgress : Z) (t : list FileSync.Event)
  : list Event :=
  match t with
  | [] => []
  | SyncProgressFired p :: t' =>
      Engine (SyncProgressFired p) ::
      Report (percentage p - lastProgress)
             (Js.string_of_count (current p) ++ "/" ++
              Js.string_of_count (total p) ++ " - " ++
              path_basename (currentFile p)) ::
      with_reports (percentage p) t'
  | ev :: t' => Engine ev :: with_reports lastProgress t'
  end.

Definition performSync (s : Session) (direction : SyncDirection)
    (options : option PartialOptions) : M unit :=
  fun w =>
    match syncFiles s direction options w with
    | (r, w', t) => (r, w', with_reports 0 t)
    end.

Definition not_connected : M unit :=
  emit (ErrorMessage "Please connect to the server first").

Definition showSyncDialog (s : Session) : M unit :=
  if negb (isConnected s) then not_connected
  else
    direction <- read selectSyncDirection ;;
    match direction with
    | None => ret tt
    | Some direction =>
        options <- read getSyncOptions ;;
        match options with
        | None => ret tt
        | Some options => performSync s direction (Some options)
        end
    end.

Definition syncLocalToRemote (s : Session) : M unit :=
  if negb (isConnected s) then not_connected
  else performSync s LocalToRemote None.

Definition syncRemoteToLocal (s : Session) : M unit :=
  if negb (isConnected s) then not_connected
  else performSync s RemoteToLocal None.

Definition syncBothWays (s : Session) : M unit :=
  if negb (isConnected s) then not_connected
  else
    confirmation <-
      read (showWarningMessage
              "Bidirectional sync will overwrite files based on modification time. Continue?"
              ["Yes"; "No"]) ;;
    match confirmation with
    | Some "Yes" => performSync s Both None
    | _ => ret tt
    end.

(** A string without the character [c]. *)
Fixpoint lacks (c : ascii) (s : string) : bool :=
  match s with
  | EmptyString => true
  | String a s' => negb (Ascii.eqb a c) && lacks c s'
  end.

(** The increments reported to the notification, in order. *)
Fixpoint increments (t : list Event) : list Z :=
  match t with
  | [] => []
  | Report i _ :: t' => i :: increments t'
  | _ :: t' => increments t'
  end.

(** The percentage of the last progress event of the engine, [0] if
    there is none. *)
Fixpoint last_percentage (lastProgress : Z) (t : list FileSync.Event) : Z :=
  match t with
  | [] => lastProgress
  | SyncProgressFired p :: t' => last_percentage (percentage p) t'
  | _ :: t' => last_percentage lastProgress t'
  end.

Definition engine_calls (t : list Event) : list FileSync.Event :=
  flat_map (fun ev => match ev with Engine e => [e] | _ => [] end) t.

End UI.

End SyncUI.

(** ** jobManager.ts: submission, job ids, the refresh timer *)

Module JobManager.

Import Prog Job.
Local Open Scope prog_scope.

(** A string without white space. *)
Fixpoint no_space (s : string) : bool :=
  match s with
  | EmptyString => true
  | String a s' => negb (Js.is_space a) && no_space s'
  end.

Fixpoint all_digits (s : string) : bool :=
  match s with
  | EmptyString => true
  | String a s' => Js.is_digit a && all_digits s'
  end.

(** The text does not go on with a digit. *)
Definition next_is_no_digit (s : string) : bool :=
  match s with
  | String c _ => negb (Js.is_digit c)
  | EmptyString => true
  end.

(** A message shown to the user. *)
Definition is_shown (ev : Event) : bool :=
  match ev with
  | ShowInformationMessage _ | ShowErrorMessage _ => true
  | _ => false
  end.

(** [/Submitted batch job (\d+)/] *)
Definition submitted_pattern : list Regex.Item :=
  Regex.lit "Submitted batch job " ++
  Regex.group (Regex.plus Regex.digit false).

Definition extractJobId (output : string) : string :=
  match Regex.search submitted_pattern output with
  | Some (m, _) => nth 0 m ""
  | None => "unknown"
  end.

(** The dialogs of the editor ([None]: dismissed), the settings
    [seraph.selectedGPU] and [seraph.remotePath], the workspace folder,
    node:path and the local file system. [openTextDocument] stands for
    opening the document and showing it. *)
Class Editor (W : Type) : Type := {
  showInputBox : string -> W -> option string;
  showQuickPick : list string -> string -> W -> option string;
  cfg_selectedGPU : W -> option string;
  cfg_remotePath : W -> option string;
  workspaceFolder : W -> option string;
  path_join : string -> string -> string;
  path_dirname : string -> string;
  path_basename : string -> string;
  fs_writeFileSync : string -> string -> W -> option Err * W;
  openTextDocument : string -> W -> option Err * W;
  fs_readFileSync : string -> W -> Err + string
}.

Definition gpuCounts : list string := ["1"; "2"; "4"; "8"].
Definition cpuCounts : list string := ["4"; "8"; "16"; "32"].
Definition memorySizes : list string := ["16G"; "32G"; "64G"; "128G"].
Definition partitions : list string :=
  ["debug_ugrad"; "batch_ugrad"; "gpu_ugrad"; "cpu_ugrad"].

Section Manager.
Context {D : Js.Doubles} {W : Type} {H : Host W} {E : Editor W}.

Local Notation "'M'" := (@Prog.M (State W) Event).

(** An answer that is [undefined] or empty ends the dialogs. *)
Definition getJobConfiguration (w : W) : option JobConfig :=
  match showInputBox "Enter job name" w with
  | Some (String _ _ as jobName) =>
  match showQuickPick gpuCounts "Select number of GPUs" w with
  | Some (String _ _ as gpuCountStr) =>
  let gpuNode :=
    if Js.truthy (cfg_selectedGPU w) then cfg_selectedGPU w
    else showInputBox "Enter GPU node (or select from dashboard first)" w in
  match showQuickPick cpuCounts "Select CPU cores per GPU" w with
  | Some (String _ _ as cpuPerGpuStr) =>
  match showQuickPick memorySizes "Select memory per GPU" w with
  | Some (String _ _ as memoryPerGpu) =>
  match showQuickPick partitions "Select partition" w with
  | Some (String _ _ as partition) =>
  match showInputBox "Enter time limit (format: D-HH:MM:SS)" w with
  | Some (String _ _ as timeLimit) =>
  match showInputBox "Enter Python script path to execute" w with
  | Some (String _ _) =>
      let remotePath :=
        match cfg_remotePath w with Some p => p | None => "" end in
      Some (mkJobConfig jobName (Js.parseInt gpuCountStr) gpuNode
                        (Js.parseInt cpuPerGpuStr) memoryPerGpu partition
                        timeLimit
                        (remotePath ++ "/" ++ jobName ++ ".sh")%string
                        (Some (remotePath ++ "/" ++ jobName ++ ".out")%string)
                        (Some (remotePath ++ "/" ++ jobName ++ ".err")%string))
  | _ => None end
  | _ => None end
  | _ => None end
  | _ => None end
  | _ => None end
  | _ => None end
  | _ => None
  end.

(** A call on the editor or the file system that may throw. *)
Definition effect (op : W -> option Err * W) : M unit :=
  fun st =>
    match op (world st) with
    | (Some e, w) => (inl e, mkState w (runningJobs st), [])
    | (None, w) => (inr tt, mkState w (runningJobs st), [])
    end.

Definition saveScript (content jobName : string) : M string :=
  folder <- read (fun st => workspaceFolder (world st)) ;;
  match folder with
  | None => throw "Error: No workspace folder found"
  | Some fsPath =>
      let scriptPath := path_join fsPath (jobName ++ ".sh")%string in
      effect (fs_writeFileSync scriptPath content) ;;;
      effect (openTextDocument scriptPath) ;;;
      ret scriptPath
  end.

Definition upload_command (remotePath content : string) : string :=
  ("cat > " ++ remotePath ++ " << 'EOF'" ++ Js.nl ++ content ++ Js.nl ++
   "EOF" ++ Js.nl ++ "chmod +x " ++ remotePath)%string.

Definition uploadScript (localPath remotePath : string) : M unit :=
  content <- (fun st => (fs_readFileSync localPath (world st), st, [])) ;;
  result <- executeCommand (upload_command remotePath content) ;;
  match code result with
  | Some 0%Z => ret tt
  | _ => throw ("Error: Failed to upload script: " ++ stderr result)%string
  end.

Definition sbatch_command (scriptPath : string) : string :=
  ("cd " ++ path_dirname scriptPath ++ " && sbatch " ++
   path_basename scriptPath)%string.

Definition submitJob : M unit :=
  connected <- read (fun st => ssh_isConnected (world st)) ;;
  if negb connected then emit (ShowErrorMessage "Not connected to server")
  else
    jobConfig <- read (fun st => getJobConfiguration (world st)) ;;
    match jobConfig with
    | None => ret tt
    | Some jobConfig =>
        try_catch
          (let scriptContent := generateScriptContent jobConfig in
           scriptPath <- saveScript scriptContent (name jobConfig) ;;
           uploadScript scriptPath (Job.scriptPath jobConfig) ;;;
           result <- executeCommand
                       (sbatch_command (Job.scriptPath jobConfig)) ;;
           match code result with
           | Some 0%Z =>
               let jobId := extractJobId (stdout result) in
               emit (ShowInformationMessage
                       ("Job submitted successfully. Job ID: " ++ jobId)) ;;;
               refreshJobs
           | _ =>
               emit (ShowErrorMessage
                       ("Job submission failed: " ++ stderr result))
           end)
          (fun error =>
             emit (ShowErrorMessage ("Failed to submit job: " ++ error)))
    end.

End Manager.

(** *** The refresh timer

    The timers of the runtime: the handles handed out so far and the
    ones that are running. The manager keeps the handle of its own timer
    in [refreshInterval]. *)
Record Timers : Type := mkTimers {
  handed_out : nat;
  running : list nat
}.

Record Refresher : Type := mkRefresher {
  refreshInterval : option nat;
  timers : Timers
}.

Definition setInterval (t : Timers) : nat * Timers :=
  (handed_out t, mkTimers (S (handed_out t)) (running t ++ [handed_out t])).

Definition clearInterval (h : nat) (t : Timers) : Timers :=
  mkTimers (handed_out t) (filter (fun x => negb (Nat.eqb x h)) (running t)).

Definition startAutoRefresh (r : Refresher) : Refresher :=
  match refreshInterval r with
  | Some _ => r
  | None =>
      let (h, t) := setInterval (timers r) in mkRefresher (Some h) t
  end.

Definition stopAutoRefresh (r : Refresher) : Refresher :=
  match refreshInterval r with
  | Some h => mkRefresher None (clearInterval h (timers r))
  | None => r
  end.

Inductive Call : Type := Start | Stop.

Definition call (r : Refresher) (c : Call) : Refresher :=
  match c with
  | Start => startAutoRefresh r
  | Stop => stopAutoRefresh r
  end.

(** A manager that owns no timer yet. *)
Definition fresh (t : Timers) : Refresher := mkRefresher None t.

End JobManager.

(** ** sshManager.ts *)

Module SshManager.

Import Prog.
Local Open Scope prog_scope.

Inductive ConnectionStatus : Type :=
| NotConnected | Connecting | Connected | Failed.

Definition is_connected (s : ConnectionStatus) : bool :=
  match s with
  | Connected => true
  | _ => false
  end.

(** The settings, the local file system, the password prompt and the
    SSH client. *)
Class Host (W : Type) : Type := {
  cfg_host : W -> option string;
  cfg_port : W -> option Z;
  cfg_username : W -> option string;
  cfg_privateKeyPath : W -> option string;
  fs_existsSync : string -> W -> bool;
  fs_readFileSync : string -> W -> Err + string;
  showInputBox : string -> W -> option string;
  ssh_connect : FileSync.ConnectionConfig -> W -> option Err * W;
  ssh_isConnected : W -> bool;
  ssh_dispose : W -> W;
  ssh_execCommand : string -> W -> (Err + Job.CommandResult) * W
}.

Record State (W : Type) : Type := mkState {
  world : W;
  status : ConnectionStatus;
  cachedPassword : option string
}.
Arguments mkState {W} _ _ _.
Arguments world {W} _.
Arguments status {W} _.
Arguments cachedPassword {W} _.

Inductive Event : Type :=
| StatusChanged (s : ConnectionStatus)
| ShowInformationMessage (msg : string)
| ShowErrorMessage (msg : string)
| SshConnect (config : FileSync.ConnectionConfig) (outcome : option Err)
| SshDispose
| ExecCommand (command : string) (answer : Err + Job.CommandResult).

(** The status the listeners were told last; [s] if they were told
    nothing. *)
Definition last_status (t : list Event) (s : ConnectionStatus)
  : ConnectionStatus :=
  fold_left (fun acc ev =>
               match ev with
               | StatusChanged s' => s'
               | _ => acc
               end) t s.

Definition is_message (ev : Event) : bool :=
  match ev with
  | ShowInformationMessage _ | ShowErrorMessage _ => true
  | _ => false
  end.

Section Manager.
Context {W : Type} {H : Host W}.

Local Notation "'M'" := (@Prog.M (State W) Event).

Definition setStatus (s : ConnectionStatus) : M unit :=
  fun st =>
    (inr tt, mkState (world st) s (cachedPassword st), [StatusChanged s]).

Definition setCachedPassword (p : option string) : M unit :=
  fun st => (inr tt, mkState (world st) (status st) p, []).

(** [await this.ssh.connect(connectionConfig)] and what follows it. *)
Definition establish (connectionConfig : FileSync.ConnectionConfig)
  : M bool :=
  (fun st =>
     match ssh_connect connectionConfig (world st) with
     | (Some e, w) =>
         (inl e, mkState w (status st) (cachedPassword st),
          [SshConnect connectionConfig (Some e)])
     | (None, w) =>
         (inr tt, mkState w (status st) (cachedPassword st),
          [SshConnect connectionConfig None])
     end) ;;;
  setStatus Connected ;;;
  emit (ShowInformationMessage "Connected to Seraph server") ;;;
  ret true.

Definition password_prompt : string :=
  "Enter SSH password (will be cached for this session)".

Definition connect : M bool :=
  host <- read (fun st => cfg_host (world st)) ;;
  port <- read (fun st =>
            match cfg_port (world st) with Some p => p | None => 22%Z end) ;;
  username <- read (fun st => cfg_username (world st)) ;;
  privateKeyPath <- read (fun st => cfg_privateKeyPath (world st)) ;;
  match host, username with
  | Some (String _ _ as host), Some (String _ _ as username) =>
      setStatus Connecting ;;;
      try_catch
        (useKey <- read (fun st =>
                     match privateKeyPath with
                     | Some (String _ _ as p) => fs_existsSync p (world st)
                     | _ => false
                     end) ;;
         if useKey
         then
           key <- (fun st =>
                     (fs_readFileSync
                        (match privateKeyPath with Some p => p | None => "" end)
                        (world st), st, [])) ;;
           establish (FileSync.mkConnection host port username (Some key) None)
         else
           password <- read cachedPassword ;;
           if Js.truthy password
           then establish
                  (FileSync.mkConnection host port username None password)
           else
             inputPassword <- read (fun st =>
                                showInputBox password_prompt (world st)) ;;
             if negb (Js.truthy inputPassword)
             then setStatus NotConnected ;;; ret false
             else
               setCachedPassword inputPassword ;;;
               establish
                 (FileSync.mkConnection host port username None
                                        inputPassword))
        (fun error =>
           setStatus Failed ;;;
           emit (ShowErrorMessage ("Connection failed: " ++ error)) ;;;
           ret false)
  | _, _ =>
      emit (ShowErrorMessage "Please configure host and username first") ;;;
      ret false
  end.

Definition dispose : M unit :=
  fun st =>
    (inr tt, mkState (ssh_dispose (world st)) (status st) (cachedPassword st),
     [SshDispose]).

Definition disconnect : M unit :=
  connected <- read (fun st => ssh_isConnected (world st)) ;;
  (if connected then dispose else ret tt) ;;;
  setCachedPassword None ;;;
  setStatus NotConnected.

Definition toggleConnection : M unit :=
  current <- read status ;;
  match current with
  | Connected => disconnect
  | NotConnected | Failed => connect ;;; ret tt
  | Connecting => ret tt
  end.

Definition test_command : string :=
  ("echo " ++ Js.dq ++ "Connection test successful" ++ Js.dq)%string.

Definition execCommand (command : string) : M Job.CommandResult :=
  fun st =>
    match ssh_execCommand command (world st) with
    | (inl e, w) =>
        (inl e, mkState w (status st) (cachedPassword st),
         [ExecCommand command (inl e)])
    | (inr r, w) =>
        (inr r, mkState w (status st) (cachedPassword st),
         [ExecCommand command (inr r)])
    end.

Definition run_test : M bool :=
  try_catch
    (result <- execCommand test_command ;;
     match Job.code result with
     | Some 0%Z =>
         emit (ShowInformationMessage "Connection test successful") ;;;
         ret true
     | _ =>
         emit (ShowErrorMessage "Connection test failed") ;;;
         ret false
     end)
    (fun error =>
       emit (ShowErrorMessage ("Connection test failed: " ++ error)) ;;;
       ret false).

Definition testConnection : M bool :=
  current <- read status ;;
  let wasConnected := is_connected current in
  if negb wasConnected
  then
    connected <- connect ;;
    if negb connected then ret false else run_test
  else run_test.

Definition executeCommand (command : string) : M Job.CommandResult :=
  connected <- read (fun st => ssh_isConnected (world st)) ;;
  if negb connected then throw "Error: Not connected to server"
  else execCommand command.

Definition isConnected (st : State W) : bool := ssh_isConnected (world st).

(** The stored status is the one the listeners were told last. *)
Definition tracks {A : Type} (m : M A) : Prop :=
  forall st,
    status (snd (fst (m st))) = last_status (snd (m st)) (status st).

Definition never_throws {A : Type} (m : M A) : Prop :=
  forall st, exists a, fst (fst (m st)) = inr a.

End Manager.

End SshManager.

(** ** gpuManager.ts: the manager around the parser *)

Module GpuManager.

Import Prog.
Local Open Scope prog_scope.

Section Manager.
Context {D : Js.Doubles} {W : Type} {H : Job.Host W}.

Record State : Type := mkState {
  world : W;
  lastStatus : option Gpu.GPUStatus
}.

Inductive Event : Type :=
| ExecCommand (command : string) (answer : Err + Job.CommandResult)
| GPUStatusChanged (status : Gpu.GPUStatus)
| ShowInformationMessage (msg : string)
| ShowErrorMessage (msg : string).

Definition is_shown (ev : Event) : bool :=
  match ev with
  | ShowInformationMessage _ | ShowErrorMessage _ => true
  | _ => false
  end.

Definition is_fired (ev : Event) : bool :=
  match ev with
  | GPUStatusChanged _ => true
  | _ => false
  end.

Local Notation "'M'" := (@Prog.M State Event).

(** [SSHManager.executeCommand]. *)
Definition executeCommand (command : string) : M Job.CommandResult :=
  fun st =>
    if negb (Job.ssh_isConnected (world st))
    then (inl "Error: Not connected to server", st, [])
    else
      match Job.ssh_execCommand command (world st) with
      | (inl e, w) =>
          (inl e, mkState w (lastStatus st), [ExecCommand command (inl e)])
      | (inr r, w) =>
          (inr r, mkState w (lastStatus st), [ExecCommand command (inr r)])
      end.

Definition setLastStatus (status : Gpu.GPUStatus) : M unit :=
  fun st => (inr tt, mkState (world st) (Some status), []).

Definition getGPUStatus : M Gpu.GPUStatus :=
  connected <- read (fun st => Job.ssh_isConnected (world st)) ;;
  if negb connected then throw "Error: Not connected to server"
  else
    try_catch
      (result <- executeCommand "slurm-gres-viz -i" ;;
       match Job.code result with
       | Some 0%Z =>
           now <- read (fun st => Job.Date_now (world st)) ;;
           let status := Gpu.parseGPUStatus now (Job.stdout result) in
           setLastStatus status ;;;
           emit (GPUStatusChanged status) ;;;
           ret status
       | _ =>
           throw ("Error: slurm-gres-viz command failed: " ++
                  Job.stderr result)%string
       end)
      (fun error =>
         throw ("Error: Failed to get GPU status: " ++ error)%string).

Definition getLastStatus (st : State) : option Gpu.GPUStatus :=
  lastStatus st.

Definition refreshStatus : M unit :=
  try_catch
    (getGPUStatus ;;; ret tt)
    (fun error =>
       emit (ShowErrorMessage ("Failed to refresh GPU status: " ++ error))).

Definition srun_command (nodeName : string) : string :=
  ("srun --gres=gpu:1 --cpus-per-gpu=1 --mem-per-gpu=32G -p debug_ugrad -w "
   ++ nodeName ++ " --pty $SHELL")%string.

Definition connectToGPUNode (nodeName : string) : M unit :=
  connected <- read (fun st => Job.ssh_isConnected (world st)) ;;
  if negb connected
  then emit (ShowErrorMessage "Please connect to server first")
  else
    try_catch
      (emit (ShowInformationMessage
               ("Connecting to " ++ nodeName ++ "...")) ;;;
       result <- executeCommand (srun_command nodeName) ;;
       match Job.code result with
       | Some 0%Z =>
           emit (ShowInformationMessage
                   ("Successfully connected to " ++ nodeName))
       | _ =>
           emit (ShowErrorMessage
                   ("Failed to connect to " ++ nodeName ++ ": " ++
                    Job.stderr result))
       end)
      (fun error =>
         emit (ShowErrorMessage
                 ("Failed to connect to " ++ nodeName ++ ": " ++ error))).

End Manager.

End GpuManager.

(** ** extension.ts: the listener that ties the job refresh to the
    connection *)

Module Extension.

(** The call the listener makes on the refresh timer for a status. *)
Definition call_of (s : SshManager.ConnectionStatus) : JobManager.Call :=
  if SshManager.is_connected s then JobManager.Start else JobManager.Stop.

(** The part of the listener that touches the refresh timer. *)
Definition onStatusChanged (r : JobManager.Refresher)
    (s : SshManager.ConnectionStatus) : JobManager.Refresher :=
  if SshManager.is_connected s
  then JobManager.startAutoRefresh r
  else JobManager.stopAutoRefresh r.

End Extension.

(** ** Sample inputs *)

(** The scenario of the specification: [a.py] only local, [b.py] newer
    locally, [c.py] only remote. *)
Definition scenario_local : JsMap.t FileSync.Stats :=
  [("a.py", FileSync.mkStats 2000); ("b.py", FileSync.mkStats 1500)].

Definition scenario_remote : JsMap.t FileSync.RemoteItem :=
  [("b.py", FileSync.mkItem "b.py" "-" (Some 1000%Z) None);
   ("c.py", FileSync.mkItem "c.py" "-" (Some 1200%Z) None)].


(** A small instance of the outside world for [syncFiles]: the state
    counts the calls that changed it; putting [bad.py] is refused. *)
Module SampleHost.
Import FileSync.

Fixpoint ends_with (suffix s : string) : bool :=
  String.eqb suffix s ||
  match s with
  | EmptyString => false
  | String _ s' => ends_with suffix s'
  end.

(** Enough of a glob matcher for the samples: [**/*X] matches a path
    that ends with [X], any other pattern matches itself. *)
Definition glob_match (filePath pattern : string) : bool :=
  if String.prefix "**/*" pattern
  then ends_with (substring 4 (String.length pattern - 4) pattern) filePath
  else String.eqb filePath pattern.

Definition lib : NodeLib := {|
  path_join := fun a b => (a ++ "/" ++ b)%string;
  path_dirname := fun p => (p ++ "/..")%string;
  path_sep := "/";
  posix_join := fun a b => (a ++ "/" ++ b)%string;
  posix_dirname := fun p => (p ++ "/..")%string;
  minimatch := glob_match;
  round_percent := fun i n => Z.of_nat ((200 * i + n) / (2 * n))
|}.

Definition remote_tree : list RemoteItem :=
  [mkItem "r.py" "-" (Some 5000%Z) None;
   mkItem "sub" "d" (Some 1%Z)
          (Some [mkItem "s.py" "-" (Some 7000%Z) None;
                 mkItem "s.pyc" "-" (Some 7000%Z) None]);
   mkItem ".hidden" "d" (Some 1%Z)
          (Some [mkItem "h.py" "-" (Some 1%Z) None])].

Definition host : Host nat := {|
  glob_sync := fun _ _ _ _ => ["a.py"; "bad.py"; "c.pyc"; "d.py"];
  fs_statSync := fun _ _ => Some (mkStats 1000);
  fs_existsSync := fun _ _ => true;
  fs_readFileSync := fun _ _ => inr "key";
  fs_mkdirSync := fun _ w => (None, S w);
  showInputBox := fun _ => Some "secret";
  sftp_connect := fun _ w => (None, S w);
  sftp_end := fun w => (None, S w);
  sftp_list := fun _ _ => Some remote_tree;
  sftp_mkdir := fun _ w => (None, S w);
  sftp_put := fun _ remotePath w =>
    if String.eqb remotePath "/data/bad.py"
    then (Some "Error: put: Permission denied", S w)
    else (None, S w);
  sftp_get := fun _ _ w => (None, S w)
|}.

Definition session : Session := {|
  isConnected := true;
  workspaceFolder := Some "/home/me/ws";
  cfg_host := Some "seraph";
  cfg_port := None;
  cfg_username := Some "me";
  cfg_privateKeyPath := None;
  cfg_remotePath := Some "/data"
|}.

Definition run (direction : SyncDirection) :=
  @syncFiles lib nat host session direction None 0.

(** The calls of the upload run up to the refused transfer, that
    transfer, and the calls after it. *)
Definition upload_before : list Event :=
  [SftpConnect (mkConnection "seraph" 22 "me" None (Some "secret")) None;
   SftpMkdir "/data" None;
   SyncProgressFired (mkProgress 1 3 "a.py" 33);
   SftpMkdir "/data/a.py/.." None;
   SftpPut "/home/me/ws/a.py" "/data/a.py" None;
   SyncProgressFired (mkProgress 2 3 "bad.py" 67);
   SftpMkdir "/data/bad.py/.." None].

Definition upload_refused : Event :=
  SftpPut "/home/me/ws/bad.py" "/data/bad.py"
          (Some "Error: put: Permission denied").

Definition upload_after : list Event :=
  [ShowErrorMessage "Sync failed: Error: put: Permission denied";
   SftpEnd None].

(** Options under which the upload goes through. *)
Definition careful : SyncOptions :=
  mkOptions LocalToRemote ["bad.py"; "**/*.pyc"] false false.

End SampleHost.

(** Integers, and [None] for [NaN], standing in for the doubles of the
    platform.  Below 2^53 they count, multiply, subtract and print as
    doubles do; [parseFloat] answers with the integral part, and the
    percentage of a count in a positive total is rounded to the nearest
    integer, halves upwards, as [Math.round] does. *)
Module SampleNumbers.

Definition number : Type := option Z.

Definition mul (a b : number) : number :=
  match a, b with
  | Some x, Some y => Some (x * y)%Z
  | _, _ => None
  end.

Definition sub (a b : number) : number :=
  match a, b with
  | Some x, Some y => Some (x - y)%Z
  | _, _ => None
  end.

Definition percent (a b : number) : number :=
  match a, b with
  | Some x, Some y =>
      if (0 <? y)%Z then Some ((200 * x + y) / (2 * y))%Z else None
  | _, _ => None
  end.

Definition number_to_string (n : number) : string :=
  match n with
  | Some z => NilZero.string_of_int (Z.to_int z)
  | None => "NaN"
  end.

(** The value of a digit in a radix of at most 16. *)
Definition digit_value (radix : Z) (c : ascii) : option Z :=
  let n := Z.of_nat (nat_of_ascii c) in
  let v :=
    if (48 <=? n)%Z && (n <=? 57)%Z then Some (n - 48)%Z
    else if (97 <=? n)%Z && (n <=? 102)%Z then Some (n - 87)%Z
    else if (65 <=? n)%Z && (n <=? 70)%Z then Some (n - 55)%Z
    else None in
  match v with
  | Some d => if (d <? radix)%Z then Some d else None
  | None => None
  end.

(** The longest prefix of digits, read from the left with the value so
    far in [acc] ([None]: no digit yet). *)
Fixpoint digits (radix : Z) (acc : option Z) (s : string) : option Z :=
  match s with
  | EmptyString => acc
  | String c s' =>
      match digit_value radix c with
      | Some d =>
          digits radix
            (Some (match acc with Some a => a * radix + d | None => d end)%Z)
            s'
      | None => acc
      end
  end.

(** [parseInt(s)] without a radix: leading white space, a sign, [0x] or
    [0X] for base 16, then the digits; [NaN] when there is none. *)
Definition parseInt (s : string) : number :=
  let s1 := Js.trimStart s in
  let (negative, s2) :=
    match s1 with
    | String "-" r => (true, r)
    | String "+" r => (false, r)
    | _ => (false, s1)
    end in
  let (radix, s3) :=
    match s2 with
    | String "0" (String "x" r) | String "0" (String "X" r) => (16%Z, r)
    | _ => (10%Z, s2)
    end in
  match digits radix None s3 with
  | Some v => Some (if negative then (- v)%Z else v)
  | None => None
  end.

Definition doubles : Js.Doubles.
Proof.
  refine {| Js.double := number;
            Js.of_count := fun n => Some (Z.of_nat n);
            Js.parseInt := parseInt;
            Js.parseFloat := fun s => digits 10 None (Js.trimStart s);
            Js.mul := mul;
            Js.sub := sub;
            Js.round_percent := percent;
            Js.show := number_to_string;
            Js.show_one_line := _ |}.
  assert (U : forall u, Js.one_line (NilEmpty.string_of_uint u) = true)
    by (induction u; simpl; auto).
  assert (V : forall u, Js.one_line (NilZero.string_of_uint u) = true)
    by (destruct u; simpl; auto).
  intros [z|]; [|reflexivity]. unfold number_to_string.
  unfold NilZero.string_of_int.
  destruct (Z.to_int z); simpl; auto.
Defined.

End SampleNumbers.

(** A job request, and a scheduler that refuses to cancel. *)
Module SampleJob.
Import Job.

Definition config : @JobConfig SampleNumbers.doubles :=
  @mkJobConfig SampleNumbers.doubles
    "train" (Some 2%Z) (Some "aurora-g1") (Some 8%Z) "32G" "gpu_ugrad"
    "1-00:00:00" "/data/me/train.sh"
    (Some "/data/me/train.out") (Some "/data/me/train.err").

(** The same request without target node, with a second line in the
    time limit. *)
Definition injected : @JobConfig SampleNumbers.doubles :=
  @mkJobConfig SampleNumbers.doubles
    "train" (Some 2%Z) None (Some 8%Z) "32G" "gpu_ugrad"
    ("1-00:00:00" ++ Js.nl ++ "#SBATCH --nodelist=aurora-g9")
    "/data/me/train.sh"
    (Some "/data/me/train.out") (Some "/data/me/train.err").

Definition refusal : CommandResult :=
  mkResult "" "scancel: error: Invalid job id specified" (Some 1%Z).

Definition host : Host nat := {|
  ssh_isConnected := fun _ => true;
  ssh_execCommand := fun _ w => (inr refusal, S w);
  cfg_username := fun _ => Some "me";
  Date_now := fun _ => 0%Z
|}.

Definition cached : list JobInfo :=
  [mkJobInfo "4242" "train" "RUNNING" "aurora-g1" 0 "gpu_ugrad" "1-00:00:00"].

End SampleJob.

(** A status text nothing matches. *)
Module SampleGpu.

Definition garbled : string :=
  ("slurm-gres-viz: command not found" ++ Js.nl ++ Js.nl ++
   "aurora-g1: [GPU] busy" ++ Js.nl)%string.

(** The answer of a shell that does not know the status command. *)
Definition unavailable : string :=
  ("bash: slurm-gres-viz: command not found" ++ Js.nl)%string.

(** A status text in the earlier format. *)
Definition legacy_text : string :=
  ("aurora-g1:" ++ Js.nl ++ "  GPU: [#][-][-][-]" ++ Js.nl ++
   "  CPU: 45%" ++ Js.nl ++ "  MEM: 67%" ++ Js.nl ++
   "aurora-g2:" ++ Js.nl ++ "  GPU: [-][-]" ++ Js.nl)%string.

End SampleGpu.

(** A workspace and a server that hold one file each under the same name,
    and a clock. A transfer stamps the copy it writes with the time of the
    transfer, as a file system does when nobody sets the time. *)
Module SampleClock.
Import FileSync.

Record World : Type := mkWorld {
  clock : Z;
  local_mtime : Z;
  remote_mtime : Z
}.

Definition host : Host World := {|
  glob_sync := fun _ _ _ _ => ["a.py"];
  fs_statSync := fun _ w => Some (mkStats (local_mtime w));
  fs_existsSync := fun _ _ => true;
  fs_readFileSync := fun _ _ => inr "key";
  fs_mkdirSync := fun _ w => (None, w);
  showInputBox := fun _ => Some "secret";
  sftp_connect := fun _ w => (None, w);
  sftp_end := fun w => (None, w);
  sftp_list := fun _ w =>
    Some [mkItem "a.py" "-" (Some (remote_mtime w)) None];
  sftp_mkdir := fun _ w => (None, w);
  sftp_put := fun _ _ w =>
    (None, mkWorld (clock w + 1) (local_mtime w) (clock w));
  sftp_get := fun _ _ w =>
    (None, mkWorld (clock w + 1) (clock w) (remote_mtime w))
|}.

(** The local copy is the newer one. *)
Definition start : World := mkWorld 5000 2000 1000.

Definition run (w : World) :=
  @syncFiles SampleHost.lib World host SampleHost.session Both None w.

End SampleClock.

(** A server whose directory cannot be listed, and a workspace with a file
    that cannot be read. *)
Module SampleOffline.
Import FileSync.

Definition offline : Host nat := {|
  glob_sync := fun _ _ _ _ => ["a.py"; "r.py"];
  fs_statSync := fun _ _ => Some (mkStats 1000);
  fs_existsSync := fun _ _ => false;
  fs_readFileSync := fun _ _ => inl "Error: ENOENT";
  fs_mkdirSync := fun _ w => (None, S w);
  showInputBox := fun _ => Some "secret";
  sftp_connect := fun _ w => (None, S w);
  sftp_end := fun w => (None, S w);
  sftp_list := fun _ _ => None;
  sftp_mkdir := fun _ w => (Some "Error: mkdir: Failure", S w);
  sftp_put := fun _ _ w => (None, S w);
  sftp_get := fun _ _ w => (None, S w)
|}.

Definition locked : Host nat := {|
  glob_sync := fun _ _ _ _ => ["a.py"; "r.py"];
  fs_statSync := fun p _ =>
    if SampleHost.ends_with "r.py" p then None else Some (mkStats 1000);
  fs_existsSync := fun _ _ => false;
  fs_readFileSync := fun _ _ => inl "Error: ENOENT";
  fs_mkdirSync := fun _ w => (None, S w);
  showInputBox := fun _ => Some "secret";
  sftp_connect := fun _ w => (None, S w);
  sftp_end := fun w => (None, S w);
  sftp_list := fun _ _ => Some SampleHost.remote_tree;
  sftp_mkdir := fun _ w => (None, S w);
  sftp_put := fun _ _ w => (None, S w);
  sftp_get := fun _ _ w => (None, S w)
|}.

(** Patterns that leave nothing of the sample workspace. *)
Definition nothing : PartialOptions :=
  mkPartial (Some ["**/*.py"; "**/*.pyc"]) None None.

Definition plain : SyncOptions :=
  mkOptions Both [] false false.

End SampleOffline.

(** Dialogs that are answered with the first item of a pick and with a
    fixed text for every prompt, and a scheduler that accepts. *)
Module SampleEditor.
Import Job JobManager.

Definition editor : Editor nat := {|
  showInputBox := fun prompt _ =>
    if String.eqb prompt "Enter job name" then Some "train"
    else if String.eqb prompt "Enter time limit (format: D-HH:MM:SS)"
         then Some "1-00:00:00"
         else Some "/data/me/train.py";
  showQuickPick := fun items _ _ => hd_error items;
  cfg_selectedGPU := fun _ => Some "aurora-g1";
  cfg_remotePath := fun _ => Some "/data/me";
  workspaceFolder := fun _ => Some "/home/me/ws";
  path_join := fun a b => (a ++ "/" ++ b)%string;
  path_dirname := fun _ => "/data/me";
  path_basename := fun _ => "train.sh";
  fs_writeFileSync := fun _ _ w => (None, S w);
  openTextDocument := fun _ w => (None, S w);
  fs_readFileSync := fun _ _ => inr "#!/bin/bash"
|}.

Definition config : @JobConfig SampleNumbers.doubles :=
  @mkJobConfig SampleNumbers.doubles
    "train" (Some 1%Z) (Some "aurora-g1") (Some 4%Z) "16G" "debug_ugrad"
    "1-00:00:00" "/data/me/train.sh"
    (Some "/data/me/train.out") (Some "/data/me/train.err").

Definition accepted : CommandResult :=
  mkResult ("Submitted batch job 4242" ++ Js.nl) "" (Some 0%Z).

Definition host : Host nat := {|
  ssh_isConnected := fun _ => true;
  ssh_execCommand := fun _ w => (inr accepted, S w);
  cfg_username := fun _ => Some "me";
  Date_now := fun _ => 0%Z
|}.

Definition timers : Timers := mkTimers 3 [0; 2].

End SampleEditor.

(** A server that refuses the password. *)
Module SampleSsh.
Import SshManager.

Definition host : Host nat := {|
  cfg_host := fun _ => Some "seraph";
  cfg_port := fun _ => None;
  cfg_username := fun _ => Some "me";
  cfg_privateKeyPath := fun _ => Some "/home/me/.ssh/id_rsa";
  fs_existsSync := fun _ _ => false;
  fs_readFileSync := fun _ _ => inl "Error: ENOENT";
  showInputBox := fun _ _ => Some "secret";
  ssh_connect := fun _ w =>
    (Some "Error: All configured authentication methods failed", S w);
  ssh_isConnected := fun _ => false;
  ssh_dispose := fun w => w;
  ssh_execCommand := fun _ w => (inl "Error: Not connected", w)
|}.

Definition start : State nat := mkState 0 NotConnected None.

End SampleSsh.
(* ================================================================== *)
(** * Part II: properties                                              *)
(* ================================================================== *)

(** ** Containers *)

Lemma JsMap_get_In_keys {V : Type} (m : JsMap.t V) (k : string) (v : V) :
  JsMap.get m k = Some v -> In k (JsMap.keys m).
Proof.
  induction m as [|[k' v'] m IH]; simpl; [discriminate|].
  destruct (String.eqb_spec k' k); auto.
Qed.

Lemma JsMap_get_None_keys {V : Type} (m : JsMap.t V) (k : string) :
  JsMap.get m k = None <-> ~ In k (JsMap.keys m).
Proof.
  induction m as [|[k' v'] m IH]; simpl; [tauto|].
  destruct (String.eqb_spec k' k); split; intros H.
  - discriminate.
  - exfalso; apply H; auto.
  - intros [E|I]; [congruence | now apply IH in H].
  - apply IH. tauto.
Qed.

Lemma JsMap_In_keys_get {V : Type} (m : JsMap.t V) (k : string) :
  In k (JsMap.keys m) -> exists v, JsMap.get m k = Some v.
Proof.
  intros H. destruct (JsMap.get m k) eqn:E; eauto.
  apply JsMap_get_None_keys in E. contradiction.
Qed.

Lemma JsSet_mem_In (k : string) (s : list string) :
  JsSet.mem k s = true <-> In k s.
Proof.
  unfold JsSet.mem. rewrite existsb_exists. split.
  - intros (x & I & E). apply String.eqb_eq in E. now subst.
  - intros I. exists k. split; [assumption | apply String.eqb_refl].
Qed.

Lemma JsSet_fold_add_spec (l acc : list string) :
  NoDup acc ->
  NoDup (fold_left JsSet.add l acc) /\
  (forall k, In k (fold_left JsSet.add l acc) <-> In k acc \/ In k l).
Proof.
  revert acc. induction l as [|x l IH]; intros acc ND; simpl.
  - split; [assumption | tauto].
  - assert (ND' : NoDup (JsSet.add acc x)).
    { unfold JsSet.add. destruct (JsSet.mem x acc) eqn:M; [assumption|].
      apply NoDup_app; [assumption | repeat constructor; auto |].
      intros a Ia [E|[]]. subst a. apply JsSet_mem_In in Ia. congruence. }
    destruct (IH _ ND') as [N I]. split; [assumption|].
    intros k. rewrite I. unfold JsSet.add.
    destruct (JsSet.mem x acc) eqn:M.
    + apply JsSet_mem_In in M. split; [tauto|]. intros [?|[->|?]]; auto.
    + rewrite in_app_iff. simpl. tauto.
Qed.

Lemma JsSet_of_list_NoDup (l : list string) : NoDup (JsSet.of_list l).
Proof. apply (JsSet_fold_add_spec l []). constructor. Qed.

Lemma JsSet_of_list_In (l : list string) (k : string) :
  In k (JsSet.of_list l) <-> In k l.
Proof.
  unfold JsSet.of_list.
  destruct (JsSet_fold_add_spec l [] (NoDup_nil _)) as [_ H].
  rewrite H. simpl. tauto.
Qed.

(** ** The three-way comparison *)

Lemma fold_left_push_flat_map {A B : Type} (f : A -> list B) (l : list A)
    (acc : list B) :
  fold_left (fun actions x => actions ++ f x) l acc = acc ++ flat_map f l.
Proof.
  revert acc. induction l as [|x l IH]; intros acc; simpl.
  - now rewrite app_nil_r.
  - rewrite IH. now rewrite app_assoc.
Qed.

Lemma calculateSyncActions_flat_map localFiles remoteFiles :
  FileSync.calculateSyncActions localFiles remoteFiles =
  flat_map (FileSync.decide localFiles remoteFiles)
    (JsSet.of_list (JsMap.keys localFiles ++ JsMap.keys remoteFiles)).
Proof.
  unfold FileSync.calculateSyncActions. now rewrite fold_left_push_flat_map.
Qed.

Lemma decide_file localFiles remoteFiles f a :
  In a (FileSync.decide localFiles remoteFiles f) -> FileSync.file a = f.
Proof.
  unfold FileSync.decide.
  destruct (JsMap.get localFiles f) as [ls|], (JsMap.get remoteFiles f) as [rs|];
    simpl; try tauto; try (intros [<-|[]]; reflexivity).
  destruct (Z.ltb _ _); [intros [<-|[]]; reflexivity|].
  destruct (Z.ltb _ _); [intros [<-|[]]; reflexivity|]. intros [].
Qed.

Lemma actions_for_decide_same localFiles remoteFiles f :
  FileSync.actions_for f (FileSync.decide localFiles remoteFiles f) =
  FileSync.decide localFiles remoteFiles f.
Proof.
  unfold FileSync.actions_for.
  apply forallb_filter_id. apply forallb_forall. intros a Ia.
  apply decide_file in Ia. rewrite Ia. apply String.eqb_refl.
Qed.

Lemma filter_none {A : Type} (p : A -> bool) (l : list A) :
  (forall a, In a l -> p a = false) -> filter p l = [].
Proof.
  induction l as [|a l IH]; intros H; simpl; [reflexivity|].
  rewrite (H a (or_introl eq_refl)). apply IH. intros b Ib. apply H. now right.
Qed.

Lemma actions_for_decide_other localFiles remoteFiles f g :
  g <> f ->
  FileSync.actions_for f (FileSync.decide localFiles remoteFiles g) = [].
Proof.
  intros N. apply filter_none. intros a Ia.
  apply decide_file in Ia. rewrite Ia. now apply String.eqb_neq.
Qed.

Lemma actions_for_flat_map localFiles remoteFiles f (l : list string) :
  NoDup l ->
  FileSync.actions_for f (flat_map (FileSync.decide localFiles remoteFiles) l) =
  if in_dec string_dec f l
  then FileSync.decide localFiles remoteFiles f else [].
Proof.
  unfold FileSync.actions_for at 1.
  induction l as [|g l IH]; intros ND; [reflexivity|].
  inversion ND as [|? ? NI ND']; subst. simpl flat_map.
  rewrite filter_app. fold (FileSync.actions_for f (FileSync.decide localFiles remoteFiles g)).
  rewrite (IH ND'). destruct (string_dec g f) as [->|NE].
  - rewrite actions_for_decide_same.
    destruct (in_dec string_dec f (f :: l)) as [_|C]; [|exfalso; apply C; now left].
    destruct (in_dec string_dec f l); [contradiction|]. apply app_nil_r.
  - rewrite (actions_for_decide_other _ _ _ _ NE). cbn [app].
    destruct (in_dec string_dec f l) as [J|J],
             (in_dec string_dec f (g :: l)) as [I|I]; try reflexivity.
    + exfalso. apply I. now right.
    + destruct I; contradiction.
Qed.

(** Every path of either map gets exactly what the loop body decides for
    it; every other path gets nothing. *)
Lemma actions_for_calculate localFiles remoteFiles f :
  FileSync.actions_for f (FileSync.calculateSyncActions localFiles remoteFiles) =
  FileSync.decide localFiles remoteFiles f.
Proof.
  rewrite calculateSyncActions_flat_map.
  rewrite actions_for_flat_map by apply JsSet_of_list_NoDup.
  destruct (in_dec _ _ _) as [I|NI]; [reflexivity|].
  rewrite JsSet_of_list_In, in_app_iff in NI.
  unfold FileSync.decide.
  destruct (JsMap.get localFiles f) eqn:L.
  { apply JsMap_get_In_keys in L. tauto. }
  destruct (JsMap.get remoteFiles f) eqn:R.
  { apply JsMap_get_In_keys in R. tauto. }
  reflexivity.
Qed.

Lemma In_actions_for f a (l : list FileSync.SyncAction) :
  FileSync.file a = f -> (In a l <-> In a (FileSync.actions_for f l)).
Proof.
  intros E. unfold FileSync.actions_for. rewrite filter_In, E, String.eqb_refl.
  tauto.
Qed.

Lemma flat_map_all_nil {A B : Type} (f : A -> list B) (l : list A) :
  (forall x, In x l -> f x = []) -> flat_map f l = [].
Proof.
  induction l as [|x l IH]; intros H; simpl; [reflexivity|].
  rewrite (H x (or_introl eq_refl)). apply IH. intros y Iy. apply H. now right.
Qed.

Lemma remoteTime_modifyTime (remoteStats : FileSync.RemoteItem) :
  FileSync.remoteTime remoteStats =
  match FileSync.item_modifyTime remoteStats with
  | Some t => t
  | None => 0%Z
  end.
Proof.
  unfold FileSync.remoteTime.
  destruct (FileSync.item_modifyTime remoteStats) as [t|]; [|reflexivity].
  destruct (Z.eqb_spec t 0); congruence.
Qed.

(** C1. Bidirectional sync, path present in both maps: the action is an
    upload exactly when the local modification time is strictly later than
    the modification time of the remote record (0 when the record has
    none), a download exactly when the remote one is strictly later, and
    there is no action for the path when the two are equal (at most one
    action in every case); two maps that agree on every path and time stamp
    therefore yield no transfer at all. *)
Theorem calculateSyncActions_newer_side_wins
    (localFiles : JsMap.t FileSync.Stats)
    (remoteFiles : JsMap.t FileSync.RemoteItem) :
  (forall f localStats remoteStats,
      JsMap.get localFiles f = Some localStats ->
      JsMap.get remoteFiles f = Some remoteStats ->
      let actions := FileSync.calculateSyncActions localFiles remoteFiles in
      let localTime := FileSync.mtime localStats in
      let remoteTime :=
        match FileSync.item_modifyTime remoteStats with
        | Some t => t
        | None => 0%Z
        end in
      (In (FileSync.mkAction FileSync.upload f) actions
         <-> (remoteTime < localTime)%Z) /\
      (In (FileSync.mkAction FileSync.download f) actions
         <-> (localTime < remoteTime)%Z) /\
      (localTime = remoteTime -> FileSync.actions_for f actions = []) /\
      length (FileSync.actions_for f actions) <= 1)
  /\
  ((forall f, In f (JsMap.keys localFiles ++ JsMap.keys remoteFiles) ->
      exists localStats remoteStats,
        JsMap.get localFiles f = Some localStats /\
        JsMap.get remoteFiles f = Some remoteStats /\
        FileSync.mtime localStats =
        match FileSync.item_modifyTime remoteStats with
        | Some t => t
        | None => 0%Z
        end) ->
   FileSync.calculateSyncActions localFiles remoteFiles = []).
Proof.
  split.
  - intros f ls rs L R actions localTime remoteTime.
    assert (D : FileSync.actions_for f actions =
                if Z.ltb remoteTime localTime
                then [FileSync.mkAction FileSync.upload f]
                else if Z.ltb localTime remoteTime
                     then [FileSync.mkAction FileSync.download f] else []).
    { unfold actions. rewrite actions_for_calculate.
      unfold FileSync.decide. rewrite L, R. cbv zeta.
      now rewrite remoteTime_modifyTime. }
    rewrite (In_actions_for f (FileSync.mkAction FileSync.upload f) actions eq_refl).
    rewrite (In_actions_for f (FileSync.mkAction FileSync.download f) actions eq_refl).
    rewrite D.
    destruct (Z.ltb_spec remoteTime localTime) as [H1|H1];
      [|destruct (Z.ltb_spec localTime remoteTime) as [H2|H2]]; simpl.
    + repeat split; try lia; auto; try (intros [E|[]]; discriminate).
    + repeat split; try lia; auto; try (intros [E|[]]; discriminate).
    + repeat split; try lia; auto; try (intros []).
  - intros H. rewrite calculateSyncActions_flat_map.
    apply flat_map_all_nil. intros f If.
    apply (proj1 (JsSet_of_list_In _ _)) in If.
    destruct (H f If) as (ls & rs & L & R & E).
    unfold FileSync.decide. rewrite L, R. cbv zeta.
    rewrite remoteTime_modifyTime, <- E.
    now rewrite Z.ltb_irrefl.
Qed.

(** C2. Bidirectional sync on maps with disjoint paths: exactly one upload
    for every local path, exactly one download for every remote path, and
    nothing for a path of neither map. *)
Theorem calculateSyncActions_disjoint
    (localFiles : JsMap.t FileSync.Stats)
    (remoteFiles : JsMap.t FileSync.RemoteItem) :
  (forall f, In f (JsMap.keys localFiles) -> ~ In f (JsMap.keys remoteFiles)) ->
  forall f,
    let actions := FileSync.calculateSyncActions localFiles remoteFiles in
    (In f (JsMap.keys localFiles) ->
       FileSync.actions_for f actions = [FileSync.mkAction FileSync.upload f]) /\
    (In f (JsMap.keys remoteFiles) ->
       FileSync.actions_for f actions = [FileSync.mkAction FileSync.download f]) /\
    (~ In f (JsMap.keys localFiles) -> ~ In f (JsMap.keys remoteFiles) ->
       FileSync.actions_for f actions = []).
Proof.
  intros Disj f actions. unfold actions. rewrite actions_for_calculate.
  unfold FileSync.decide. repeat split.
  - intros I. destruct (JsMap_In_keys_get _ _ I) as [v ->].
    apply Disj in I. apply JsMap_get_None_keys in I. now rewrite I.
  - intros I. destruct (JsMap_In_keys_get _ _ I) as [v E]. rewrite E.
    destruct (JsMap.get localFiles f) eqn:L; [|reflexivity].
    apply JsMap_get_In_keys in L. now apply Disj in L.
  - intros NL NR. apply JsMap_get_None_keys in NL, NR. now rewrite NL, NR.
Qed.

(** C10. Bidirectional sync, path present in both maps, remote record
    without modification time (or with modification time 0): the comparison
    uses 0 for the remote side, so a positive local modification time
    yields an upload of the path. *)
Theorem calculateSyncActions_missing_remote_time
    (localFiles : JsMap.t FileSync.Stats)
    (remoteFiles : JsMap.t FileSync.RemoteItem)
    (f : string) (localStats : FileSync.Stats)
    (remoteStats : FileSync.RemoteItem) :
  JsMap.get localFiles f = Some localStats ->
  JsMap.get remoteFiles f = Some remoteStats ->
  FileSync.item_modifyTime remoteStats = None \/
  FileSync.item_modifyTime remoteStats = Some 0%Z ->
  FileSync.remoteTime remoteStats = 0%Z /\
  ((0 < FileSync.mtime localStats)%Z ->
   FileSync.actions_for f (FileSync.calculateSyncActions localFiles remoteFiles)
   = [FileSync.mkAction FileSync.upload f]).
Proof.
  intros L R M.
  assert (Z0 : FileSync.remoteTime remoteStats = 0%Z).
  { unfold FileSync.remoteTime. destruct M as [-> | ->]; reflexivity. }
  split; [assumption|]. intros P.
  rewrite actions_for_calculate. unfold FileSync.decide.
  rewrite L, R. cbv zeta. rewrite Z0.
  destruct (Z.ltb_spec 0 (FileSync.mtime localStats)); [reflexivity | lia].
Qed.

Example calculateSyncActions_scenario :
  FileSync.calculateSyncActions scenario_local scenario_remote =
  [FileSync.mkAction FileSync.upload "a.py";
   FileSync.mkAction FileSync.upload "b.py";
   FileSync.mkAction FileSync.download "c.py"].
Proof. reflexivity. Qed.

Lemma calculateSyncActions_newer_side_wins_witness :
  (In (FileSync.mkAction FileSync.upload "b.py")
      (FileSync.calculateSyncActions scenario_local scenario_remote)
   <-> (1000 < 1500)%Z) /\
  FileSync.calculateSyncActions
    [("b.py", FileSync.mkStats 1000)]
    [("b.py", FileSync.mkItem "b.py" "-" (Some 1000%Z) None)] = [].
Proof.
  split.
  - exact (proj1 (proj1 (calculateSyncActions_newer_side_wins
                           scenario_local scenario_remote)
                    "b.py" (FileSync.mkStats 1500)
                    (FileSync.mkItem "b.py" "-" (Some 1000%Z) None)
                    eq_refl eq_refl)).
  - apply (proj2 (calculateSyncActions_newer_side_wins
                    [("b.py", FileSync.mkStats 1000)]
                    [("b.py", FileSync.mkItem "b.py" "-" (Some 1000%Z) None)])).
    intros f [<-|[<-|[]]];
      exists (FileSync.mkStats 1000),
             (FileSync.mkItem "b.py" "-" (Some 1000%Z) None);
      repeat split; reflexivity.
Defined.

(** The engine sets no time stamp after a transfer.  On a server that
    stamps a file with the time of its upload, the file that the first run
    uploads is newer on the server afterwards, and a second run right
    after the first fetches it back. *)
Lemma second_run_fetches_the_upload_back :
  fst (fst (SampleClock.run SampleClock.start)) = inr tt /\
  FileSync.transfers (snd (SampleClock.run SampleClock.start)) =
  [FileSync.SftpPut "/home/me/ws/a.py" "/data/a.py" None] /\
  FileSync.transfers
    (snd (SampleClock.run (snd (fst (SampleClock.run SampleClock.start))))) =
  [FileSync.SftpGet "/data/a.py" "/home/me/ws/a.py" None].
Proof. repeat split. Qed.

Lemma calculateSyncActions_disjoint_witness :
  FileSync.actions_for "a.py"
    (FileSync.calculateSyncActions
       [("a.py", FileSync.mkStats 2000)]
       [("c.py", FileSync.mkItem "c.py" "-" (Some 1200%Z) None)])
  = [FileSync.mkAction FileSync.upload "a.py"].
Proof.
  apply (calculateSyncActions_disjoint
           [("a.py", FileSync.mkStats 2000)]
           [("c.py", FileSync.mkItem "c.py" "-" (Some 1200%Z) None)]).
  - simpl. intros f [<-|[]] [E|[]]. discriminate.
  - simpl. now left.
Defined.

Lemma calculateSyncActions_missing_remote_time_witness :
  FileSync.actions_for "b.py"
    (FileSync.calculateSyncActions
       [("b.py", FileSync.mkStats 1500)]
       [("b.py", FileSync.mkItem "b.py" "-" None None)])
  = [FileSync.mkAction FileSync.upload "b.py"].
Proof.
  apply (calculateSyncActions_missing_remote_time
           [("b.py", FileSync.mkStats 1500)]
           [("b.py", FileSync.mkItem "b.py" "-" None None)]
           "b.py" (FileSync.mkStats 1500)
           (FileSync.mkItem "b.py" "-" None None) eq_refl eq_refl).
  - now left.
  - simpl. lia.
Defined.

(** ** The engine: what one run calls *)

Section EngineFacts.
Import FileSync Prog.
Context {L : NodeLib} {W : Type} {H : Host W}.

Local Notation "'M'" := (@Prog.M W Event).

Lemma ensureRemoteDirectory_run (p : string) (w : W) :
  ensureRemoteDirectory p w =
  (inr tt, snd (sftp_mkdir p w), [SftpMkdir p (fst (sftp_mkdir p w))]).
Proof.
  unfold ensureRemoteDirectory, try_catch, call.
  destruct (sftp_mkdir p w) as [[e|] w1]; reflexivity.
Qed.

Lemma put_file_run (localPath remotePath f : string) (w : W) :
  exists prep w1 err,
    forallb is_dir_event prep = true /\
    put_file localPath remotePath f w =
    (match err with Some e => inl e | None => inr tt end, w1,
     prep ++ [transfer_event localPath remotePath (mkAction upload f) err]).
Proof.
  unfold put_file, bind. rewrite ensureRemoteDirectory_run.
  unfold call, transfer_event. simpl.
  match goal with |- context [sftp_put ?a ?b ?c] =>
    destruct (sftp_put a b c) as [[e|] w1] end.
  - eexists [_], w1, (Some e). split; [|reflexivity]. reflexivity.
  - eexists [_], w1, None. split; [|reflexivity]. reflexivity.
Qed.

Lemma get_file_run (localPath remotePath f : string) (w : W) :
  exists prep w1,
    forallb is_dir_event prep = true /\
    ((exists err,
       get_file localPath remotePath f w =
       (match err with Some e => inl e | None => inr tt end, w1,
        prep ++ [transfer_event localPath remotePath (mkAction download f) err]))
     \/
     (exists e, get_file localPath remotePath f w = (inl e, w1, prep))).
Proof.
  unfold get_file, bind, read, call, transfer_event. simpl.
  destruct (fs_existsSync _ w); simpl.
  - match goal with |- context [sftp_get ?a ?b ?c] =>
      destruct (sftp_get a b c) as [[e|] w1] end.
    + exists [], w1. split; [reflexivity|]. left. exists (Some e). reflexivity.
    + exists [], w1. split; [reflexivity|]. left. exists None. reflexivity.
  - match goal with |- context [fs_mkdirSync ?a ?c] =>
      destruct (fs_mkdirSync a c) as [[e|] w1] end.
    + eexists [_], w1. split; [|right; exists e; reflexivity]. reflexivity.
    + match goal with |- context [sftp_get ?a ?b ?c] =>
        destruct (sftp_get a b c) as [[e|] w2] end.
      * eexists [_], w2.
        split; [|left; exists (Some e); reflexivity]. reflexivity.
      * eexists [_], w2.
        split; [|left; exists None; reflexivity]. reflexivity.
Qed.

Lemma for_of_trace {A : Type} (act : A -> SyncAction)
    (body : A -> nat -> M nat) (localPath remotePath : string) (n : nat) :
  (forall x c w,
      IterSpec localPath remotePath n c (act x)
               (unit_of (fst (fst (body x c w)))) (snd (body x c w)) /\
      (forall c', fst (fst (body x c w)) = inr c' -> c' = S c)) ->
  forall l c w,
    TransferTrace localPath remotePath n c (map act l)
      (unit_of (fst (fst (for_of l body c w)))) (snd (for_of l body c w)).
Proof.
  intros HB l. induction l as [|x l IH]; intros c w; simpl.
  - constructor.
  - unfold bind. destruct (HB x c w) as [(prep & Hp & Ht) Hc].
    destruct (body x c w) as [[[e|c'] w1] t1]; simpl in *.
    + destruct Ht as [-> | ->].
      * now apply TT_transfer_fails.
      * now apply TT_mkdir_fails.
    + specialize (IH c' w1). rewrite (Hc c' eq_refl) in *.
      destruct (for_of l body (S c) w1) as [[r w2] t2]; simpl in *.
      subst t1. simpl. rewrite <- app_assoc. simpl.
      now apply TT_step.
Qed.

Lemma bind_ret_tt {A : Type} (m : M A) (w : W) :
  bind m (fun _ => ret tt) w =
  (unit_of (fst (fst (m w))), snd (fst (m w)), snd (m w)).
Proof.
  unfold bind, ret. destruct (m w) as [[[e|a] w1] t]; simpl;
    [reflexivity | now rewrite app_nil_r].
Qed.

Lemma getLocalFiles_run (basePath : string) (options : SyncOptions) (w : W) :
  getLocalFiles basePath options w =
  (inr (filter (fun file =>
                  negb (shouldExcludeFile file (excludePatterns options)))
               (glob_sync (if includeHidden options then "**/*" else "**/!(.*)*")
                          basePath (includeHidden options) w)),
   w, []).
Proof. reflexivity. Qed.

Lemma upload_body_spec (localPath remotePath : string) (n : nat)
    (file : string) (c : nat) (w : W) :
  let body := fun file current =>
    bind (fire current n file)
         (fun _ => bind (put_file localPath remotePath file)
                        (fun _ => ret (current + 1))) in
  IterSpec localPath remotePath n c (mkAction upload file)
           (unit_of (fst (fst (body file c w)))) (snd (body file c w)) /\
  (forall c', fst (fst (body file c w)) = inr c' -> c' = S c).
Proof.
  intros body. unfold body, bind at 1, fire, emit.
  destruct (put_file_run localPath remotePath file w)
    as (prep & w1 & err & Hp & E).
  unfold bind, ret. rewrite E. destruct err as [e|]; simpl.
  - split; [|discriminate]. exists prep. split; [assumption|]. now left.
  - split; [|intros c' [= <-]; lia]. exists prep. split; [assumption|].
    unfold progress_event. simpl. now rewrite app_nil_r.
Qed.

Lemma download_body_spec (localPath remotePath : string) (n : nat)
    (file : string) (c : nat) (w : W) :
  let body := fun file current =>
    bind (fire current n file)
         (fun _ => bind (get_file localPath remotePath file)
                        (fun _ => ret (current + 1))) in
  IterSpec localPath remotePath n c (mkAction download file)
           (unit_of (fst (fst (body file c w)))) (snd (body file c w)) /\
  (forall c', fst (fst (body file c w)) = inr c' -> c' = S c).
Proof.
  intros body. unfold body, bind at 1, fire, emit.
  destruct (get_file_run localPath remotePath file w)
    as (prep & w1 & Hp & [(err & E) | (e & E)]);
    unfold bind, ret; rewrite E.
  - destruct err as [e|]; simpl.
    + split; [|discriminate]. exists prep. split; [assumption|]. now left.
    + split; [|intros c' [= <-]; lia]. exists prep. split; [assumption|].
      unfold progress_event. simpl. now rewrite app_nil_r.
  - simpl. split; [|discriminate]. exists prep. split; [assumption|].
    now right.
Qed.

Lemma getLocalFilesWithStats_run (basePath : string) (options : SyncOptions)
    (w : W) :
  exists localFiles,
    getLocalFilesWithStats basePath options w = (inr localFiles, w, []).
Proof. eexists. reflexivity. Qed.

Lemma bidirectional_body_spec (localPath remotePath : string) (n : nat)
    (action : SyncAction) (c : nat) (w : W) :
  let body := fun action current =>
    bind (fire current n (file action))
         (fun _ =>
            bind match type action with
                 | upload => put_file localPath remotePath (file action)
                 | download => get_file localPath remotePath (file action)
                 end
                 (fun _ => ret (current + 1))) in
  IterSpec localPath remotePath n c action
           (unit_of (fst (fst (body action c w)))) (snd (body action c w)) /\
  (forall c', fst (fst (body action c w)) = inr c' -> c' = S c).
Proof.
  destruct action as [[|] f]; cbn [type file].
  - apply (upload_body_spec localPath remotePath n f c w).
  - apply (download_body_spec localPath remotePath n f c w).
Qed.

Lemma uploadFiles_run (localPath remotePath : string)
    (options : SyncOptions) (w : W) :
  let files := computed (getLocalFiles localPath options) w [] in
  let loop :=
    for_of files
      (fun file current =>
         bind (fire current (length files) file)
              (fun _ => bind (put_file localPath remotePath file)
                             (fun _ => ret (current + 1))))
      0 (snd (sftp_mkdir remotePath w)) in
  uploadFiles localPath remotePath options w =
  (unit_of (fst (fst loop)), snd (fst loop),
   SftpMkdir remotePath (fst (sftp_mkdir remotePath w)) :: snd loop).
Proof.
  cbv zeta. unfold computed. rewrite getLocalFiles_run.
  unfold uploadFiles. unfold bind at 1. rewrite getLocalFiles_run.
  unfold bind at 1. rewrite ensureRemoteDirectory_run.
  rewrite bind_ret_tt. reflexivity.
Qed.

Lemma downloadFiles_run (localPath remotePath : string)
    (options : SyncOptions) (w : W) :
  let files := computed (getRemoteFiles remotePath options) w [] in
  let loop :=
    for_of files
      (fun file current =>
         bind (fire current (length files) file)
              (fun _ => bind (get_file localPath remotePath file)
                             (fun _ => ret (current + 1))))
      0 w in
  downloadFiles remotePath localPath options w =
  (unit_of (fst (fst loop)), snd (fst loop), snd loop).
Proof.
  cbv zeta. unfold computed, getRemoteFiles, read.
  unfold downloadFiles. unfold bind at 1. unfold getRemoteFiles at 1, read.
  rewrite bind_ret_tt. reflexivity.
Qed.

Lemma transfer_list_Both (localPath remotePath : string)
    (options : SyncOptions) (w : W) :
  transfer_list Both localPath remotePath options w =
  calculateSyncActions
    (computed (getLocalFilesWithStats localPath options) w JsMap.empty)
    (computed (getRemoteFilesWithStats remotePath options) w JsMap.empty).
Proof.
  unfold transfer_list, computed.
  destruct (getLocalFilesWithStats_run localPath options w) as [lf E].
  unfold bind at 1. rewrite E. reflexivity.
Qed.

Lemma bidirectionalSync_run (localPath remotePath : string)
    (options : SyncOptions) (w : W) :
  let syncActions := transfer_list Both localPath remotePath options w in
  let loop :=
    for_of syncActions
      (fun action current =>
         bind (fire current (length syncActions) (file action))
              (fun _ =>
                 bind match type action with
                      | upload => put_file localPath remotePath (file action)
                      | download => get_file localPath remotePath (file action)
                      end
                      (fun _ => ret (current + 1))))
      0 w in
  bidirectionalSync localPath remotePath options w =
  (unit_of (fst (fst loop)), snd (fst loop), snd loop).
Proof.
  cbv zeta. rewrite transfer_list_Both. unfold computed.
  destruct (getLocalFilesWithStats_run localPath options w) as [lf E].
  rewrite E. unfold getRemoteFilesWithStats at 1 2 3 4 5, read.
  unfold bidirectionalSync. unfold bind at 1. rewrite E.
  unfold bind at 1. unfold getRemoteFilesWithStats at 1, read.
  rewrite bind_ret_tt. reflexivity.
Qed.

(** Every mode: directory creations, then the loop over the transfer
    list computed in the state in which the mode starts. *)
Lemma run_direction_trace (direction : SyncDirection)
    (localPath remotePath : string) (options : SyncOptions) (w : W) :
  let plan := transfer_list direction localPath remotePath options w in
  exists prefix T,
    forallb is_dir_event prefix = true /\
    snd (run_direction direction localPath remotePath options w)
    = prefix ++ T /\
    TransferTrace localPath remotePath (length plan) 0 plan
      (fst (fst (run_direction direction localPath remotePath options w))) T.
Proof.
  cbv zeta. destruct direction; cbn [run_direction].
  - rewrite uploadFiles_run. cbn [fst snd transfer_list].
    set (files := computed _ _ _).
    eexists [_], _. split; [|split; [reflexivity|]]; [reflexivity|].
    rewrite length_map.
    apply (for_of_trace (mkAction upload)). intros x c w0.
    apply (upload_body_spec localPath remotePath (length files) x c w0).
  - rewrite downloadFiles_run. cbn [fst snd transfer_list].
    set (files := computed _ _ _).
    eexists [], _. split; [|split; [reflexivity|]]; [reflexivity|].
    rewrite length_map.
    apply (for_of_trace (mkAction download)). intros x c w0.
    apply (download_body_spec localPath remotePath (length files) x c w0).
  - rewrite bidirectionalSync_run. cbn [fst snd].
    set (acts := transfer_list _ _ _ _ _).
    eexists [], _. split; [|split; [reflexivity|]]; [reflexivity|].
    rewrite <- (map_id acts) at 2.
    apply (for_of_trace (fun a => a)). intros x c w0.
    apply (bidirectional_body_spec localPath remotePath (length acts) x c w0).
Qed.

End EngineFacts.

(** ** What a trace of a loop tells *)

Section TraceFacts.
Import FileSync Prog.
Context {L : NodeLib}.
Variables (localPath remotePath : string) (n : nat).

Lemma dir_event_not_transfer (ev : Event) :
  is_dir_event ev = true -> is_transfer ev = false.
Proof. destruct ev; simpl; congruence. Qed.

Lemma transfer_error_is_transfer (ev : Event) (e : Err) :
  transfer_error ev = Some e -> is_transfer ev = true.
Proof. destruct ev; simpl; congruence. Qed.

Lemma is_transfer_transfer_event (a : SyncAction) (err : option Err) :
  is_transfer (transfer_event localPath remotePath a err) = true.
Proof. unfold transfer_event. destruct (type a); reflexivity. Qed.

Lemma transfer_error_transfer_event (a : SyncAction) (err : option Err) :
  transfer_error (transfer_event localPath remotePath a err) = err.
Proof. unfold transfer_event. destruct (type a); reflexivity. Qed.

Lemma transfer_event_error_eq (a : SyncAction) (err : option Err) :
  transfer_event localPath remotePath a err =
  transfer_event localPath remotePath a
    (transfer_error (transfer_event localPath remotePath a err)).
Proof. now rewrite transfer_error_transfer_event. Qed.

Lemma transfers_dir_events (prep : list Event) :
  forallb is_dir_event prep = true -> transfers prep = [].
Proof.
  intros Hp. apply filter_none. intros ev I.
  apply dir_event_not_transfer.
  rewrite forallb_forall in Hp. now apply Hp.
Qed.

Lemma dir_events_no_error (prep : list Event) :
  forallb is_dir_event prep = true ->
  forall ev, In ev prep -> transfer_error ev = None.
Proof.
  intros Hp ev I. rewrite forallb_forall in Hp. specialize (Hp ev I).
  destruct ev; simpl in *; congruence.
Qed.

(** Where a transfer can sit in one iteration followed by more calls. *)
Lemma split_at_transfer (prep : list Event) (x : Event)
    (rest t1 : list Event) (ev : Event) (t2 : list Event) :
  forallb is_dir_event prep = true ->
  is_transfer ev = true ->
  prep ++ x :: rest = t1 ++ ev :: t2 ->
  (t1 = prep /\ ev = x /\ t2 = rest) \/
  (exists t1', t1 = prep ++ x :: t1' /\ rest = t1' ++ ev :: t2).
Proof.
  revert t1. induction prep as [|d prep IH]; intros t1 Hp Ht E; simpl in *.
  - destruct t1 as [|y t1]; simpl in E; injection E as -> ->.
    + now left.
    + right. now exists t1.
  - apply andb_prop in Hp. destruct Hp as [Hd Hp].
    destruct t1 as [|y t1]; simpl in E; injection E as <- E.
    + apply dir_event_not_transfer in Hd. congruence.
    + destruct (IH t1 Hp Ht E) as [(-> & -> & ->) | (t1' & -> & ->)].
      * now left.
      * right. now exists t1'.
Qed.

Lemma split_in_dir_events (prep t1 : list Event) (ev : Event)
    (t2 : list Event) :
  forallb is_dir_event prep = true ->
  is_transfer ev = true ->
  prep = t1 ++ ev :: t2 -> False.
Proof.
  intros Hp Ht ->. rewrite forallb_app in Hp.
  apply andb_prop in Hp. destruct Hp as [_ Hp]. simpl in Hp.
  apply andb_prop in Hp. destruct Hp as [Hd _].
  apply dir_event_not_transfer in Hd. congruence.
Qed.

(** A run without exception transfers every action of the list, in
    order, and nothing else. *)
Lemma TransferTrace_success i actions t :
  TransferTrace localPath remotePath n i actions (inr tt) t ->
  transfers t =
  map (fun a => transfer_event localPath remotePath a None) actions.
Proof.
  intros T. remember (inr tt) as r eqn:R.
  induction T as [i | i a actions prep r t Hp T IH | |]; try discriminate.
  - reflexivity.
  - unfold transfers in *. simpl.
    rewrite filter_app. fold (transfers prep).
    rewrite (transfers_dir_events prep Hp). simpl.
    rewrite is_transfer_transfer_event. now rewrite (IH R).
Qed.

(** Every transfer comes right after the progress event of its action
    and the directory creations for it. *)
Lemma TransferTrace_progress_first i actions r t :
  TransferTrace localPath remotePath n i actions r t ->
  forall t1 ev t2,
    t = t1 ++ ev :: t2 -> is_transfer ev = true ->
    exists j a t0 prep,
      nth_error actions j = Some a /\
      t1 = t0 ++ progress_event n (i + j) a :: prep /\
      forallb is_dir_event prep = true /\
      ev = transfer_event localPath remotePath a (transfer_error ev).
Proof.
  intros T. induction T as [i | i a actions prep r t Hp T IH
                           | i a actions prep e Hp | i a actions prep e Hp];
    intros t1 ev t2 E Ht.
  - destruct t1; discriminate.
  - destruct t1 as [|y t1]; simpl in E; injection E as <- E.
    { discriminate. }
    destruct (split_at_transfer _ _ _ _ _ _ Hp Ht E)
      as [(-> & -> & ->) | (t1' & -> & ->)].
    + exists 0, a, [], prep. rewrite Nat.add_0_r.
      repeat split; auto. apply transfer_event_error_eq.
    + destruct (IH t1' ev t2 eq_refl Ht)
        as (j & a' & t0 & prep' & N & -> & Hp' & Ev).
      exists (S j), a',
        (progress_event n i a :: prep ++
         transfer_event localPath remotePath a None :: t0), prep'.
      rewrite Nat.add_succ_r. repeat split; auto.
      simpl. rewrite <- app_assoc. reflexivity.
  - destruct t1 as [|y t1]; simpl in E; injection E as <- E.
    { discriminate. }
    destruct (split_at_transfer _ _ _ _ _ _ Hp Ht E)
      as [(-> & -> & _) | (t1' & _ & E')].
    + exists 0, a, [], prep. rewrite Nat.add_0_r.
      repeat split; auto. apply transfer_event_error_eq.
    + destruct t1'; discriminate.
  - destruct t1 as [|y t1]; simpl in E; injection E as <- E.
    { discriminate. }
    exfalso. exact (split_in_dir_events _ _ _ _ Hp Ht E).
Qed.

(** A transfer that throws ends the loop with its error; it is the last
    call, and every transfer before it went through. *)
Lemma TransferTrace_failure_last i actions r t :
  TransferTrace localPath remotePath n i actions r t ->
  forall t1 ev t2 e,
    t = t1 ++ ev :: t2 -> transfer_error ev = Some e ->
    r = inl e /\ t2 = [] /\
    (forall ev', In ev' t1 -> transfer_error ev' = None).
Proof.
  intros T. induction T as [i | i a actions prep r t Hp T IH
                           | i a actions prep e0 Hp | i a actions prep e0 Hp];
    intros t1 ev t2 e E Er;
    pose proof (transfer_error_is_transfer _ _ Er) as Ht.
  - destruct t1; discriminate.
  - destruct t1 as [|y t1]; simpl in E; injection E as <- E.
    { discriminate. }
    destruct (split_at_transfer _ _ _ _ _ _ Hp Ht E)
      as [(-> & -> & ->) | (t1' & -> & ->)].
    + rewrite transfer_error_transfer_event in Er. discriminate.
    + destruct (IH t1' ev t2 e eq_refl Er) as (-> & -> & Hall).
      repeat split; auto. intros ev' [<-|I]; [reflexivity|].
      apply in_app_or in I. destruct I as [I|[<-|I]].
      * now apply (dir_events_no_error prep Hp).
      * apply transfer_error_transfer_event.
      * now apply Hall.
  - destruct t1 as [|y t1]; simpl in E; injection E as <- E.
    { discriminate. }
    destruct (split_at_transfer _ _ _ _ _ _ Hp Ht E)
      as [(-> & -> & <-) | (t1' & _ & E')].
    + rewrite transfer_error_transfer_event in Er. injection Er as ->.
      repeat split; auto. intros ev' [<-|I]; [reflexivity|].
      now apply (dir_events_no_error prep Hp).
    + destruct t1'; discriminate.
  - destruct t1 as [|y t1]; simpl in E; injection E as <- E.
    { discriminate. }
    exfalso. exact (split_in_dir_events _ _ _ _ Hp Ht E).
Qed.

(** Every progress event belongs to an action of the list and carries the
    length [n] fixed before the loop. *)
Lemma TransferTrace_progress_events i actions r t :
  TransferTrace localPath remotePath n i actions r t ->
  forall p, In (SyncProgressFired p) t ->
    exists j a,
      nth_error actions j = Some a /\
      p = mkProgress (i + j + 1) n (file a) (round_percent (i + j + 1) n).
Proof.
  assert (NP : forall prep p, forallb is_dir_event prep = true ->
                              ~ In (SyncProgressFired p) prep).
  { intros prep p Hp I. rewrite forallb_forall in Hp.
    specialize (Hp _ I). discriminate. }
  assert (NT : forall a err p,
             SyncProgressFired p <> transfer_event localPath remotePath a err).
  { intros a err p. unfold transfer_event. destruct (type a); discriminate. }
  intros T. induction T as [i | i a actions prep r t Hp T IH
                           | i a actions prep e0 Hp | i a actions prep e0 Hp];
    intros p I.
  - destruct I.
  - destruct I as [E|I].
    + exists 0, a. rewrite Nat.add_0_r. split; [reflexivity|].
      unfold progress_event in E. now injection E as <-.
    + apply in_app_or in I. destruct I as [I|[E|I]].
      * now apply NP in I.
      * symmetry in E. now apply NT in E.
      * destruct (IH p I) as (j & a' & N & ->).
        exists (S j), a'. split; [exact N|].
        now replace (i + S j + 1) with (S i + j + 1) by lia.
  - destruct I as [E|I].
    + exists 0, a. rewrite Nat.add_0_r. split; [reflexivity|].
      unfold progress_event in E. now injection E as <-.
    + apply in_app_or in I. destruct I as [I|[E|[]]].
      * now apply NP in I.
      * symmetry in E. now apply NT in E.
  - destruct I as [E|I].
    + exists 0, a. rewrite Nat.add_0_r. split; [reflexivity|].
      unfold progress_event in E. now injection E as <-.
    + now apply NP in I.
Qed.

End TraceFacts.

(** ** Lists cut at an element *)

Lemma split_app_not_left {A : Type} (P : A -> bool) (l1 l2 t1 : list A)
    (ev : A) (t2 : list A) :
  (forall x, In x l1 -> P x = false) -> P ev = true ->
  l1 ++ l2 = t1 ++ ev :: t2 ->
  exists t1', t1 = l1 ++ t1' /\ l2 = t1' ++ ev :: t2.
Proof.
  revert t1. induction l1 as [|x l1 IH]; intros t1 N Pe E; simpl in *.
  - now exists t1.
  - destruct t1 as [|y t1]; simpl in E; injection E as <- E.
    + rewrite (N x (or_introl eq_refl)) in Pe. discriminate.
    + destruct (IH t1 (fun z I => N z (or_intror I)) Pe E) as (t1' & -> & ->).
      now exists t1'.
Qed.

Lemma split_app_not_right {A : Type} (P : A -> bool) (l2 l3 t1 : list A)
    (ev : A) (t2 : list A) :
  (forall x, In x l3 -> P x = false) -> P ev = true ->
  l2 ++ l3 = t1 ++ ev :: t2 ->
  exists t2', t2 = t2' ++ l3 /\ l2 = t1 ++ ev :: t2'.
Proof.
  revert t1. induction l2 as [|x l2 IH]; intros t1 N Pe E; simpl in *.
  - exfalso. rewrite (N ev) in Pe; [discriminate|].
    rewrite E. apply in_elt.
  - destruct t1 as [|y t1]; simpl in E; injection E as <- E.
    + exists l2. now subst t2.
    + destruct (IH t1 N Pe E) as (t2' & -> & ->). now exists t2'.
Qed.

(** ** One call of [syncFiles] *)

Section SyncFilesFacts.
Import FileSync Prog.
Context {L : NodeLib} {W : Type} {H : Host W}.

Lemma connectSFTP_trace (s : Session) (w : W) :
  forallb is_connect (snd (connectSFTP s w)) = true.
Proof.
  unfold connectSFTP.
  destruct (cfg_host s) as [[|h0 h]|]; try reflexivity.
  destruct (cfg_username s) as [[|u0 u]|]; try reflexivity.
  unfold bind at 1, read. cbn [app].
  match goal with |- context [if ?c then _ else _] => destruct c end.
  - unfold bind at 1. unfold bind at 1.
    destruct (fs_readFileSync _ w) as [e|key]; [reflexivity|].
    unfold ret, call. cbn [app].
    match goal with |- context [sftp_connect ?c ?w] =>
      destruct (sftp_connect c w) as [[e|] w1] end; reflexivity.
  - unfold bind at 1. unfold bind at 1.
    destruct (Js.truthy (showInputBox w)); [|reflexivity].
    unfold ret, call. cbn [app].
    match goal with |- context [sftp_connect ?c ?w] =>
      destruct (sftp_connect c w) as [[e|] w1] end; reflexivity.
Qed.

Lemma syncFiles_run_eq (s : Session) (direction : SyncDirection)
    (options : option PartialOptions) (w : W) (localPath : string)
    (r0 : ascii) (r : string) :
  isConnected s = true ->
  workspaceFolder s = Some localPath ->
  cfg_remotePath s = Some (String r0 r) ->
  syncFiles s direction options w =
  let c := connectSFTP s w in
  match fst (fst c) with
  | inl e =>
      let en := sftp_end (snd (fst c)) in
      (inl (match fst en with Some e' => e' | None => e end), snd en,
       snd c ++ [final_message (inl e); SftpEnd (fst en)])
  | inr _ =>
      let mode := run_direction direction localPath (String r0 r)
                    (syncOptions_of direction options) (snd (fst c)) in
      let en := sftp_end (snd (fst mode)) in
      (match fst en with Some e' => inl e' | None => fst (fst mode) end,
       snd en,
       snd c ++ snd mode ++ [final_message (fst (fst mode)); SftpEnd (fst en)])
  end.
Proof.
  intros Ec Ew Er. unfold syncFiles. rewrite Ec, Ew, Er. cbn [negb].
  unfold try_finally, try_catch, disconnectSFTP, call.
  unfold bind at 1. cbv zeta.
  destruct (connectSFTP s w) as [[[e|[]] w1] tc]; cbn [fst snd].
  - unfold bind, emit, throw. cbn [app].
    destruct (sftp_end w1) as [[e'|] w2]; cbn [fst snd];
      now rewrite <- app_assoc.
  - unfold bind at 1.
    destruct (run_direction direction localPath (String r0 r)
                (syncOptions_of direction options) w1)
      as [[[e|[]] w2] tm]; cbn [fst snd].
    + unfold bind, emit, throw. cbn [app].
      destruct (sftp_end w2) as [[e'|] w3]; cbn [fst snd];
        now rewrite <- !app_assoc.
    + unfold emit. cbn [app].
      destruct (sftp_end w2) as [[e'|] w3]; cbn [fst snd];
        now rewrite <- !app_assoc.
Qed.

(** A call either is turned down before the channel is opened, or fails
    to open it, or runs its mode; in the last two cases the message and
    the closing of the channel end the calls. *)
Lemma syncFiles_shape (s : Session) (direction : SyncDirection)
    (options : option PartialOptions) (w : W) :
  let run := syncFiles s direction options w in
  (snd run = [] /\ exists e, fst (fst run) = inl e) \/
  (exists e tc o,
      forallb is_connect tc = true /\
      snd run = tc ++ [final_message (inl e); SftpEnd o] /\
      fst (fst run) = inl (match o with Some e' => e' | None => e end)) \/
  (exists localPath remotePath o,
      workspaceFolder s = Some localPath /\
      cfg_remotePath s = Some remotePath /\
      forallb is_connect (snd (connectSFTP s w)) = true /\
      let mode := run_direction direction localPath remotePath
                    (syncOptions_of direction options)
                    (snd (fst (connectSFTP s w))) in
      snd run = snd (connectSFTP s w) ++ snd mode ++
                [final_message (fst (fst mode)); SftpEnd o] /\
      fst (fst run) =
      match o with Some e' => inl e' | None => fst (fst mode) end).
Proof.
  cbv zeta.
  destruct (isConnected s) eqn:Ec;
    [|left; unfold syncFiles; rewrite Ec;
      split; [reflexivity | eexists; reflexivity]].
  destruct (workspaceFolder s) as [localPath|] eqn:Ew;
    [|left; unfold syncFiles; rewrite Ec, Ew;
      split; [reflexivity | eexists; reflexivity]].
  destruct (cfg_remotePath s) as [[|r0 r]|] eqn:Er;
    [left; unfold syncFiles; rewrite Ec, Ew, Er;
     split; [reflexivity | eexists; reflexivity]| |
     left; unfold syncFiles; rewrite Ec, Ew, Er;
     split; [reflexivity | eexists; reflexivity]].
  right. rewrite (syncFiles_run_eq s direction options w localPath r0 r Ec Ew Er).
  pose proof (connectSFTP_trace s w) as Hc. cbv zeta.
  destruct (connectSFTP s w) as [[[e|[]] w1] tc]; cbn [fst snd] in *.
  - left. exists e, tc, (fst (sftp_end w1)). repeat split; auto.
  - right. exists localPath, (String r0 r),
      (fst (sftp_end (snd (fst (run_direction direction localPath
         (String r0 r) (syncOptions_of direction options) w1))))).
    repeat split; auto.
Qed.

End SyncFilesFacts.

(** ** What the modes plan to transfer *)

Lemma RemoteItem_nested_ind (P : FileSync.RemoteItem -> Prop) :
  (forall name type modifyTime, P (FileSync.mkItem name type modifyTime None)) ->
  (forall name type modifyTime items,
      Forall P items -> P (FileSync.mkItem name type modifyTime (Some items))) ->
  forall item, P item.
Proof.
  intros HN HS. fix IH 1. intros [name type modifyTime [items|]].
  - apply HS. induction items as [|i items IHitems]; constructor.
    + apply IH.
    + exact IHitems.
  - apply HN.
Qed.

Lemma JsMap_keys_set {V : Type} (k : string) (v : V) (m : JsMap.t V) (x : string) :
  In x (JsMap.keys (JsMap.set k v m)) <-> x = k \/ In x (JsMap.keys m).
Proof.
  induction m as [|[k' v'] m IH]; simpl.
  - split; [intros [E|[]]; auto | intros [E|[]]; auto].
  - destruct (String.eqb_spec k' k) as [->|NE]; simpl.
    + split; [intros [E|I]; auto | intros [E|[E|I]]; auto].
    + rewrite IH. split; [intros [E|[E|I]]; auto | intros [E|[E|I]]; auto].
Qed.

Section PlanFacts.
Import FileSync Prog.
Context {L : NodeLib} {W : Type} {H : Host W}.

Lemma shouldExcludeFile_false (filePath : string) (patterns : list string) :
  shouldExcludeFile filePath patterns = false <->
  (forall pattern, In pattern patterns -> minimatch filePath pattern = false).
Proof.
  unfold shouldExcludeFile. induction patterns as [|p ps IH]; simpl.
  - split; [intros _ ? [] | reflexivity].
  - rewrite orb_false_iff, IH. split.
    + intros [E A] q [<-|I]; auto.
    + intros A. split; [apply A; now left | intros q I; apply A; now right].
Qed.

Lemma traverse_item_not_excluded (options : SyncOptions)
    (item : RemoteItem) :
  forall relativePath p i,
    In (p, i) (traverse_item options relativePath item) ->
    shouldExcludeFile p (excludePatterns options) = false.
Proof.
  induction item as [name type mt | name type mt items IH]
    using RemoteItem_nested_ind; intros relativePath p i; simpl.
  - destruct (String.eqb type "d").
    + destruct (_ || _); intros [].
    + destruct (_ && _) eqn:E; [|intros []].
      intros [[= <- _]|[]]. apply andb_prop in E. destruct E as [_ E].
      now apply negb_true_iff in E.
  - destruct (String.eqb type "d").
    + destruct (_ || _); [|intros []].
      rewrite in_flat_map. intros (x & Ix & Ip).
      rewrite Forall_forall in IH. exact (IH x Ix _ _ _ Ip).
    + destruct (_ && _) eqn:E; [|intros []].
      intros [[= <- _]|[]]. apply andb_prop in E. destruct E as [_ E].
      now apply negb_true_iff in E.
Qed.

Lemma traverse_not_excluded (options : SyncOptions) (basePath : string)
    (w : W) (p : string) (i : RemoteItem) :
  In (p, i) (traverse options basePath w) ->
  shouldExcludeFile p (excludePatterns options) = false.
Proof.
  unfold traverse. destruct (sftp_list basePath w) as [items|]; [|intros []].
  rewrite in_flat_map. intros (x & _ & Ip).
  exact (traverse_item_not_excluded options x _ _ _ Ip).
Qed.

Lemma local_files_eq (localPath : string) (options : SyncOptions) (w : W) :
  computed (getLocalFiles localPath options) w [] =
  filter (fun file => negb (shouldExcludeFile file (excludePatterns options)))
         (glob_sync (if includeHidden options then "**/*" else "**/!(.*)*")
                    localPath (includeHidden options) w).
Proof. reflexivity. Qed.

Lemma remote_files_eq (remotePath : string) (options : SyncOptions) (w : W) :
  computed (getRemoteFiles remotePath options) w [] =
  map fst (traverse options remotePath w).
Proof. reflexivity. Qed.

Lemma local_stats_keys (localPath : string) (options : SyncOptions) (w : W)
    (f : string) :
  In f (JsMap.keys
          (computed (getLocalFilesWithStats localPath options) w JsMap.empty)) ->
  In f (computed (getLocalFiles localPath options) w []).
Proof.
  unfold computed at 1, getLocalFilesWithStats, bind.
  rewrite getLocalFiles_run. unfold read. cbn [app]. rewrite local_files_eq.
  set (files := filter _ _). clearbody files.
  assert (G : forall l acc,
             In f (JsMap.keys
                     (fold_left
                        (fun files0 file0 =>
                           match fs_statSync (path_join localPath file0) w with
                           | Some stats => JsMap.set file0 stats files0
                           | None => files0
                           end) l acc)) ->
             In f (JsMap.keys acc) \/ In f l).
  { induction l as [|x l IH]; intros acc I; simpl in *; [now left|].
    apply IH in I. destruct I as [I|I]; [|tauto].
    destruct (fs_statSync _ w); [|tauto].
    apply JsMap_keys_set in I. destruct I as [->|I]; tauto. }
  intros I. apply G in I. destruct I as [[]|I]. exact I.
Qed.

Lemma remote_stats_keys (remotePath : string) (options : SyncOptions) (w : W)
    (f : string) :
  In f (JsMap.keys
          (computed (getRemoteFilesWithStats remotePath options) w JsMap.empty)) ->
  In f (computed (getRemoteFiles remotePath options) w []).
Proof.
  rewrite remote_files_eq.
  unfold computed, getRemoteFilesWithStats, read.
  set (l := traverse options remotePath w). clearbody l.
  assert (G : forall l acc,
             In f (JsMap.keys
                     (fold_left
                        (fun files (e : string * RemoteItem) =>
                           JsMap.set (fst e) (snd e) files) l acc)) ->
             In f (JsMap.keys acc) \/ In f (map fst l)).
  { clear l. induction l as [|x l IH]; intros acc I; simpl in *; [now left|].
    apply IH in I. destruct I as [I|I]; [|tauto].
    apply JsMap_keys_set in I. destruct I as [->|I]; tauto. }
  intros I. apply G in I. destruct I as [[]|I]. exact I.
Qed.

Lemma calculateSyncActions_files localFiles remoteFiles a :
  In a (calculateSyncActions localFiles remoteFiles) ->
  In (file a) (JsMap.keys localFiles) \/ In (file a) (JsMap.keys remoteFiles).
Proof.
  rewrite calculateSyncActions_flat_map, in_flat_map.
  intros (f & If & Ia). apply decide_file in Ia. subst f.
  apply (proj1 (JsSet_of_list_In _ _)) in If. now apply in_app_or in If.
Qed.

(** No path of a computed transfer list matches an exclusion pattern. *)
Lemma transfer_list_not_excluded (direction : SyncDirection)
    (localPath remotePath : string) (options : SyncOptions) (w : W)
    (a : SyncAction) :
  In a (transfer_list direction localPath remotePath options w) ->
  shouldExcludeFile (file a) (excludePatterns options) = false.
Proof.
  assert (Loc : forall f, In f (computed (getLocalFiles localPath options) w []) ->
                          shouldExcludeFile f (excludePatterns options) = false).
  { intros f. rewrite local_files_eq, filter_In. intros [_ E].
    now apply negb_true_iff in E. }
  assert (Rem : forall f, In f (computed (getRemoteFiles remotePath options) w []) ->
                          shouldExcludeFile f (excludePatterns options) = false).
  { intros f. rewrite remote_files_eq, in_map_iff. intros ([p i] & <- & I).
    exact (traverse_not_excluded options remotePath w p i I). }
  destruct direction.
  - cbn [transfer_list]. rewrite in_map_iff. intros (f & <- & I). now apply Loc.
  - cbn [transfer_list]. rewrite in_map_iff. intros (f & <- & I). now apply Rem.
  - rewrite transfer_list_Both. intros I.
    apply calculateSyncActions_files in I. destruct I as [I|I].
    + apply Loc. now apply local_stats_keys.
    + apply Rem. now apply remote_stats_keys.
Qed.

End PlanFacts.

(** ** The claims about a run of the engine *)

Section SyncClaims.
Import FileSync Prog.
Context {L : NodeLib} {W : Type} {H : Host W}.

(** A progress event or a transfer of a call of [syncFiles] lies in the
    loop of its mode. *)
Lemma syncFiles_locate (s : Session) (direction : SyncDirection)
    (options : option PartialOptions) (w : W)
    (t1 : list Event) (ev : Event) (t2 : list Event) :
  snd (syncFiles s direction options w) = t1 ++ ev :: t2 ->
  is_progress ev || is_transfer ev = true ->
  exists localPath remotePath o pre T1 T2,
    workspaceFolder s = Some localPath /\
    cfg_remotePath s = Some remotePath /\
    let w1 := snd (fst (connectSFTP s w)) in
    let plan := transfer_list direction localPath remotePath
                  (syncOptions_of direction options) w1 in
    let mode := run_direction direction localPath remotePath
                  (syncOptions_of direction options) w1 in
    TransferTrace localPath remotePath (length plan) 0 plan
      (fst (fst mode)) (T1 ++ ev :: T2) /\
    t1 = pre ++ T1 /\
    (forall x, In x pre -> is_progress x || is_transfer x = false) /\
    t2 = T2 ++ [final_message (fst (fst mode)); SftpEnd o] /\
    fst (fst (syncFiles s direction options w)) =
    match o with Some e' => inl e' | None => fst (fst mode) end.
Proof.
  intros E P.
  assert (NC : forall l, forallb is_connect l = true ->
               forall x, In x l -> is_progress x || is_transfer x = false).
  { intros l Hl x I. rewrite forallb_forall in Hl. specialize (Hl x I).
    destruct x; simpl in *; congruence. }
  assert (ND : forall l, forallb is_dir_event l = true ->
               forall x, In x l -> is_progress x || is_transfer x = false).
  { intros l Hl x I. rewrite forallb_forall in Hl. specialize (Hl x I).
    destruct x; simpl in *; congruence. }
  destruct (syncFiles_shape s direction options w)
    as [[E0 _] | [(e & tc & o & Hc & E0 & _)
                 | (localPath & remotePath & o & Ew & Er & Hc & E0 & R)]];
    cbv zeta in *.
  - rewrite E0 in E. destruct t1; discriminate.
  - exfalso. rewrite E0 in E.
    assert (I : In ev (tc ++ [final_message (inl e); SftpEnd o])).
    { rewrite E. apply in_elt. }
    apply in_app_or in I. destruct I as [I|[<-|[<-|[]]]].
    + rewrite (NC tc Hc ev I) in P. discriminate.
    + discriminate.
    + discriminate.
  - destruct (run_direction_trace direction localPath remotePath
                (syncOptions_of direction options)
                (snd (fst (connectSFTP s w)))) as (prefix & T & Hp & Em & TT).
    cbv zeta in TT. rewrite E0, Em in E.
    destruct (split_app_not_left (fun x => is_progress x || is_transfer x)
                _ _ _ _ _ (NC _ Hc) P E) as (t1' & -> & E1).
    rewrite <- app_assoc in E1.
    destruct (split_app_not_left (fun x => is_progress x || is_transfer x)
                _ _ _ _ _ (ND _ Hp) P E1) as (t1'' & -> & E2).
    assert (NF : forall x,
               In x [final_message
                       (fst (fst (run_direction direction localPath remotePath
                          (syncOptions_of direction options)
                          (snd (fst (connectSFTP s w))))));
                     SftpEnd o] ->
               is_progress x || is_transfer x = false).
    { intros x [<-|[<-|[]]]; [|reflexivity].
      destruct (fst (fst (run_direction _ _ _ _ _))); reflexivity. }
    destruct (split_app_not_right (fun x => is_progress x || is_transfer x)
                _ _ _ _ _ NF P E2) as (T2 & -> & ->).
    exists localPath, remotePath, o, (snd (connectSFTP s w) ++ prefix), t1'', T2.
    repeat split; auto.
    + now rewrite app_assoc.
    + intros x I. apply in_app_or in I. destruct I as [I|I].
      * exact (NC _ Hc x I).
      * exact (ND _ Hp x I).
Qed.

Lemma same_workspace (s : Session) (a b c d : string) :
  workspaceFolder s = Some a -> cfg_remotePath s = Some b ->
  workspaceFolder s = Some c -> cfg_remotePath s = Some d ->
  c = a /\ d = b.
Proof. intros -> -> [= ->] [= ->]. now split. Qed.

(** C6. In every mode, a file transfer that throws ends the run: the call
    of [syncFiles] fails, the error message carries the text of the
    channel's error, nothing is transferred afterwards (the only calls
    left are the message and the closing of the channel, so nothing is
    undone either), and every transfer made before went through. *)
Theorem syncFiles_aborts_on_transfer_failure (s : Session)
    (direction : SyncDirection) (options : option PartialOptions) (w : W)
    (t1 : list Event) (ev : Event) (t2 : list Event) (e : Err) :
  snd (syncFiles s direction options w) = t1 ++ ev :: t2 ->
  transfer_error ev = Some e ->
  (exists o,
      t2 = [ShowErrorMessage ("Sync failed: " ++ e); SftpEnd o] /\
      fst (fst (syncFiles s direction options w)) =
      inl (match o with Some e' => e' | None => e end)) /\
  (forall ev', In ev' t1 -> transfer_error ev' = None).
Proof.
  intros E Er.
  assert (P : is_progress ev || is_transfer ev = true).
  { rewrite (transfer_error_is_transfer _ _ Er). apply orb_true_r. }
  destruct (syncFiles_locate s direction options w t1 ev t2 E P)
    as (lp & rp & o & pre & T1 & T2 & _ & _ & TT & -> & Hpre & -> & R).
  cbv zeta in *.
  destruct (TransferTrace_failure_last _ _ _ _ _ _ _ TT T1 ev T2 e eq_refl Er)
    as (Rm & -> & Hall).
  rewrite Rm in *. split.
  - exists o. split; [reflexivity|]. rewrite R. now destruct o.
  - intros ev' I. apply in_app_or in I. destruct I as [I|I]; [|now apply Hall].
    specialize (Hpre ev' I). apply orb_false_elim in Hpre.
    destruct Hpre as [_ Nt]. destruct (transfer_error ev') eqn:Ee; [|reflexivity].
    apply transfer_error_is_transfer in Ee. congruence.
Qed.

(** C7. In every mode, each transfer is preceded by the progress event of
    its file (only directory creations lie between the two); the event
    carries the one-based position of the file, the number of actions
    computed before the loop started, and the percentage computed from
    these two.  Every progress event of the run carries that same
    total. *)
Theorem progress_precedes_every_transfer (s : Session)
    (direction : SyncDirection) (options : option PartialOptions) (w : W)
    (localPath remotePath : string) :
  workspaceFolder s = Some localPath ->
  cfg_remotePath s = Some remotePath ->
  let t := snd (syncFiles s direction options w) in
  let plan := transfer_list direction localPath remotePath
                (syncOptions_of direction options)
                (snd (fst (connectSFTP s w))) in
  (forall t1 ev t2,
      t = t1 ++ ev :: t2 -> is_transfer ev = true ->
      exists i a t0 prep,
        nth_error plan i = Some a /\
        t1 = t0 ++
             SyncProgressFired
               (mkProgress (i + 1) (length plan) (file a)
                           (round_percent (i + 1) (length plan))) :: prep /\
        forallb is_dir_event prep = true /\
        ev = transfer_event localPath remotePath a (transfer_error ev))
  /\
  (forall p,
      In (SyncProgressFired p) t ->
      total p = length plan /\
      1 <= current p <= total p /\
      percentage p = round_percent (current p) (total p) /\
      exists a, nth_error plan (current p - 1) = Some a /\
                currentFile p = file a).
Proof.
  intros Ew Er t plan. split.
  - intros t1 ev t2 E Ht.
    assert (P : is_progress ev || is_transfer ev = true).
    { rewrite Ht. apply orb_true_r. }
    destruct (syncFiles_locate s direction options w t1 ev t2 E P)
      as (lp & rp & o & pre & T1 & T2 & Ew' & Er' & TT & -> & _ & _ & _).
    destruct (same_workspace s _ _ _ _ Ew Er Ew' Er') as [-> ->].
    cbv zeta in TT. fold plan in TT.
    destruct (TransferTrace_progress_first _ _ _ _ _ _ _ TT T1 ev T2 eq_refl Ht)
      as (j & a & t0 & prep & N & -> & Hp & Ev).
    exists j, a, (pre ++ t0), prep. repeat split; auto.
    now rewrite <- app_assoc.
  - intros p I. destruct (in_split _ _ I) as (t1 & t2 & E).
    destruct (syncFiles_locate s direction options w t1 _ t2 E eq_refl)
      as (lp & rp & o & pre & T1 & T2 & Ew' & Er' & TT & _ & _ & _ & _).
    destruct (same_workspace s _ _ _ _ Ew Er Ew' Er') as [-> ->].
    cbv zeta in TT. fold plan in TT.
    destruct (TransferTrace_progress_events _ _ _ _ _ _ _ TT p (in_elt _ _ _))
      as (j & a & N & ->).
    cbn [total current percentage currentFile].
    assert (j < length plan) by (apply nth_error_Some; congruence).
    repeat split; try lia.
    exists a. split; [|reflexivity].
    now replace (0 + j + 1 - 1) with j by lia.
Qed.

(** C3. Whatever the mode and the two trees, a path that matches a
    pattern of the effective exclusion set (the built-in patterns
    followed by the caller's) is in no computed transfer list, and no
    progress event and no transfer of a run concerns it. *)
Theorem excluded_paths_are_never_transferred (s : Session)
    (direction : SyncDirection) (options : option PartialOptions) (w : W) :
  let effective := defaultExcludePatterns ++ user_patterns options in
  (forall localPath remotePath w0 a,
      In a (transfer_list direction localPath remotePath
              (syncOptions_of direction options) w0) ->
      forall pattern, In pattern effective ->
                      minimatch (file a) pattern = false)
  /\
  (forall p,
      In (SyncProgressFired p) (snd (syncFiles s direction options w)) ->
      forall pattern, In pattern effective ->
                      minimatch (currentFile p) pattern = false)
  /\
  (forall ev,
      In ev (snd (syncFiles s direction options w)) ->
      is_transfer ev = true ->
      exists localPath remotePath a,
        ev = transfer_event localPath remotePath a (transfer_error ev) /\
        forall pattern, In pattern effective ->
                        minimatch (file a) pattern = false).
Proof.
  intros effective.
  assert (Plan : forall localPath remotePath w0 a,
             In a (transfer_list direction localPath remotePath
                     (syncOptions_of direction options) w0) ->
             forall pattern, In pattern effective ->
                             minimatch (file a) pattern = false).
  { intros lp rp w0 a I.
    apply transfer_list_not_excluded in I.
    exact (proj1 (shouldExcludeFile_false _ _) I). }
  split; [exact Plan|]. split.
  - intros p I. destruct (in_split _ _ I) as (t1 & t2 & E).
    destruct (syncFiles_locate s direction options w t1 _ t2 E eq_refl)
      as (lp & rp & o & pre & T1 & T2 & _ & _ & TT & _).
    cbv zeta in TT.
    destruct (TransferTrace_progress_events _ _ _ _ _ _ _ TT p (in_elt _ _ _))
      as (j & a & N & ->).
    cbn [currentFile]. apply nth_error_In in N. exact (Plan _ _ _ _ N).
  - intros ev I Ht. destruct (in_split _ _ I) as (t1 & t2 & E).
    assert (P : is_progress ev || is_transfer ev = true).
    { rewrite Ht. apply orb_true_r. }
    destruct (syncFiles_locate s direction options w t1 _ t2 E P)
      as (lp & rp & o & pre & T1 & T2 & _ & _ & TT & _).
    cbv zeta in TT.
    destruct (TransferTrace_progress_first _ _ _ _ _ _ _ TT T1 ev T2 eq_refl Ht)
      as (j & a & t0 & prep & N & _ & _ & Ev).
    exists lp, rp, a. split; [exact Ev|].
    apply nth_error_In in N. exact (Plan _ _ _ _ N).
Qed.

(** *** The remote enumeration *)

Lemma Enumerated_incl (options : SyncOptions) (items items' : list RemoteItem)
    (relativePath file : string) :
  (forall item, In item items -> In item items') ->
  Enumerated options items relativePath file ->
  Enumerated options items' relativePath file.
Proof.
  intros Sub E. destruct E as [items rel name type mt listing I T S X
                              | items rel name mt children file I S E].
  - eapply Enumerated_file; eauto.
  - eapply Enumerated_directory; eauto.
Qed.

Lemma shown_spec (options : SyncOptions) (name : string) :
  includeHidden options || negb (Js.startsWith name ".") = true <->
  includeHidden options = true \/ Js.startsWith name "." = false.
Proof.
  rewrite orb_true_iff, negb_true_iff. reflexivity.
Qed.

Lemma kept_spec (file : string) (patterns : list string) :
  shouldExcludeFile file patterns = false <->
  forall pattern, In pattern patterns -> minimatch file pattern = false.
Proof.
  unfold shouldExcludeFile. split.
  - intros E pattern I.
    destruct (minimatch file pattern) eqn:M; [|reflexivity].
    assert (X : existsb (fun pattern => minimatch file pattern) patterns = true)
      by (apply existsb_exists; now exists pattern).
    congruence.
  - intros A. destruct (existsb _ patterns) eqn:X; [|reflexivity].
    apply existsb_exists in X. destruct X as (pattern & I & M).
    rewrite (A pattern I) in M. discriminate.
Qed.

Lemma traverse_item_enumerated (options : SyncOptions) (item : RemoteItem) :
  forall relativePath p,
    In p (traverse_item options relativePath item) ->
    Enumerated options [item] relativePath (fst p).
Proof.
  induction item as [name type mt | name type mt items IH]
    using RemoteItem_nested_ind; intros relativePath p; cbn [traverse_item];
    fold (item_path relativePath name).
  - destruct (String.eqb_spec type "d") as [->|Nd].
    + destruct (_ || _); intros [].
    + destruct (_ && _) eqn:E; [|intros []].
      intros [<-|[]]. cbn [fst]. apply andb_prop in E. destruct E as [S X].
      apply Enumerated_file with (type := type) (modifyTime := mt)
                                 (listing := None).
      * now left.
      * exact Nd.
      * now apply shown_spec.
      * apply kept_spec. now apply negb_true_iff in X.
  - destruct (String.eqb_spec type "d") as [->|Nd].
    + destruct (_ || _) eqn:S; [|intros []].
      rewrite in_flat_map. intros (x & Ix & Ip).
      rewrite Forall_forall in IH. specialize (IH x Ix _ _ Ip).
      apply Enumerated_directory with (name := name) (modifyTime := mt)
                                      (children := items).
      * now left.
      * now apply shown_spec.
      * apply (Enumerated_incl options [x]); [|exact IH].
        intros item [<-|[]]. exact Ix.
    + destruct (_ && _) eqn:E; [|intros []].
      intros [<-|[]]. cbn [fst]. apply andb_prop in E. destruct E as [S X].
      apply Enumerated_file with (type := type) (modifyTime := mt)
                                 (listing := Some items).
      * now left.
      * exact Nd.
      * now apply shown_spec.
      * apply kept_spec. now apply negb_true_iff in X.
Qed.

Lemma enumerated_traverse (options : SyncOptions) (items : list RemoteItem)
    (relativePath file : string) :
  Enumerated options items relativePath file ->
  In file (map fst (flat_map (traverse_item options relativePath) items)).
Proof.
  induction 1 as [items rel name type mt listing I T S X
                 | items rel name mt children file I S E IH];
    apply in_map_iff.
  - exists (item_path rel name, mkItem name type mt listing).
    split; [reflexivity|]. apply in_flat_map.
    exists (mkItem name type mt listing). split; [exact I|].
    cbn [traverse_item]. fold (item_path rel name).
    destruct (String.eqb_spec type "d") as [->|_]; [congruence|].
    apply shown_spec in S. rewrite S.
    apply kept_spec in X. rewrite X. now left.
  - apply in_map_iff in IH. destruct IH as (p & Ep & Ip).
    exists p. split; [exact Ep|]. apply in_flat_map.
    exists (mkItem name "d" mt (Some children)). split; [exact I|].
    cbn [traverse_item]. fold (item_path rel name).
    rewrite String.eqb_refl. apply shown_spec in S. rewrite S.
    exact Ip.
Qed.

Lemma traverse_enumerated (options : SyncOptions) (basePath : string)
    (w : W) (file : string) :
  In file (map fst (traverse options basePath w)) <->
  exists items,
    sftp_list basePath w = Some items /\
    Enumerated options items "" file.
Proof.
  unfold traverse. split.
  - destruct (sftp_list basePath w) as [items|]; [|intros []].
    intros I. exists items. split; [reflexivity|].
    apply in_map_iff in I. destruct I as (p & <- & Ip).
    apply in_flat_map in Ip. destruct Ip as (x & Ix & Ip).
    apply (Enumerated_incl options [x]).
    + intros item [<-|[]]. exact Ix.
    + exact (traverse_item_enumerated options x "" p Ip).
  - intros (items & -> & E). exact (enumerated_traverse _ _ _ _ E).
Qed.


End SyncClaims.

Lemma syncFiles_aborts_on_transfer_failure_witness :
  snd (SampleHost.run FileSync.LocalToRemote) =
  SampleHost.upload_before ++ SampleHost.upload_refused :: SampleHost.upload_after
  /\
  (exists o,
      SampleHost.upload_after =
      [FileSync.ShowErrorMessage
         ("Sync failed: " ++ "Error: put: Permission denied");
       FileSync.SftpEnd o] /\
      fst (fst (SampleHost.run FileSync.LocalToRemote)) =
      inl (match o with
           | Some e' => e'
           | None => "Error: put: Permission denied"
           end)) /\
  (forall ev', In ev' SampleHost.upload_before ->
               FileSync.transfer_error ev' = None).
Proof.
  split; [reflexivity|].
  apply (@syncFiles_aborts_on_transfer_failure
           SampleHost.lib nat SampleHost.host SampleHost.session
           FileSync.LocalToRemote None 0
           SampleHost.upload_before SampleHost.upload_refused
           SampleHost.upload_after "Error: put: Permission denied").
  - reflexivity.
  - reflexivity.
Defined.

Lemma progress_precedes_every_transfer_witness :
  In (FileSync.SyncProgressFired (FileSync.mkProgress 2 3 "bad.py" 67))
     (snd (SampleHost.run FileSync.LocalToRemote)) /\
  FileSync.total (FileSync.mkProgress 2 3 "bad.py" 67) =
  length (@FileSync.transfer_list SampleHost.lib nat SampleHost.host
            FileSync.LocalToRemote "/home/me/ws" "/data"
            (FileSync.syncOptions_of FileSync.LocalToRemote None) 1).
Proof.
  assert (I : In (FileSync.SyncProgressFired
                    (FileSync.mkProgress 2 3 "bad.py" 67))
                 (snd (SampleHost.run FileSync.LocalToRemote))).
  { do 5 right. left. reflexivity. }
  split; [exact I|].
  exact (proj1 (proj2 (@progress_precedes_every_transfer
                         SampleHost.lib nat SampleHost.host SampleHost.session
                         FileSync.LocalToRemote None 0 "/home/me/ws" "/data"
                         eq_refl eq_refl) _ I)).
Defined.

Lemma excluded_paths_are_never_transferred_witness :
  In (FileSync.SyncProgressFired (FileSync.mkProgress 1 5 "a.py" 20))
     (snd (SampleHost.run FileSync.Both)) /\
  SampleHost.glob_match "a.py" "**/*.pyc" = false.
Proof.
  assert (I : In (FileSync.SyncProgressFired
                    (FileSync.mkProgress 1 5 "a.py" 20))
                 (snd (SampleHost.run FileSync.Both))).
  { right. left. reflexivity. }
  split; [exact I|].
  apply (proj1 (proj2 (@excluded_paths_are_never_transferred
                         SampleHost.lib nat SampleHost.host SampleHost.session
                         FileSync.Both None 0)) _ I).
  simpl. tauto.
Defined.



(** ** Batch scripts *)

Lemma one_line_app (a b : string) :
  Js.one_line (a ++ b) = Js.one_line a && Js.one_line b.
Proof.
  induction a as [|c a IH]; simpl; [reflexivity|].
  rewrite IH. now rewrite andb_assoc.
Qed.

Lemma split_one_line (l rest : string) :
  Js.one_line l = true ->
  Js.split Js.LF (l ++ Js.nl ++ rest) = l :: Js.split Js.LF rest.
Proof.
  induction l as [|c l IH]; intros O.
  - reflexivity.
  - simpl in O. apply andb_prop in O. destruct O as [Oc Ol].
    cbn [append Js.split]. apply negb_true_iff in Oc. rewrite Oc.
    now rewrite (IH Ol).
Qed.

Lemma split_unlines (ls : list string) :
  forallb Js.one_line ls = true ->
  Js.split Js.LF (Job.unlines ls) = ls ++ [EmptyString].
Proof.
  induction ls as [|l ls IH]; intros O; cbn [Job.unlines forallb] in *;
    [reflexivity|].
  apply andb_prop in O. destruct O as [Ol Ols].
  rewrite (split_one_line _ _ Ol). now rewrite (IH Ols).
Qed.

(** C8. For a job configuration whose text fields are single lines, the
    resource requests of the generated script are, in this order: job name,
    output and error paths, the given partition, one node, one task,
    [gpuCount] GPUs, [cpuPerGpu * gpuCount] CPUs, the leading integer of
    [memoryPerGpu] times [gpuCount] gigabytes of memory, the given time
    limit, and the node pin, which is there exactly when a (non-empty)
    target node is given.  The numbers are doubles: products and numerals
    are those of the platform. *)
Theorem generateScriptContent_requests {D : Js.Doubles}
    (config : Job.JobConfig) :
  Js.one_line (Job.name config) = true ->
  Js.one_line (Job.show_optional (Job.outputPath config)) = true ->
  Js.one_line (Job.show_optional (Job.errorPath config)) = true ->
  Js.one_line (Job.partition config) = true ->
  Js.one_line (Job.timeLimit config) = true ->
  Js.one_line (Job.show_optional (Job.gpuNode config)) = true ->
  Js.one_line (Job.scriptPath config) = true ->
  Job.directives (Job.generateScriptContent config) =
  ["--job-name=" ++ Job.name config;
   "--output=" ++ Job.show_optional (Job.outputPath config);
   "--error=" ++ Job.show_optional (Job.errorPath config);
   "--partition=" ++ Job.partition config;
   "--nodes=1";
   "--ntasks=1";
   "--gres=gpu:" ++ Js.show (Job.gpuCount config);
   "--cpus-per-task=" ++
     Js.show (Js.mul (Job.cpuPerGpu config) (Job.gpuCount config));
   "--mem=" ++
     Js.show (Js.mul (Js.parseInt (Job.memoryPerGpu config))
                     (Job.gpuCount config)) ++ "G";
   "--time=" ++ Job.timeLimit config]%string ++
  match Job.gpuNode config with
  | Some (String _ _ as node) => ["--nodelist=" ++ node]%string
  | _ => []
  end.
Proof.
  intros On Oo Oe Op Ot Og Os.
  unfold Job.directives, Job.generateScriptContent.
  rewrite split_unlines.
  - cbn [map app Job.strip_prefix append Ascii.eqb Bool.eqb Job.keep_some].
    destruct (Job.gpuNode config) as [[|c node]|]; reflexivity.
  - cbn [forallb]. rewrite !one_line_app.
    rewrite On, Oo, Oe, Op, Ot, Os.
    rewrite !Js.show_one_line.
    destruct (Js.truthy (Job.gpuNode config));
      [rewrite one_line_app, Og|]; reflexivity.
Qed.

Lemma generateScriptContent_requests_witness :
  Job.directives (Job.generateScriptContent SampleJob.config) =
  ["--job-name=train"; "--output=/data/me/train.out";
   "--error=/data/me/train.err"; "--partition=gpu_ugrad"; "--nodes=1";
   "--ntasks=1"; "--gres=gpu:2"; "--cpus-per-task=16"; "--mem=64G";
   "--time=1-00:00:00"; "--nodelist=aurora-g1"].
Proof.
  apply (generateScriptContent_requests SampleJob.config); reflexivity.
Defined.

(** A line feed in a text field breaks out of its line: here the time
    limit carries a node pin into the header of a job that names no target
    node. *)
Lemma generateScriptContent_line_feed :
  Job.gpuNode SampleJob.injected = None /\
  Job.directives (Job.generateScriptContent SampleJob.injected) =
  ["--job-name=train"; "--output=/data/me/train.out";
   "--error=/data/me/train.err"; "--partition=gpu_ugrad"; "--nodes=1";
   "--ntasks=1"; "--gres=gpu:2"; "--cpus-per-task=16"; "--mem=64G";
   "--time=1-00:00:00"; "--nodelist=aurora-g9"].
Proof. split; reflexivity. Qed.

(** ** Cancelling a job *)

(** C9. When the cancel command comes back with an exit code other than 0,
    the only calls are the command itself and one error message that
    carries the scheduler's stderr text; the job list is not refreshed and
    the cached list stays as it was.  With exit code 0 the success message
    is followed by a refresh. *)
Theorem cancelJob_failure_keeps_jobs {W : Type} {H : Job.Host W}
    (jobId : string) (st : Job.State W) (result : Job.CommandResult) (w' : W) :
  Job.ssh_isConnected (Job.world st) = true ->
  Job.ssh_execCommand ("scancel " ++ jobId) (Job.world st) = (inr result, w') ->
  (Job.code result <> Some 0%Z ->
   Job.cancelJob jobId st =
   (inr tt, Job.mkState w' (Job.runningJobs st),
    [Job.ExecCommand ("scancel " ++ jobId) (inr result);
     Job.ShowErrorMessage
       ("Failed to cancel job " ++ jobId ++ ": " ++ Job.stderr result)]))
  /\
  (Job.code result = Some 0%Z ->
   Job.cancelJob jobId st =
   let refresh := Job.refreshJobs (Job.mkState w' (Job.runningJobs st)) in
   (fst (fst refresh), snd (fst refresh),
    [Job.ExecCommand ("scancel " ++ jobId) (inr result);
     Job.ShowInformationMessage ("Job " ++ jobId ++ " cancelled successfully")]
    ++ snd refresh)).
Proof.
  intros Hc He. split; intros Hcode.
  - unfold Job.cancelJob, Prog.try_catch, Prog.bind, Job.executeCommand.
    rewrite Hc, He. cbn [negb].
    destruct (Job.code result) as [[| |]|]; try reflexivity. congruence.
  - unfold Job.cancelJob, Prog.try_catch, Prog.bind at 1, Job.executeCommand.
    rewrite Hc, He. cbn [negb]. rewrite Hcode.
    unfold Prog.bind, Prog.emit. cbv zeta.
    assert (R : exists st2 t, Job.refreshJobs (Job.mkState w' (Job.runningJobs st))
                              = (inr tt, st2, t)).
    { unfold Job.refreshJobs, Prog.bind at 1, Prog.read. cbn [Job.world app].
      destruct (Job.ssh_isConnected w'); cbn [negb];
        [|eexists _, _; reflexivity].
      unfold Prog.try_catch.
      match goal with |- context [match ?m ?s with _ => _ end] =>
        destruct (m s) as [[[e|[]] st2] t] end;
        eexists _, _; reflexivity. }
    destruct R as (st2 & t & ->). reflexivity.
Qed.

Lemma cancelJob_failure_keeps_jobs_witness :
  @Job.cancelJob nat SampleJob.host "4242" (Job.mkState 0 SampleJob.cached) =
  (inr tt, Job.mkState 1 SampleJob.cached,
   [Job.ExecCommand "scancel 4242" (inr SampleJob.refusal);
    Job.ShowErrorMessage
      "Failed to cancel job 4242: scancel: error: Invalid job id specified"]).
Proof.
  apply (proj1 (@cancelJob_failure_keeps_jobs nat SampleJob.host "4242"
                  (Job.mkState 0 SampleJob.cached) SampleJob.refusal 1
                  eq_refl eq_refl)).
  discriminate.
Defined.

(** ** GPU status *)

(** A match holds one capture for every group of the pattern, so that a
    capture the parsers read is never [undefined]. *)
Lemma run_caps_length (r : list Regex.Item) :
  forall s cur caps m rest,
    Regex.run r s cur caps = Some (m, rest) ->
    length m = length caps + Regex.groups r.
Proof.
  unfold Regex.groups.
  induction r as [|it r IH]; intros s cur caps m rest E.
  - simpl in E. injection E as <- _. rewrite length_rev. simpl. lia.
  - destruct it as [p | p lazy | |]; cbn [Regex.run filter] in *.
    + destruct s as [|a s]; [discriminate|].
      destruct (p a); [|discriminate]. now apply IH in E.
    + revert cur E. induction s as [|a s IHs]; intros cur E.
      * destruct lazy.
        -- destruct (Regex.run r "" cur caps) as [[c0 rest0]|] eqn:R;
             [|discriminate].
           injection E as <- <-. now apply IH in R.
        -- now apply IH in E.
      * destruct lazy.
        -- destruct (Regex.run r (String a s) cur caps) as [[c0 rest0]|] eqn:R.
           ++ injection E as <- <-. now apply IH in R.
           ++ destruct (p a); [|discriminate]. now apply IHs in E.
        -- destruct (p a).
           ++ match type of E with
              | match ?x with _ => _ end = _ => destruct x as [[c0 rest0]|] eqn:R
              end.
              ** injection E as <- <-. now apply IHs in R.
              ** now apply IH in E.
           ++ now apply IH in E.
    + now apply IH in E.
    + apply IH in E. cbn [length] in *. lia.
Qed.

Lemma match_start_groups (r : list Regex.Item) (s : string) (m : list string) :
  Regex.match_start r s = Some m -> length m = Regex.groups r.
Proof.
  unfold Regex.match_start.
  destruct (Regex.run r s None []) as [[caps rest]|] eqn:R; [|discriminate].
  intros [= <-]. now apply run_caps_length in R.
Qed.

Lemma search_groups (r : list Regex.Item) (s : string) m rest :
  Regex.search r s = Some (m, rest) -> length m = Regex.groups r.
Proof.
  induction s as [|a s IH]; cbn [Regex.search].
  - destruct (Regex.run r "" None []) as [[caps rest0]|] eqn:R;
      [|discriminate].
    intros [= <- _]. now apply run_caps_length in R.
  - destruct (Regex.run r (String a s) None []) as [[caps rest0]|] eqn:R.
    + intros [= <- _]. now apply run_caps_length in R.
    + exact IH.
Qed.

(** The parser of the earlier format has no placeholder: without a header
    line it answers with the empty list of nodes. *)
Lemma legacy_parseGPUStatus_no_header {D : Js.Doubles} (now : Z)
    (output : string) :
  (forall line, In line (GpuLegacy.status_lines output) ->
     Regex.match_start GpuLegacy.header_pattern (Js.trim line) = None) ->
  GpuLegacy.nodes (GpuLegacy.parseGPUStatus now output) = [].
Proof.
  intros Hn. unfold GpuLegacy.parseGPUStatus.
  assert (F : fold_left GpuLegacy.step (GpuLegacy.status_lines output)
                ([], None) = ([], None)).
  { induction (GpuLegacy.status_lines output) as [|l ls IH]; [reflexivity|].
    cbn [fold_left]. unfold GpuLegacy.step at 2.
    rewrite (Hn l (or_introl eq_refl)). apply IH.
    intros line I. apply Hn. now right. }
  now rewrite F.
Qed.

(** C4. When the node pattern matches none of the (non-blank, trimmed)
    lines of the status text, the parser of the one-line format answers
    with the eight placeholder nodes [aurora-g1] to [aurora-g8], each with
    eight slots, all of them free.  The parser of the earlier format has no
    placeholder: when no line is a node header it answers with the empty
    list of nodes.  Neither reads a capture that is not there: a match of
    the node pattern holds its eight captures, and a match of the header,
    slot, GPU, CPU or memory pattern holds its one. *)
Theorem parseGPUStatus_placeholder {D : Js.Doubles} (now : Z)
    (output : string) :
  ((forall line, In line (Gpu.status_lines output) ->
                 Gpu.nodeMatch (Js.trim line) = None) ->
   Gpu.nodes (Gpu.parseGPUStatus now output) = Gpu.fallback_nodes /\
   map Gpu.name Gpu.fallback_nodes =
   ["aurora-g1"; "aurora-g2"; "aurora-g3"; "aurora-g4";
    "aurora-g5"; "aurora-g6"; "aurora-g7"; "aurora-g8"] /\
   Forall (fun node =>
             Gpu.gpuStatus node = repeat "-" 8 /\
             Gpu.totalGPUs node = Js.of_count 8 /\
             Gpu.availableGPUs node = Js.of_count 8)
          Gpu.fallback_nodes)
  /\
  ((forall line, In line (GpuLegacy.status_lines output) ->
      Regex.match_start GpuLegacy.header_pattern (Js.trim line) = None) ->
   GpuLegacy.nodes (GpuLegacy.parseGPUStatus now output) = [])
  /\
  ((forall line m, Gpu.nodeMatch line = Some m -> length m = 8) /\
   (forall line m,
       Regex.match_start GpuLegacy.header_pattern line = Some m ->
       length m = 1) /\
   (forall r,
       In r [Gpu.slot_pattern; GpuLegacy.slot_pattern; GpuLegacy.gpu_pattern;
             GpuLegacy.percent_pattern "CPU:";
             GpuLegacy.percent_pattern "MEM:"] ->
       forall text m rest,
         Regex.search r text = Some (m, rest) -> length m = 1)).
Proof.
  split; [|split].
  3:{ split; [|split].
      - intros line m E. now apply match_start_groups in E.
      - intros line m E. now apply match_start_groups in E.
      - intros r I text m rest E. apply search_groups in E. rewrite E.
        repeat (destruct I as [<-|I]; [reflexivity|]). destruct I. }
  - intros Hn. split; [|split].
    + unfold Gpu.parseGPUStatus. cbv zeta.
      rewrite flat_map_all_nil; [reflexivity|].
      intros line I. unfold Gpu.parse_line. cbv zeta. now rewrite (Hn line I).
    + reflexivity.
    + unfold Gpu.fallback_nodes. cbn [map seq].
      repeat constructor.
  - apply legacy_parseGPUStatus_no_header.
Qed.

Lemma parseGPUStatus_placeholder_witness :
  map (@Gpu.name SampleNumbers.doubles)
      (Gpu.nodes (@Gpu.parseGPUStatus SampleNumbers.doubles 0 SampleGpu.garbled)) =
  ["aurora-g1"; "aurora-g2"; "aurora-g3"; "aurora-g4";
   "aurora-g5"; "aurora-g6"; "aurora-g7"; "aurora-g8"] /\
  GpuLegacy.nodes
    (@GpuLegacy.parseGPUStatus SampleNumbers.doubles 0 SampleGpu.unavailable) = [].
Proof.
  destruct (@parseGPUStatus_placeholder SampleNumbers.doubles 0 SampleGpu.garbled)
    as [P _].
  destruct (@parseGPUStatus_placeholder SampleNumbers.doubles 0
              SampleGpu.unavailable) as (_ & L & _).
  split.
  - destruct P as (E & N & _).
    + intros line [<-|[<-|[]]]; reflexivity.
    + rewrite E. exact N.
  - apply L. intros line [<-|[]]. reflexivity.
Defined.

(** On the answer of a shell that does not know the status command, the
    parser of the one-line format gives the placeholder nodes and the
    parser of the earlier format gives no node at all. *)
Lemma legacy_parseGPUStatus_has_no_placeholder :
  map (@Gpu.name SampleNumbers.doubles)
      (Gpu.nodes (@Gpu.parseGPUStatus SampleNumbers.doubles 0
                    SampleGpu.unavailable)) =
  ["aurora-g1"; "aurora-g2"; "aurora-g3"; "aurora-g4";
   "aurora-g5"; "aurora-g6"; "aurora-g7"; "aurora-g8"] /\
  (forall line, In line (GpuLegacy.status_lines SampleGpu.unavailable) ->
     Regex.match_start GpuLegacy.header_pattern (Js.trim line) = None) /\
  GpuLegacy.nodes
    (@GpuLegacy.parseGPUStatus SampleNumbers.doubles 0 SampleGpu.unavailable) = [].
Proof.
  split; [reflexivity|]. split; [|reflexivity].
  intros line [<-|[]]. reflexivity.
Qed.

(** When a line matches, the nodes are those of the matching lines, one
    per line, and the placeholder is not used. *)
Lemma parseGPUStatus_matched {D : Js.Doubles} (now : Z) (output : string)
    (line : string) :
  In line (Gpu.status_lines output) ->
  Gpu.nodeMatch (Js.trim line) <> None ->
  Gpu.nodes (Gpu.parseGPUStatus now output) =
  flat_map Gpu.parse_line (Gpu.status_lines output) /\
  Gpu.nodes (Gpu.parseGPUStatus now output) <> [].
Proof.
  intros I Hm.
  assert (N : flat_map Gpu.parse_line (Gpu.status_lines output) <> []).
  { intros E. destruct (Gpu.nodeMatch (Js.trim line)) as [m|] eqn:Em;
      [|congruence].
    assert (J : In (hd (Gpu.mkNode "" [] None None (Js.of_count 0) (Js.of_count 0))
                       (Gpu.parse_line line))
                   (flat_map Gpu.parse_line (Gpu.status_lines output))).
    { apply in_flat_map. exists line. split; [exact I|].
      unfold Gpu.parse_line. cbv zeta. rewrite Em. now left. }
    rewrite E in J. destruct J. }
  unfold Gpu.parseGPUStatus. cbv zeta.
  destruct (flat_map Gpu.parse_line (Gpu.status_lines output)) as [|n ns];
    [congruence|].
  split; [reflexivity | discriminate].
Qed.

Example legacy_parseGPUStatus_empty_output :
  GpuLegacy.nodes (@GpuLegacy.parseGPUStatus SampleNumbers.doubles 0 "") = [].
Proof. reflexivity. Qed.

Example parseGPUStatus_one_line :
  map (@Gpu.gpuStatus SampleNumbers.doubles)
      (Gpu.nodes
         (@Gpu.parseGPUStatus SampleNumbers.doubles 0
            "aurora-g1: [GPU] [3/8] [#][#][#][-][-][-][-][-] [CPU] 64/96 [MEM] 256/418.75 GiB"))
  = [["#"; "#"; "#"; "-"; "-"; "-"; "-"; "-"]].
Proof. reflexivity. Qed.

(** ** The matcher *)

Lemma run_rest_length (r : list Regex.Item) :
  forall s cur caps c rest,
    Regex.run r s cur caps = Some (c, rest) ->
    String.length rest <= String.length s.
Proof.
  induction r as [|it r IH]; intros s cur caps c rest E.
  - simpl in E. injection E as _ <-. lia.
  - destruct it as [p | p lazy | |]; cbn [Regex.run] in E.
    + destruct s as [|a s]; [discriminate|].
      destruct (p a); [|discriminate].
      apply IH in E. simpl. lia.
    + revert cur E. induction s as [|a s IHs]; intros cur E.
      * destruct lazy.
        -- destruct (Regex.run r "" cur caps) as [[c0 rest0]|] eqn:R;
             [|discriminate].
           injection E as <- <-. now apply IH in R.
        -- now apply IH in E.
      * destruct lazy.
        -- destruct (Regex.run r (String a s) cur caps) as [[c0 rest0]|] eqn:R.
           ++ injection E as <- <-. now apply IH in R.
           ++ destruct (p a); [|discriminate].
              apply IHs in E. simpl. lia.
        -- destruct (p a).
           ++ match type of E with
              | match ?m with _ => _ end = _ => destruct m as [[c0 rest0]|] eqn:R
              end.
              ** injection E as <- <-. apply IHs in R. simpl. lia.
              ** now apply IH in E.
           ++ now apply IH in E.
    + now apply IH in E.
    + now apply IH in E.
Qed.

Lemma run_consumes (p : ascii -> bool) (r : list Regex.Item) s cur caps c rest :
  Regex.run (Regex.Chr p :: r) s cur caps = Some (c, rest) ->
  String.length rest < String.length s.
Proof.
  cbn [Regex.run]. destruct s as [|a s]; [discriminate|].
  destruct (p a); [|discriminate].
  intros E. apply run_rest_length in E. simpl. lia.
Qed.

Lemma search_consumes (p : ascii -> bool) (r : list Regex.Item) s c rest :
  Regex.search (Regex.Chr p :: r) s = Some (c, rest) ->
  String.length rest < String.length s.
Proof.
  induction s as [|a s IH]; cbn [Regex.search].
  - destruct (Regex.run _ _ _ _) as [[c0 rest0]|] eqn:R; [|discriminate].
    intros [= <- <-]. now apply run_consumes in R.
  - destruct (Regex.run _ _ _ _) as [[c0 rest0]|] eqn:R.
    + intros [= <- <-]. now apply run_consumes in R.
    + intros E. apply IH in E. simpl. lia.
Qed.

(** For a pattern that starts with a character, [matchAll] does not
    depend on the fuel beyond the length of the text. *)
Lemma matchAll_fuel_enough (p : ascii -> bool) (r : list Regex.Item) :
  forall fuel s,
    String.length s < fuel ->
    Regex.matchAll_fuel fuel (Regex.Chr p :: r) s =
    Regex.matchAll (Regex.Chr p :: r) s.
Proof.
  unfold Regex.matchAll.
  assert (G : forall n fuel1 fuel2 s,
             String.length s < fuel1 -> String.length s < fuel2 ->
             String.length s <= n ->
             Regex.matchAll_fuel fuel1 (Regex.Chr p :: r) s =
             Regex.matchAll_fuel fuel2 (Regex.Chr p :: r) s).
  { induction n as [|n IH]; intros fuel1 fuel2 s H1 H2 Hn;
      destruct fuel1 as [|f1]; destruct fuel2 as [|f2]; try lia;
      cbn [Regex.matchAll_fuel];
      destruct (Regex.search (Regex.Chr p :: r) s) as [[c rest]|] eqn:E;
      try reflexivity;
      apply search_consumes in E.
    - lia.
    - f_equal. apply IH; lia. }
  intros fuel s Hf. apply (G (String.length s)); lia.
Qed.

(** ** Checks of the string functions against the JavaScript ones *)

Example trim_checks :
  Js.trim "  a b  " = "a b" /\ Js.trim "   " = "" /\
  Js.trim (Js.nl ++ "x" ++ Js.nl) = "x".
Proof. repeat split. Qed.

Example split_checks :
  Js.split "," "a,b,," = ["a"; "b"; ""; ""] /\ Js.split "," "" = [""] /\
  Js.split_spaces "a  b c" = ["a"; "b"; "c"] /\
  Js.split_spaces " a " = [""; "a"; ""].
Proof. repeat split. Qed.

Example nodeMatch_check :
  Regex.match_start (@Gpu.node_pattern)
    "aurora-g1: [GPU] [8/8] [#][#][#][#][#][#][#][#] [CPU] 64/96 [MEM] 256/418.75 GiB"
  = Some ["aurora-g1"; "8"; "8"; "[#][#][#][#][#][#][#][#]"; "64"; "96";
          "256"; "418.75"].
Proof. reflexivity. Qed.

(** A status query without rows gives an empty job list. *)
Example parseJobQueue_no_rows :
  @Job.parseJobQueue 0 "" = [] /\ @Job.parseJobQueue 0 Js.nl = [].
Proof. split; reflexivity. Qed.

Example parseJobQueue_one_row :
  @Job.parseJobQueue 7
    "      4242  train  RUNNING  gpu_ugrad  0:10  1-00:00:00  1  N/A  N/A  aurora-g1"
  = [Job.mkJobInfo "4242" "train" "RUNNING" "aurora-g1" 7 "gpu_ugrad"
                   "1-00:00:00"].
Proof. reflexivity. Qed.

(** * Part III: further properties of the code *)

(** ** [syncFiles]: what happens around the transfers *)

Section SyncFilesExtras.
Import FileSync Prog SyncObs.
Context {L : NodeLib} {W : Type} {H : Host W}.

(** X1. A call that does not pass the three checks at the top of
    [syncFiles] throws the error of the first failed check and does
    nothing else: no message is shown, the channel is neither opened nor
    closed, the state of the world is untouched. *)
Theorem syncFiles_turned_down (s : Session) (direction : SyncDirection)
    (options : option PartialOptions) (w : W) :
  (isConnected s = false ->
   syncFiles s direction options w =
   (inl "Error: Not connected to server", w, [])) /\
  (isConnected s = true -> workspaceFolder s = None ->
   syncFiles s direction options w =
   (inl "Error: No workspace folder found", w, [])) /\
  (isConnected s = true -> workspaceFolder s <> None ->
   Js.truthy (cfg_remotePath s) = false ->
   syncFiles s direction options w =
   (inl "Error: Remote path not configured", w, [])).
Proof.
  unfold syncFiles. repeat split.
  - intros ->. reflexivity.
  - intros -> ->. reflexivity.
  - intros -> Hw Hr. destruct (workspaceFolder s); [|congruence].
    destruct (cfg_remotePath s) as [[|c r]|]; try reflexivity. discriminate.
Qed.

Lemma TransferTrace_events localPath remotePath n i actions r t :
  TransferTrace localPath remotePath n i actions r t ->
  forall ev, In ev t ->
    is_progress ev || is_dir_event ev || is_transfer ev = true.
Proof.
  assert (D : forall prep ev, forallb is_dir_event prep = true -> In ev prep ->
                is_progress ev || is_dir_event ev || is_transfer ev = true).
  { intros prep ev Hp I. rewrite forallb_forall in Hp. rewrite (Hp ev I).
    now rewrite orb_true_r. }
  assert (T : forall a err,
             is_progress (transfer_event localPath remotePath a err)
             || is_dir_event (transfer_event localPath remotePath a err)
             || is_transfer (transfer_event localPath remotePath a err) = true).
  { intros a err. rewrite is_transfer_transfer_event. apply orb_true_r. }
  induction 1 as [i | i a actions prep r t Hp TT IH
                  | i a actions prep e Hp | i a actions prep e Hp];
    intros ev I.
  - destruct I.
  - destruct I as [<-|I]; [reflexivity|].
    apply in_app_or in I. destruct I as [I|[<-|I]]; eauto.
  - destruct I as [<-|I]; [reflexivity|].
    apply in_app_or in I. destruct I as [I|[<-|[]]]; eauto.
  - destruct I as [<-|I]; [reflexivity|]. eauto.
Qed.

(** The calls of a mode are progress events, directory creations and
    transfers. *)
Lemma run_direction_events (direction : SyncDirection)
    (localPath remotePath : string) (options : SyncOptions) (w : W) :
  forall ev,
    In ev (snd (run_direction direction localPath remotePath options w)) ->
    is_progress ev || is_dir_event ev || is_transfer ev = true.
Proof.
  destruct (run_direction_trace direction localPath remotePath options w)
    as (prefix & T & Hp & -> & TT).
  intros ev I. apply in_app_or in I. destruct I as [I|I].
  - rewrite forallb_forall in Hp. rewrite (Hp ev I). now rewrite orb_true_r.
  - exact (TransferTrace_events _ _ _ _ _ _ _ TT ev I).
Qed.

(** X2. A call that passes the checks ends with exactly one message and
    then the closing of the channel, whatever happened in between.  The
    message reports success exactly when opening the channel and the
    function of the mode both returned; otherwise it carries the error
    of the one that threw, and the mode is not run when the channel did
    not open.  The call returns what they returned, unless closing the
    channel throws: then it throws that error. *)
Theorem syncFiles_message_then_close (s : Session)
    (direction : SyncDirection) (options : option PartialOptions) (w : W)
    (localPath remotePath : string) :
  isConnected s = true ->
  workspaceFolder s = Some localPath ->
  cfg_remotePath s = Some remotePath ->
  remotePath <> "" ->
  let syncOptions := syncOptions_of direction options in
  let connected := connectSFTP s w in
  let mode :=
    match direction with
    | LocalToRemote => uploadFiles localPath remotePath syncOptions
    | RemoteToLocal => downloadFiles remotePath localPath syncOptions
    | Both => bidirectionalSync localPath remotePath syncOptions
    end (snd (fst connected)) in
  let r :=
    match fst (fst connected) with
    | inl e => inl e
    | inr _ => fst (fst mode)
    end in
  let t :=
    snd connected ++
    match fst (fst connected) with
    | inl _ => []
    | inr _ => snd mode
    end in
  let last :=
    match fst (fst connected) with
    | inl _ => snd (fst connected)
    | inr _ => snd (fst mode)
    end in
  snd (syncFiles s direction options w) =
  t ++ [match r with
        | inr _ =>
            ShowInformationMessage
              "File synchronization completed successfully"
        | inl e => ShowErrorMessage ("Sync failed: " ++ e)
        end;
        SftpEnd (fst (sftp_end last))] /\
  (forall ev, In ev t -> is_message ev = false /\ is_end ev = false) /\
  fst (fst (syncFiles s direction options w)) =
  match fst (sftp_end last) with
  | Some e => inl e
  | None => r
  end.
Proof.
  intros Hc Ew Er Hr. cbv zeta.
  assert (NC : forall l, forallb is_connect l = true ->
               forall ev, In ev l -> is_message ev = false /\ is_end ev = false).
  { intros l Hl ev I. rewrite forallb_forall in Hl. specialize (Hl ev I).
    destruct ev; simpl in *; try discriminate; now split. }
  destruct remotePath as [|c0 r0]; [congruence|].
  rewrite (syncFiles_run_eq s direction options w localPath c0 r0 Hc Ew Er).
  pose proof (connectSFTP_trace s w) as Hcn. cbv zeta.
  change (match direction with
          | LocalToRemote =>
              uploadFiles localPath (String c0 r0)
                          (syncOptions_of direction options)
          | RemoteToLocal =>
              downloadFiles (String c0 r0) localPath
                            (syncOptions_of direction options)
          | Both =>
              bidirectionalSync localPath (String c0 r0)
                                (syncOptions_of direction options)
          end)
    with (run_direction direction localPath (String c0 r0)
                        (syncOptions_of direction options)).
  destruct (connectSFTP s w) as [[[e|[]] w1] tc]; cbn [fst snd] in *.
  - rewrite app_nil_r. repeat split.
    + now apply (NC tc Hcn).
    + now apply (NC tc Hcn).
    + now destruct (fst (sftp_end w1)).
  - set (mode := run_direction direction localPath (String c0 r0)
                   (syncOptions_of direction options) w1).
    split; [|split].
    + rewrite <- app_assoc. unfold final_message.
      now destruct (fst (fst mode)) as [e|[]].
    + intros ev I. apply in_app_or in I. destruct I as [I|I].
      * now apply (NC _ Hcn).
      * apply run_direction_events in I.
        destruct ev; simpl in *; try discriminate; now split.
    + reflexivity.
Qed.

Lemma run_direction_nothing_to_do (direction : SyncDirection)
    (localPath remotePath : string) (options : SyncOptions) (w : W) :
  transfer_list direction localPath remotePath options w = [] ->
  fst (fst (run_direction direction localPath remotePath options w)) = inr tt /\
  forallb is_dir_event
    (snd (run_direction direction localPath remotePath options w)) = true.
Proof.
  intros E.
  destruct (run_direction_trace direction localPath remotePath options w)
    as (prefix & T & Hp & Et & TT).
  cbv zeta in TT. rewrite E in TT. inversion TT; subst.
  split; [congruence|]. rewrite Et. now rewrite app_nil_r.
Qed.

(** X3. When the mode finds nothing to transfer, the run still ends
    with the success message: no progress event, no transfer, and the
    call succeeds unless closing the channel fails. *)
Theorem syncFiles_nothing_to_transfer (s : Session)
    (direction : SyncDirection) (options : option PartialOptions) (w : W)
    (localPath remotePath : string) :
  isConnected s = true ->
  workspaceFolder s = Some localPath ->
  cfg_remotePath s = Some remotePath ->
  remotePath <> "" ->
  fst (fst (connectSFTP s w)) = inr tt ->
  transfer_list direction localPath remotePath
    (syncOptions_of direction options) (snd (fst (connectSFTP s w))) = [] ->
  exists dirs o,
    forallb is_dir_event dirs = true /\
    snd (syncFiles s direction options w) =
    snd (connectSFTP s w) ++ dirs ++
    [ShowInformationMessage "File synchronization completed successfully";
     SftpEnd o] /\
    fst (fst (syncFiles s direction options w)) =
    match o with
    | Some e => inl e
    | None => inr tt
    end.
Proof.
  intros Hc Ew Er Hne Ec En.
  destruct remotePath as [|c0 r0]; [congruence|].
  rewrite (syncFiles_run_eq s direction options w localPath c0 r0 Hc Ew Er).
  cbv zeta. rewrite Ec.
  destruct (run_direction_nothing_to_do direction localPath (String c0 r0)
              (syncOptions_of direction options)
              (snd (fst (connectSFTP s w))) En) as [R D].
  rewrite R. cbn [final_message].
  eexists _, _. split; [exact D|]. split; reflexivity.
Qed.

(** X4. A remote directory that cannot be listed is taken for an empty
    one: download-only mode then transfers nothing and the run ends with
    the success message, not with an error. *)
Theorem download_of_unlistable_directory (s : Session)
    (options : option PartialOptions) (w : W)
    (localPath remotePath : string) :
  isConnected s = true ->
  workspaceFolder s = Some localPath ->
  cfg_remotePath s = Some remotePath ->
  remotePath <> "" ->
  fst (fst (connectSFTP s w)) = inr tt ->
  sftp_list remotePath (snd (fst (connectSFTP s w))) = None ->
  exists o,
    snd (syncFiles s RemoteToLocal options w) =
    snd (connectSFTP s w) ++
    [ShowInformationMessage "File synchronization completed successfully";
     SftpEnd o] /\
    fst (fst (syncFiles s RemoteToLocal options w)) =
    match o with
    | Some e => inl e
    | None => inr tt
    end.
Proof.
  intros Hc Ew Er Hne Ec El.
  destruct remotePath as [|c0 r0]; [congruence|].
  rewrite (syncFiles_run_eq s RemoteToLocal options w localPath c0 r0 Hc Ew Er).
  cbv zeta. rewrite Ec. cbn [run_direction].
  rewrite downloadFiles_run. cbv zeta.
  rewrite remote_files_eq. unfold traverse. rewrite El.
  cbn [map for_of ret fst snd unit_of final_message app].
  eexists. split; reflexivity.
Qed.

Lemma put_file_succeeds (localPath remotePath f : string) (w : W) :
  (forall l r w0, fst (sftp_put l r w0) = None) ->
  fst (fst (put_file localPath remotePath f w)) = inr tt.
Proof.
  intros Hput. unfold put_file, bind. rewrite ensureRemoteDirectory_run.
  unfold call.
  match goal with |- context [sftp_put ?a ?b ?c] =>
    pose proof (Hput a b c) as E; destruct (sftp_put a b c) as [[e|] w1] end.
  - discriminate.
  - reflexivity.
Qed.

Lemma upload_loop_succeeds (localPath remotePath : string) (n : nat) :
  (forall l r w0, fst (sftp_put l r w0) = None) ->
  forall files c w0,
    unit_of (fst (fst (for_of files
      (fun file current =>
         bind (fire current n file)
              (fun _ => bind (put_file localPath remotePath file)
                             (fun _ => ret (current + 1))))
      c w0))) = inr tt.
Proof.
  intros Hput.
  assert (B : forall f c w0,
             exists w1 t,
               bind (fire c n f)
                    (fun _ => bind (put_file localPath remotePath f)
                                   (fun _ => ret (c + 1))) w0
               = (inr (c + 1), w1, t)).
  { intros f c w0. unfold bind, fire, emit, ret.
    pose proof (put_file_succeeds localPath remotePath f w0 Hput) as P.
    destruct (put_file localPath remotePath f w0) as [[[e|[]] w1] t1];
      cbn [fst] in P; [discriminate|].
    eexists _, _. reflexivity. }
  induction files as [|f files IH]; intros c w0.
  - reflexivity.
  - cbn [for_of]. unfold bind at 1.
    destruct (B f c w0) as (w1 & t & ->).
    specialize (IH (c + 1) w1).
    destruct (for_of files _ (c + 1) w1) as [[r w2] t2]. exact IH.
Qed.

(** X5. Creating remote directories cannot fail an upload: whatever
    [sftp.mkdir] answers (the directory exists already, or cannot be
    made), upload-only mode goes through as long as every [sftp.put]
    does. *)
Theorem uploadFiles_ignores_mkdir_errors (localPath remotePath : string)
    (options : SyncOptions) (w : W) :
  (forall l r w0, fst (sftp_put l r w0) = None) ->
  fst (fst (uploadFiles localPath remotePath options w)) = inr tt.
Proof.
  intros Hput. rewrite uploadFiles_run. cbv zeta. cbn [fst].
  apply upload_loop_succeeds. exact Hput.
Qed.

Lemma traverse_item_same_filters (d1 d2 : SyncDirection) (e : list string)
    (h b1 b2 : bool) (item : RemoteItem) :
  forall relativePath,
    traverse_item (mkOptions d1 e h b1) relativePath item =
    traverse_item (mkOptions d2 e h b2) relativePath item.
Proof.
  induction item as [name type mt | name type mt items IH]
    using RemoteItem_nested_ind; intros relativePath.
  - reflexivity.
  - cbn [traverse_item includeHidden excludePatterns].
    destruct (String.eqb type "d"); [|reflexivity].
    destruct (h || _); [|reflexivity].
    induction items as [|i items IHi]; [reflexivity|].
    inversion IH as [|? ? Hi Hrest]; subst.
    cbn [flat_map]. rewrite Hi. f_equal. now apply IHi.
Qed.

Lemma traverse_same_filters (d1 d2 : SyncDirection) (e : list string)
    (h b1 b2 : bool) (basePath : string) (w : W) :
  traverse (mkOptions d1 e h b1) basePath w =
  traverse (mkOptions d2 e h b2) basePath w.
Proof.
  unfold traverse. destruct (sftp_list basePath w) as [items|]; [|reflexivity].
  induction items as [|i items IH]; [reflexivity|].
  cbn [flat_map]. rewrite IH.
  now rewrite (traverse_item_same_filters d1 d2 e h b1 b2 i "").
Qed.

Lemma run_direction_same_filters (direction : SyncDirection)
    (localPath remotePath : string) (d1 d2 : SyncDirection)
    (e : list string) (h b1 b2 : bool) (w : W) :
  run_direction direction localPath remotePath (mkOptions d1 e h b1) w =
  run_direction direction localPath remotePath (mkOptions d2 e h b2) w.
Proof.
  destruct direction; cbn [run_direction].
  - reflexivity.
  - rewrite !downloadFiles_run. cbv zeta. rewrite !remote_files_eq.
    now rewrite (traverse_same_filters d1 d2 e h b1 b2 remotePath w).
  - rewrite !bidirectionalSync_run. cbv zeta. rewrite !transfer_list_Both.
    assert (R : computed (getRemoteFilesWithStats remotePath
                            (mkOptions d1 e h b1)) w JsMap.empty =
                computed (getRemoteFilesWithStats remotePath
                            (mkOptions d2 e h b2)) w JsMap.empty).
    { unfold computed, getRemoteFilesWithStats, read.
      now rewrite (traverse_same_filters d1 d2 e h b1 b2 remotePath w). }
    rewrite R. reflexivity.
Qed.

(** X6. The option [deleteExtraFiles] has no effect in any mode: the
    run with the flag set is the run without it, call for call. The
    engine has no call that removes a file. *)
Theorem syncFiles_ignores_deleteExtraFiles (s : Session)
    (direction : SyncDirection) (patterns : option (list string))
    (hidden : option bool) (flag : option bool) (w : W) :
  syncFiles s direction (Some (mkPartial patterns hidden flag)) w =
  syncFiles s direction (Some (mkPartial patterns hidden None)) w.
Proof.
  destruct (isConnected s) eqn:Hc;
    [|unfold syncFiles; rewrite Hc; reflexivity].
  destruct (workspaceFolder s) as [localPath|] eqn:Ew;
    [|unfold syncFiles; rewrite Hc, Ew; reflexivity].
  destruct (cfg_remotePath s) as [[|c0 r0]|] eqn:Er;
    try (unfold syncFiles; rewrite Hc, Ew, Er; reflexivity).
  rewrite !(syncFiles_run_eq s direction _ w localPath c0 r0 Hc Ew Er).
  cbv zeta. unfold syncOptions_of.
  destruct (fst (fst (connectSFTP s w))); [reflexivity|].
  rewrite (run_direction_same_filters direction localPath (String c0 r0)
             direction direction _ _
             match flag with Some b => b | None => false end false).
  reflexivity.
Qed.

End SyncFilesExtras.

(** ** The maps of bidirectional sync *)

Lemma JsMap_set_NoDup {V : Type} (k : string) (v : V) (m : JsMap.t V) :
  NoDup (JsMap.keys m) -> NoDup (JsMap.keys (JsMap.set k v m)).
Proof.
  induction m as [|[k' v'] m IH]; intros ND; simpl.
  - repeat constructor. intros [].
  - inversion ND as [|? ? NI ND']; subst.
    destruct (String.eqb_spec k' k) as [->|NE]; simpl.
    + now constructor.
    + constructor; [|now apply IH].
      intros I. apply JsMap_keys_set in I. destruct I as [->|I]; congruence.
Qed.

Lemma JsMap_get_set_same {V : Type} (k : string) (v : V) (m : JsMap.t V) :
  JsMap.get (JsMap.set k v m) k = Some v.
Proof.
  induction m as [|[k' v'] m IH]; simpl.
  - now rewrite String.eqb_refl.
  - destruct (String.eqb_spec k' k) as [->|NE]; simpl.
    + now rewrite String.eqb_refl.
    + apply String.eqb_neq in NE. now rewrite NE.
Qed.

Lemma JsMap_get_set_other {V : Type} (k k' : string) (v : V) (m : JsMap.t V) :
  k' <> k -> JsMap.get (JsMap.set k v m) k' = JsMap.get m k'.
Proof.
  intros NE. induction m as [|[k0 v0] m IH]; simpl.
  - apply not_eq_sym in NE. apply String.eqb_neq in NE. now rewrite NE.
  - destruct (String.eqb_spec k0 k) as [->|NE0]; simpl.
    + apply not_eq_sym in NE. apply String.eqb_neq in NE. now rewrite NE.
    + destruct (String.eqb k0 k'); [reflexivity | exact IH].
Qed.

Lemma JsSet_fold_add_NoDup (l acc : list string) :
  NoDup (acc ++ l) -> fold_left JsSet.add l acc = acc ++ l.
Proof.
  revert acc. induction l as [|x l IH]; intros acc ND; simpl.
  - now rewrite app_nil_r.
  - assert (M : JsSet.mem x acc = false).
    { destruct (JsSet.mem x acc) eqn:M; [|reflexivity].
      apply JsSet_mem_In in M. apply NoDup_remove_2 in ND.
      exfalso. apply ND. apply in_or_app. now left. }
    unfold JsSet.add at 2. rewrite M. rewrite IH.
    + now rewrite <- app_assoc.
    + now rewrite <- app_assoc.
Qed.

Lemma JsSet_of_list_NoDup_id (l : list string) :
  NoDup l -> JsSet.of_list l = l.
Proof. intros ND. unfold JsSet.of_list. now rewrite JsSet_fold_add_NoDup. Qed.

Lemma NoDup_files_flat_map localFiles remoteFiles (l : list string) :
  NoDup l ->
  NoDup (map FileSync.file
             (flat_map (FileSync.decide localFiles remoteFiles) l)).
Proof.
  induction l as [|x l IH]; intros ND; simpl; [constructor|].
  inversion ND as [|? ? NI ND']; subst.
  rewrite map_app. apply NoDup_app.
  - unfold FileSync.decide.
    destruct (JsMap.get localFiles x), (JsMap.get remoteFiles x); simpl;
      repeat match goal with |- context [if ?c then _ else _] => destruct c end;
      simpl; repeat constructor; auto.
  - now apply IH.
  - intros f I1 I2. apply in_map_iff in I1. destruct I1 as (a & <- & Ia).
    apply decide_file in Ia. rewrite Ia in I2.
    apply in_map_iff in I2. destruct I2 as (b & Eb & Ib).
    apply in_flat_map in Ib. destruct Ib as (y & Iy & Ib).
    apply decide_file in Ib. congruence.
Qed.

(** X7. Bidirectional sync never plans two actions for the same path, and
    plans actions only for paths of one of the two maps: there are at most
    as many actions as distinct paths. *)
Theorem calculateSyncActions_one_action_per_path
    (localFiles : JsMap.t FileSync.Stats)
    (remoteFiles : JsMap.t FileSync.RemoteItem) :
  let actions := FileSync.calculateSyncActions localFiles remoteFiles in
  NoDup (map FileSync.file actions) /\
  (forall a, In a actions ->
             In (FileSync.file a)
                (JsMap.keys localFiles ++ JsMap.keys remoteFiles)) /\
  length actions <=
  length (JsSet.of_list (JsMap.keys localFiles ++ JsMap.keys remoteFiles)).
Proof.
  cbv zeta. rewrite calculateSyncActions_flat_map.
  set (all := JsSet.of_list _).
  assert (ND : NoDup all) by apply JsSet_of_list_NoDup.
  split; [now apply NoDup_files_flat_map|]. split.
  - intros a I. apply in_flat_map in I. destruct I as (f & If & Ia).
    apply decide_file in Ia. subst f.
    now apply (proj1 (JsSet_of_list_In _ _)) in If.
  - clear ND. induction all as [|x all IH]; simpl; [lia|].
    rewrite length_app.
    assert (length (FileSync.decide localFiles remoteFiles x) <= 1).
    { unfold FileSync.decide.
      destruct (JsMap.get localFiles x), (JsMap.get remoteFiles x); simpl;
        repeat match goal with |- context [if ?c then _ else _] => destruct c end;
        simpl; lia. }
    lia.
Qed.

Section StatsMaps.
Import FileSync Prog.
Context {L : NodeLib} {W : Type} {H : Host W}.

Lemma fold_stat_keys (localPath : string) (w : W) (f : string) :
  forall l acc,
    In f (JsMap.keys
            (fold_left
               (fun files file =>
                  match fs_statSync (path_join localPath file) w with
                  | Some stats => JsMap.set file stats files
                  | None => files
                  end) l acc)) <->
    In f (JsMap.keys acc) \/
    (In f l /\ fs_statSync (path_join localPath f) w <> None).
Proof.
  induction l as [|x l IH]; intros acc; cbn [fold_left].
  - simpl. tauto.
  - rewrite IH. destruct (fs_statSync (path_join localPath x) w) eqn:E.
    + rewrite JsMap_keys_set. simpl. split.
      * intros [[->|I]|[I S]]; auto. right. split; [now left | congruence].
      * intros [I|[[->|I] S]]; auto.
    + simpl. split.
      * intros [I|[I S]]; auto.
      * intros [I|[[->|I] S]]; auto. congruence.
Qed.

Lemma fold_stat_NoDup (localPath : string) (w : W) :
  forall l acc,
    NoDup (JsMap.keys acc) ->
    NoDup (JsMap.keys
             (fold_left
                (fun files file =>
                   match fs_statSync (path_join localPath file) w with
                   | Some stats => JsMap.set file stats files
                   | None => files
                   end) l acc)).
Proof.
  induction l as [|x l IH]; intros acc ND; cbn [fold_left]; [exact ND|].
  apply IH. destruct (fs_statSync _ w); [now apply JsMap_set_NoDup | exact ND].
Qed.

(** The keys of the local map: the enumerated files whose [statSync]
    goes through, each once. *)
Lemma local_stats_keys_iff (localPath : string) (options : SyncOptions)
    (w : W) (f : string) :
  In f (JsMap.keys
          (computed (getLocalFilesWithStats localPath options) w JsMap.empty))
  <->
  In f (computed (getLocalFiles localPath options) w []) /\
  fs_statSync (path_join localPath f) w <> None.
Proof.
  unfold computed at 1, getLocalFilesWithStats, bind.
  rewrite getLocalFiles_run. unfold read. cbn [app]. rewrite local_files_eq.
  rewrite fold_stat_keys. unfold JsMap.empty. cbn [JsMap.keys map In].
  tauto.
Qed.

Lemma local_stats_keys_NoDup (localPath : string) (options : SyncOptions)
    (w : W) :
  NoDup (JsMap.keys
           (computed (getLocalFilesWithStats localPath options) w JsMap.empty)).
Proof.
  unfold computed, getLocalFilesWithStats, bind.
  rewrite getLocalFiles_run. unfold read. cbn [app].
  apply fold_stat_NoDup. constructor.
Qed.

Lemma remote_stats_keys_iff (remotePath : string) (options : SyncOptions)
    (w : W) (f : string) :
  In f (JsMap.keys
          (computed (getRemoteFilesWithStats remotePath options) w JsMap.empty))
  <-> In f (computed (getRemoteFiles remotePath options) w []).
Proof.
  split; [apply remote_stats_keys|].
  rewrite remote_files_eq.
  unfold computed, getRemoteFilesWithStats, read.
  set (l := traverse options remotePath w). clearbody l.
  assert (G : forall l acc,
             In f (JsMap.keys acc) \/ In f (map fst l) ->
             In f (JsMap.keys
                     (fold_left
                        (fun files (e : string * RemoteItem) =>
                           JsMap.set (fst e) (snd e) files) l acc))).
  { clear l. induction l as [|x l IH]; intros acc I; simpl in *; [tauto|].
    apply IH. rewrite JsMap_keys_set.
    destruct I as [I|[I|I]]; auto. }
  intros I. apply G. now right.
Qed.

(** X8. A local file whose [statSync] throws is left out of the local
    map. If the same path is listed remotely, bidirectional sync takes it
    for a file that exists on the server only and downloads it over the
    local one. *)
Theorem unreadable_local_file_is_downloaded (localPath remotePath : string)
    (options : SyncOptions) (w : W) (f : string) :
  fs_statSync (path_join localPath f) w = None ->
  In f (computed (getRemoteFiles remotePath options) w []) ->
  actions_for f (transfer_list Both localPath remotePath options w) =
  [mkAction download f].
Proof.
  intros S R. rewrite transfer_list_Both, actions_for_calculate.
  unfold decide.
  set (lm := computed (getLocalFilesWithStats localPath options) w JsMap.empty).
  set (rm := computed (getRemoteFilesWithStats remotePath options) w JsMap.empty).
  assert (NL : JsMap.get lm f = None).
  { apply JsMap_get_None_keys. intros I.
    apply local_stats_keys_iff in I. destruct I as [_ N]. congruence. }
  apply remote_stats_keys_iff in R. fold rm in R.
  destruct (JsMap_In_keys_get _ _ R) as [v E].
  now rewrite NL, E.
Qed.

Lemma JsMap_keys_set_add {V : Type} (k : string) (v : V) (m : JsMap.t V) :
  JsMap.keys (JsMap.set k v m) = JsSet.add (JsMap.keys m) k.
Proof.
  unfold JsSet.add, JsSet.mem, JsMap.keys.
  induction m as [|[k' v'] m IH]; [reflexivity|].
  cbn [JsMap.set map fst existsb].
  rewrite (String.eqb_sym k k').
  destruct (String.eqb_spec k' k) as [->|NE]; cbn [orb map fst].
  - reflexivity.
  - rewrite IH. now destruct (existsb (String.eqb k) (map fst m)).
Qed.

Lemma fold_stat_keys_eq (localPath : string) (w : W) :
  forall l acc,
    JsMap.keys
      (fold_left
         (fun files file =>
            match fs_statSync (path_join localPath file) w with
            | Some stats => JsMap.set file stats files
            | None => files
            end) l acc) =
    fold_left JsSet.add
      (filter (fun file =>
                 match fs_statSync (path_join localPath file) w with
                 | Some _ => true
                 | None => false
                 end) l)
      (JsMap.keys acc).
Proof.
  induction l as [|x l IH]; intros acc; cbn [fold_left filter];
    [reflexivity|].
  rewrite IH. destruct (fs_statSync (path_join localPath x) w);
    cbn [fold_left]; [now rewrite JsMap_keys_set_add | reflexivity].
Qed.

(** X9. When the remote directory cannot be listed, bidirectional sync
    plans an upload for every file that glob enumerates locally, that no
    pattern excludes and that [statSync] can read, in the order of the
    enumeration and each file once, and nothing else; a run that ends
    without exception puts exactly these files. *)
Theorem bidirectional_with_unlistable_remote (localPath remotePath : string)
    (options : SyncOptions) (w : W) :
  sftp_list remotePath w = None ->
  let pattern := if includeHidden options then "**/*" else "**/!(.*)*" in
  let kept file :=
    negb (existsb (minimatch file) (excludePatterns options)) in
  let readable file :=
    match fs_statSync (path_join localPath file) w with
    | Some _ => true
    | None => false
    end in
  let files :=
    JsSet.of_list
      (filter readable
         (filter kept
            (glob_sync pattern localPath (includeHidden options) w))) in
  transfer_list Both localPath remotePath options w =
  map (mkAction upload) files /\
  (fst (fst (bidirectionalSync localPath remotePath options w)) = inr tt ->
   transfers (snd (bidirectionalSync localPath remotePath options w)) =
   map (fun file =>
          SftpPut (path_join localPath file)
                  (posix_join remotePath (Js.replace_all "\" "/" file))
                  None)
       files).
Proof.
  intros E pattern kept readable files.
  assert (P : transfer_list Both localPath remotePath options w =
              map (mkAction upload) files).
  { rewrite transfer_list_Both.
    set (lm := computed (getLocalFilesWithStats localPath options) w
                        JsMap.empty).
    assert (K : JsMap.keys lm = files).
    { unfold lm, computed, getLocalFilesWithStats, bind.
      rewrite getLocalFiles_run. unfold read. cbn [app].
      rewrite fold_stat_keys_eq. reflexivity. }
    assert (R : computed (getRemoteFilesWithStats remotePath options) w
                  JsMap.empty = []).
    { unfold computed, getRemoteFilesWithStats, read, traverse.
      now rewrite E. }
    rewrite R. rewrite calculateSyncActions_flat_map.
    cbn [JsMap.keys map]. rewrite app_nil_r.
    rewrite JsSet_of_list_NoDup_id by apply local_stats_keys_NoDup.
    fold lm. rewrite <- K.
    assert (G : forall l, (forall x, In x l -> In x (JsMap.keys lm)) ->
                flat_map (decide lm []) l = map (mkAction upload) l).
    { induction l as [|x l IH]; intros Hl; [reflexivity|].
      cbn [flat_map map]. rewrite IH by (intros y I; apply Hl; now right).
      unfold decide. cbn [JsMap.get].
      destruct (JsMap_In_keys_get lm x (Hl x (or_introl eq_refl))) as [v ->].
      reflexivity. }
    apply G. auto. }
  split; [exact P|].
  intros R.
  destruct (run_direction_trace Both localPath remotePath options w)
    as (prefix & T & Hp & Et & TT).
  cbn [run_direction] in Et, TT. cbv zeta in TT. rewrite R in TT.
  rewrite Et. unfold transfers. rewrite filter_app.
  fold (transfers prefix). rewrite (transfers_dir_events prefix Hp).
  cbn [app]. fold (transfers T).
  rewrite (TransferTrace_success _ _ _ _ _ _ TT), P, map_map.
  reflexivity.
Qed.

End StatsMaps.

(** ** Trimming and splitting *)

Lemma trimStart_head (s : string) :
  Js.trimStart s = "" \/
  exists c r, Js.trimStart s = String c r /\ Js.is_space c = false.
Proof.
  induction s as [|c s IH]; simpl; [now left|].
  destruct (Js.is_space c) eqn:E; [exact IH|]. right. now exists c, s.
Qed.

Lemma trimStart_fixed (c : ascii) (r : string) :
  Js.is_space c = false -> Js.trimStart (String c r) = String c r.
Proof. intros E. simpl. now rewrite E. Qed.

Lemma trimEnd_cons (c : ascii) (s : string) :
  Js.trimEnd (String c s) =
  match Js.trimEnd s with
  | EmptyString => if Js.is_space c then EmptyString else String c EmptyString
  | r => String c r
  end.
Proof. reflexivity. Qed.

Lemma trimEnd_idempotent (s : string) : Js.trimEnd (Js.trimEnd s) = Js.trimEnd s.
Proof.
  induction s as [|c s IH]; [reflexivity|].
  rewrite trimEnd_cons. destruct (Js.trimEnd s) as [|a r] eqn:E.
  - destruct (Js.is_space c) eqn:Es; [reflexivity|].
    rewrite trimEnd_cons. cbn [Js.trimEnd]. now rewrite Es.
  - rewrite trimEnd_cons. now rewrite IH.
Qed.

Lemma trimEnd_head (c : ascii) (r : string) :
  Js.is_space c = false -> exists r', Js.trimEnd (String c r) = String c r'.
Proof.
  intros E. rewrite trimEnd_cons. destruct (Js.trimEnd r).
  - rewrite E. now exists "".
  - eexists. reflexivity.
Qed.

Lemma trim_trimStart (s : string) : Js.trimStart (Js.trim s) = Js.trim s.
Proof.
  unfold Js.trim. destruct (trimStart_head s) as [->|(c & r & -> & E)].
  - reflexivity.
  - destruct (trimEnd_head c r E) as [r' ->]. now apply trimStart_fixed.
Qed.

Lemma trim_idempotent (s : string) : Js.trim (Js.trim s) = Js.trim s.
Proof.
  unfold Js.trim at 1. rewrite trim_trimStart. unfold Js.trim.
  apply trimEnd_idempotent.
Qed.

Lemma nonempty_true (s : string) : Js.nonempty s = true <-> s <> "".
Proof. destruct s; simpl; split; congruence. Qed.

Lemma lacks_trimStart (c : ascii) (s : string) :
  SyncUI.lacks c s = true -> SyncUI.lacks c (Js.trimStart s) = true.
Proof.
  induction s as [|a s IH]; intros Hl; [reflexivity|].
  cbn [Js.trimStart]. destruct (Js.is_space a); [|exact Hl].
  simpl in Hl. apply andb_prop in Hl. now apply IH.
Qed.

Lemma lacks_trimEnd (c : ascii) (s : string) :
  SyncUI.lacks c s = true -> SyncUI.lacks c (Js.trimEnd s) = true.
Proof.
  induction s as [|a s IH]; intros Hl; [reflexivity|].
  simpl in Hl. apply andb_prop in Hl. destruct Hl as [Ha Hs].
  rewrite trimEnd_cons. specialize (IH Hs).
  destruct (Js.trimEnd s) as [|b r].
  - destruct (Js.is_space a); [reflexivity|]. simpl. now rewrite Ha.
  - simpl. rewrite Ha. simpl in IH. exact IH.
Qed.

Lemma split_nonempty (c : ascii) (s : string) : Js.split c s <> [].
Proof.
  induction s as [|a s IH]; simpl; [discriminate|].
  destruct (Ascii.eqb a c); [discriminate|].
  destruct (Js.split c s); [congruence | discriminate].
Qed.

Lemma split_lacks (c : ascii) (s x : string) :
  In x (Js.split c s) -> SyncUI.lacks c x = true.
Proof.
  revert x. induction s as [|a s IH]; intros x; cbn [Js.split].
  - intros [<-|[]]. reflexivity.
  - destruct (Ascii.eqb a c) eqn:E.
    + intros [<-|I]; [reflexivity | now apply IH].
    + destruct (Js.split c s) as [|h t] eqn:S.
      * intros [<-|[]]. simpl. now rewrite E.
      * intros [<-|I].
        -- simpl. rewrite E. apply IH. now left.
        -- apply IH. now right.
Qed.

Lemma split_lacking_cons (c : ascii) (l rest : string) :
  SyncUI.lacks c l = true ->
  Js.split c (l ++ String c rest) = l :: Js.split c rest.
Proof.
  induction l as [|a l IH]; intros Hl.
  - cbn [append Js.split]. now rewrite Ascii.eqb_refl.
  - simpl in Hl. apply andb_prop in Hl. destruct Hl as [Ha Hl].
    cbn [append Js.split]. apply negb_true_iff in Ha. rewrite Ha.
    now rewrite (IH Hl).
Qed.

Lemma split_lacking (c : ascii) (l : string) :
  SyncUI.lacks c l = true -> Js.split c l = [l].
Proof.
  induction l as [|a l IH]; intros Hl; [reflexivity|].
  simpl in Hl. apply andb_prop in Hl. destruct Hl as [Ha Hl].
  cbn [Js.split]. apply negb_true_iff in Ha. rewrite Ha.
  now rewrite (IH Hl).
Qed.

Lemma map_trim_split_space (s : string) :
  map Js.trim (Js.split "," (String " " s)) = map Js.trim (Js.split "," s).
Proof.
  cbn [Js.split]. change (Ascii.eqb " " ",") with false. cbv iota.
  destruct (Js.split "," s) as [|h t] eqn:S.
  - exfalso. now apply (split_nonempty "," s).
  - reflexivity.
Qed.

Section SyncUIFacts.
Import FileSync Prog SyncUI.
Context {L : NodeLib} {W : Type} {H : Host W} {E : Editor W}.

(** X10. The exclusion patterns typed into the dialog: every pattern
    that reaches the engine is non-empty, has no white space around it
    and holds no comma; what lies between two commas and is blank is
    dropped. *)
Theorem parse_patterns_clean (text : string) :
  Forall (fun p => p <> "" /\ Js.trim p = p /\ lacks "," p = true)
         (parse_patterns text).
Proof.
  unfold parse_patterns. apply Forall_forall. intros p I.
  apply filter_In in I. destruct I as [I N].
  apply in_map_iff in I. destruct I as (x & <- & Ix).
  split; [now apply nonempty_true|]. split; [apply trim_idempotent|].
  unfold Js.trim. apply lacks_trimEnd, lacks_trimStart.
  exact (split_lacks "," text x Ix).
Qed.

(** X11. Patterns written one after the other, separated by a comma and
    a blank, come back as they were written. *)
Theorem parse_patterns_round_trip (patterns : list string) :
  Forall (fun p => p <> "" /\ Js.trim p = p /\ lacks "," p = true)
         patterns ->
  parse_patterns (String.concat ", " patterns) = patterns.
Proof.
  unfold parse_patterns.
  induction patterns as [|p ps IH]; intros Hall; [reflexivity|].
  inversion Hall as [|? ? (Hne & Ht & Hl) Hps]; subst.
  assert (Np : Js.nonempty p = true) by now apply nonempty_true.
  destruct ps as [|q ps].
  - cbn [String.concat]. rewrite (split_lacking "," p Hl).
    cbn [map filter]. now rewrite Ht, Np.
  - change (String.concat ", " (p :: q :: ps))
      with (p ++ String "," (String " " (String.concat ", " (q :: ps))))%string.
    rewrite (split_lacking_cons "," p _ Hl). cbn [map filter].
    rewrite Ht, Np. f_equal.
    rewrite map_trim_split_space. now apply IH.
Qed.

Lemma increments_with_reports (t : list FileSync.Event) :
  forall lastProgress,
    fold_right Z.add 0%Z (increments (with_reports lastProgress t)) =
    (last_percentage lastProgress t - lastProgress)%Z.
Proof.
  induction t as [|ev t IH]; intros lastProgress; cbn [with_reports].
  - simpl. lia.
  - destruct ev; cbn [increments last_percentage fold_right];
      rewrite ?IH; lia.
Qed.

Lemma engine_calls_with_reports (t : list FileSync.Event) :
  forall lastProgress, engine_calls (with_reports lastProgress t) = t.
Proof.
  unfold engine_calls.
  induction t as [|ev t IH]; intros lastProgress; [reflexivity|].
  destruct ev; cbn [with_reports flat_map app]; now rewrite IH.
Qed.

(** X12. The notification of [performSync]: the increments it is given
    add up to the percentage of the last progress event of the engine
    (to nothing when there is none), the calls of the engine are passed
    through unchanged, and the outcome is that of [syncFiles]. *)
Theorem performSync_increments_add_up (s : Session)
    (direction : SyncDirection) (options : option PartialOptions) (w : W) :
  fold_right Z.add 0%Z (increments (snd (performSync s direction options w)))
  = last_percentage 0 (snd (syncFiles s direction options w)) /\
  engine_calls (snd (performSync s direction options w))
  = snd (syncFiles s direction options w) /\
  fst (performSync s direction options w)
  = fst (syncFiles s direction options w).
Proof.
  unfold performSync.
  destruct (syncFiles s direction options w) as [[r w'] t]. cbn [fst snd].
  rewrite increments_with_reports, engine_calls_with_reports.
  repeat split. lia.
Qed.

(** X13. Bidirectional sync from the command: without a connection only
    the error message is shown; with one, nothing at all happens unless
    the warning is answered with [Yes], and then the run is that of
    [performSync] in mode [Both]. *)
Theorem syncBothWays_needs_confirmation (s : Session) (w : W) :
  let question :=
    "Bidirectional sync will overwrite files based on modification time. Continue?" in
  (isConnected s = false ->
   syncBothWays s w =
   (inr tt, w, [ErrorMessage "Please connect to the server first"])) /\
  (isConnected s = true ->
   showWarningMessage question ["Yes"; "No"] w <> Some "Yes" ->
   syncBothWays s w = (inr tt, w, [])) /\
  (isConnected s = true ->
   showWarningMessage question ["Yes"; "No"] w = Some "Yes" ->
   syncBothWays s w = performSync s Both None w).
Proof.
  cbv zeta. unfold syncBothWays. repeat split.
  - intros ->. reflexivity.
  - intros -> N. cbn [negb]. unfold bind, read.
    destruct (showWarningMessage _ _ w) as [a|] eqn:A; [|reflexivity].
    destruct (string_dec a "Yes") as [->|NE]; [congruence|].
    destruct a as [|[[] [] [] [] [] [] [] []] a]; try reflexivity.
    all: destruct a as [|[[] [] [] [] [] [] [] []] a]; try reflexivity.
    all: destruct a as [|[[] [] [] [] [] [] [] []] a]; try reflexivity.
    all: destruct a; try reflexivity. all: congruence.
  - intros -> A. cbn [negb]. unfold bind, read. rewrite A.
    destruct (performSync s Both None w) as [[[e|[]] w'] t]; reflexivity.
Qed.

End SyncUIFacts.

(** ** The job list *)

Section JobFacts.
Import Prog Job JobManager.
Context {W : Type} {H : Host W}.

Lemma executeCommand_cases (command : string) (st : State W) :
  (ssh_isConnected (world st) = false /\
   executeCommand command st = (inl "Error: Not connected to server", st, []))
  \/
  (ssh_isConnected (world st) = true /\
   exists w' res,
     ssh_execCommand command (world st) = (res, w') /\
     executeCommand command st =
     (res, mkState w' (runningJobs st), [ExecCommand command res])).
Proof.
  unfold executeCommand.
  destruct (ssh_isConnected (world st)); cbn [negb]; [right | left; auto].
  split; [reflexivity|].
  destruct (ssh_execCommand command (world st)) as [[e|r] w'];
    eexists _, _; split; reflexivity.
Qed.

(** The four ways [refreshJobs] can go. *)
Lemma refreshJobs_cases (st : State W) :
  refreshJobs st = (inr tt, st, []) \/
  (exists command e w',
      ssh_execCommand command (world st) = (inl e, w') /\
      refreshJobs st =
      (inr tt, mkState w' (runningJobs st), [ExecCommand command (inl e)])) \/
  (exists command result w',
      ssh_execCommand command (world st) = (inr result, w') /\
      code result <> Some 0%Z /\
      refreshJobs st =
      (inr tt, mkState w' (runningJobs st),
       [ExecCommand command (inr result)])) \/
  (exists command result w',
      ssh_execCommand command (world st) = (inr result, w') /\
      code result = Some 0%Z /\
      refreshJobs st =
      (inr tt, mkState w' (parseJobQueue (Date_now w') (stdout result)),
       [ExecCommand command (inr result);
        JobStatusChanged (parseJobQueue (Date_now w') (stdout result))])).
Proof.
  unfold refreshJobs, try_catch, bind, read, ret, emit.
  destruct (ssh_isConnected (world st)) eqn:Hc; cbn [negb]; [|now left].
  destruct (cfg_username (world st)) as [[|u0 u]|]; [now left | | now left].
  destruct (executeCommand_cases (squeue_command (String u0 u)) st)
    as [[Hn _] | [_ (w' & res & Ex & ->)]]; [congruence|].
  destruct res as [e|result].
  - right. left. exists (squeue_command (String u0 u)), e, w'. now split.
  - destruct (code result) as [[| |]|] eqn:Ec.
    + right. right. right.
      exists (squeue_command (String u0 u)), result, w'. repeat split; auto.
    + right. right. left.
      exists (squeue_command (String u0 u)), result, w'.
      repeat split; auto. congruence.
    + right. right. left.
      exists (squeue_command (String u0 u)), result, w'.
      repeat split; auto. congruence.
    + right. right. left.
      exists (squeue_command (String u0 u)), result, w'.
      repeat split; auto. congruence.
Qed.

(** X14. [refreshJobs] never throws. It replaces the cached list only
    when the status query comes back with exit code 0, and then with the
    list parsed from its output, which is also the list handed to the
    listeners; in every other case (no connection, no user name, a query
    that throws or fails) the cached list stays as it was and no
    listener is called. *)
Theorem refreshJobs_replaces_or_keeps (st : State W) :
  fst (fst (refreshJobs st)) = inr tt /\
  ((runningJobs (snd (fst (refreshJobs st))) = runningJobs st /\
    forall jobs, ~ In (JobStatusChanged jobs) (snd (refreshJobs st)))
   \/
   (exists command result w',
      code result = Some 0%Z /\
      ssh_execCommand command (world st) = (inr result, w') /\
      let jobs := parseJobQueue (Date_now w') (stdout result) in
      snd (fst (refreshJobs st)) = mkState w' jobs /\
      snd (refreshJobs st) =
      [ExecCommand command (inr result); JobStatusChanged jobs])).
Proof.
  destruct (refreshJobs_cases st)
    as [-> | [(c & e & w' & _ & ->) | [(c & r & w' & _ & _ & ->)
                                      | (c & r & w' & Ex & Ec & ->)]]];
    cbn [fst snd runningJobs]; (split; [reflexivity|]).
  - left. split; [reflexivity|]. intros jobs [].
  - left. split; [reflexivity|]. intros jobs [D|[]]. discriminate.
  - left. split; [reflexivity|]. intros jobs [D|[]]. discriminate.
  - right. exists c, r, w'. repeat split; auto.
Qed.

Lemma refreshJobs_shows_nothing (st : State W) :
  fst (fst (refreshJobs st)) = inr tt /\
  filter is_shown (snd (refreshJobs st)) = [].
Proof.
  destruct (refreshJobs_cases st)
    as [-> | [(c & e & w' & _ & ->) | [(c & r & w' & _ & _ & ->)
                                      | (c & r & w' & Ex & Ec & ->)]]];
    split; reflexivity.
Qed.

(** X15. [cancelJob] never throws and always shows exactly one message.
    Without a connection the message is the caught error, no command is
    sent and nothing changes. *)
Theorem cancelJob_always_answers (jobId : string) (st : State W) :
  fst (fst (cancelJob jobId st)) = inr tt /\
  length (filter is_shown (snd (cancelJob jobId st))) = 1 /\
  (ssh_isConnected (world st) = false ->
   cancelJob jobId st =
   (inr tt, st,
    [ShowErrorMessage "Failed to cancel job: Error: Not connected to server"])).
Proof.
  unfold cancelJob, try_catch, bind, emit.
  destruct (executeCommand_cases ("scancel " ++ jobId) st)
    as [[Hn ->] | [Hc (w' & res & Ex & ->)]].
  - repeat split.
  - destruct res as [e|result].
    + cbn [app fst snd filter is_shown length]. repeat split. congruence.
    + destruct (code result) as [[| |]|] eqn:Ec.
      * destruct (refreshJobs_shows_nothing (mkState w' (runningJobs st)))
          as [R S].
        destruct (refreshJobs (mkState w' (runningJobs st)))
          as [[r st2] t]. cbn [fst snd] in *. subst r.
        cbn [app fst snd filter is_shown]. rewrite S.
        repeat split. congruence.
      * repeat split. congruence.
      * repeat split. congruence.
      * repeat split. congruence.
Qed.

End JobFacts.

(** ** Columns of the status query *)

Lemma split_spaces_no_space (s : string) :
  forall in_sep x,
    In x (Js.split_spaces_from in_sep s) -> JobManager.no_space x = true.
Proof.
  induction s as [|a s IH]; intros in_sep x; cbn [Js.split_spaces_from].
  - intros [<-|[]]. reflexivity.
  - destruct (Js.is_space a) eqn:E.
    + destruct in_sep.
      * apply IH.
      * intros [<-|I]; [reflexivity | exact (IH true x I)].
    + destruct (Js.split_spaces_from false s) as [|h t] eqn:S.
      * intros [<-|[]]. simpl. now rewrite E.
      * intros [<-|I].
        -- simpl. rewrite E. apply (IH false h). rewrite S. now left.
        -- apply (IH false x). rewrite S. now right.
Qed.

Lemma split_spaces_from_nonempty_list (s : string) (in_sep : bool) :
  Js.split_spaces_from in_sep s <> [].
Proof.
  revert in_sep. induction s as [|a s IH]; intros in_sep;
    cbn [Js.split_spaces_from]; [discriminate|].
  destruct (Js.is_space a).
  - destruct in_sep; [apply IH | discriminate].
  - destruct (Js.split_spaces_from false s); discriminate.
Qed.

Lemma trimEnd_fixed_cons (c : ascii) (s : string) :
  Js.trimEnd (String c s) = String c s ->
  (s = "" /\ Js.is_space c = false) \/ (s <> "" /\ Js.trimEnd s = s).
Proof.
  rewrite trimEnd_cons. destruct (Js.trimEnd s) as [|a r] eqn:E.
  - destruct (Js.is_space c); [discriminate|].
    intros [= <-]. now left.
  - intros [= <-]. right. split; [discriminate | reflexivity].
Qed.

(** In a text that does not end with white space, the only column that
    can be empty is the one before leading white space. *)
Lemma split_spaces_columns (s : string) :
  s <> "" -> Js.trimEnd s = s ->
  (forall x, In x (Js.split_spaces_from true s) -> x <> "") /\
  (forall x, In x (tl (Js.split_spaces_from false s)) -> x <> "") /\
  (forall c r, s = String c r -> Js.is_space c = false ->
               hd "" (Js.split_spaces_from false s) <> "").
Proof.
  induction s as [|a s IH]; intros Hne Ht; [congruence|].
  destruct (trimEnd_fixed_cons a s Ht) as [[-> Ha] | [Hs Hts]].
  - cbn [Js.split_spaces_from]. rewrite Ha. cbn [tl hd In].
    repeat split.
    + intros x [<-|[]]. discriminate.
    + intros x [].
    + intros. discriminate.
  - destruct (IH Hs Hts) as (A & B & C).
    cbn [Js.split_spaces_from]. destruct (Js.is_space a) eqn:Ea.
    + repeat split.
      * exact A.
      * cbn [tl]. exact A.
      * intros c r [= <- <-] Hc. congruence.
    + destruct (Js.split_spaces_from false s) as [|h t] eqn:S.
      * exfalso. now apply (split_spaces_from_nonempty_list s false).
      * cbn [tl hd] in *. repeat split.
        -- intros x [<-|I]; [discriminate | now apply B].
        -- exact B.
        -- intros. discriminate.
Qed.

Lemma trim_columns (line : string) :
  Js.nonempty (Js.trim line) = true ->
  forall x, In x (Js.split_spaces (Js.trim line)) ->
            x <> "" /\ JobManager.no_space x = true.
Proof.
  intros Hn x I. split; [|exact (split_spaces_no_space _ _ _ I)].
  apply nonempty_true in Hn.
  assert (Ht : Js.trimEnd (Js.trim line) = Js.trim line).
  { unfold Js.trim. apply trimEnd_idempotent. }
  destruct (split_spaces_columns _ Hn Ht) as (_ & B & C).
  assert (Hd : exists c r, Js.trim line = String c r /\ Js.is_space c = false).
  { pose proof (trim_trimStart line) as F.
    destruct (trimStart_head (Js.trim line)) as [Z|(c & r & Ec & Hc)].
    - rewrite F in Z. congruence.
    - rewrite F in Ec. now exists c, r. }
  destruct Hd as (c & r & Ec & Hc).
  unfold Js.split_spaces in I.
  destruct (Js.split_spaces_from false (Js.trim line)) as [|h t] eqn:S.
  - destruct I.
  - destruct I as [<-|I].
    + specialize (C c r Ec Hc). exact C.
    + apply B. exact I.
Qed.

(** X16. Every job that [parseJobQueue] returns has an id, a name, a
    status, a partition and a time limit that are non-empty and free of
    white space, and carries the time of the parse; a line with fewer than
    six columns gives no job, so there are at most as many jobs as
    lines. *)
Theorem parseJobQueue_fields (now : Z) (output : string) :
  (forall job, In job (@Job.parseJobQueue now output) ->
     Forall (fun field => field <> "" /\ JobManager.no_space field = true)
            [Job.jobId job; Job.job_name job; Job.status job;
             Job.job_partition job; Job.job_timeLimit job] /\
     JobManager.no_space (Job.job_gpuNode job) = true /\
     Job.submitTime job = now) /\
  length (@Job.parseJobQueue now output) <= length (Js.split Js.LF output).
Proof.
  unfold Job.parseJobQueue. cbv zeta. split.
  - intros job I. apply in_flat_map in I. destruct I as (line & Il & Ij).
    apply filter_In in Il. destruct Il as [_ Hn].
    pose proof (trim_columns line Hn) as Col.
    set (parts := Js.split_spaces (Js.trim line)) in *.
    destruct (Nat.leb_spec 6 (length parts)) as [Len|Len]; [|destruct Ij].
    destruct Ij as [<-|[]]. cbn [Job.jobId Job.job_name Job.status
      Job.job_partition Job.job_timeLimit Job.job_gpuNode Job.submitTime].
    unfold Job.nth_part.
    assert (P : forall i, i < length parts ->
                nth i parts "" <> "" /\ JobManager.no_space (nth i parts "") = true).
    { intros i Hi. apply Col. now apply nth_In. }
    split; [|split; [|reflexivity]].
    + repeat constructor; apply P; lia.
    + destruct (Nat.lt_ge_cases 9 (length parts)) as [Hi|Hi].
      * now apply P.
      * now rewrite nth_overflow.
  - set (lines := filter _ _).
    assert (length lines <= length (Js.split Js.LF output))
      by apply filter_length_le.
    assert (G : forall l, length (flat_map
               (fun line =>
                  if (6 <=? length (Js.split_spaces (Js.trim line)))%nat
                  then [Job.mkJobInfo
                          (Job.nth_part (Js.split_spaces (Js.trim line)) 0)
                          (Job.nth_part (Js.split_spaces (Js.trim line)) 1)
                          (Job.nth_part (Js.split_spaces (Js.trim line)) 2)
                          (Job.nth_part (Js.split_spaces (Js.trim line)) 9) now
                          (Job.nth_part (Js.split_spaces (Js.trim line)) 3)
                          (Job.nth_part (Js.split_spaces (Js.trim line)) 5)]
                  else []) l) <= length l).
    { induction l as [|x l IH]; cbn [flat_map]; [simpl; lia|].
      rewrite length_app. destruct (_ <=? _)%nat; simpl in *; lia. }
    specialize (G lines). lia.
Qed.

(** ** The number of a submitted job *)

Lemma append_nil_r (s : string) : (s ++ "")%string = s.
Proof. induction s; simpl; congruence. Qed.

Lemma append_assoc (a b c : string) : ((a ++ b) ++ c)%string = (a ++ b ++ c)%string.
Proof. induction a; simpl; congruence. Qed.

Lemma run_lit (s : string) (r : list Regex.Item) :
  forall input caps,
    Regex.run (Regex.lit s ++ r) input None caps =
    match Job.strip_prefix s input with
    | Some rest => Regex.run r rest None caps
    | None => None
    end.
Proof.
  induction s as [|a s IH]; intros input caps.
  - reflexivity.
  - unfold Regex.lit. cbn [list_ascii_of_string map app Regex.run Job.strip_prefix].
    destruct input as [|c input]; [reflexivity|].
    rewrite Ascii.eqb_sym. destruct (Ascii.eqb c a); [|reflexivity].
    apply IH.
Qed.

Lemma digits_then_close (s : string) :
  forall g, exists d rest,
    Regex.run [Regex.Star Regex.digit false; Regex.Close] s (Some g) [] =
    Some ([(g ++ d)%string], rest) /\
    s = (d ++ rest)%string /\ JobManager.all_digits d = true /\
    JobManager.next_is_no_digit rest = true.
Proof.
  induction s as [|a s IH]; intros g.
  - exists "", "". cbn. now rewrite append_nil_r.
  - cbn [Regex.run]. unfold Regex.digit at 1.
    destruct (Js.is_digit a) eqn:Da.
    + destruct (IH (g ++ String a "")%string) as (d & rest & R & -> & Dd & Nd).
      exists (String a d), rest. cbn [Regex.run] in R.
      cbn [Regex.push]. rewrite R. rewrite append_assoc. cbn.
      rewrite Da, Dd. auto.
    + exists "", (String a s). cbn. rewrite append_nil_r, Da. auto.
Qed.

Lemma digits_then_close_exact (d rest : string) :
  JobManager.all_digits d = true -> JobManager.next_is_no_digit rest = true ->
  forall g,
    Regex.run [Regex.Star Regex.digit false; Regex.Close] (d ++ rest) (Some g) [] =
    Some ([(g ++ d)%string], rest).
Proof.
  intros Dd Nd. induction d as [|a d IH]; intros g.
  - cbn [append]. rewrite append_nil_r.
    destruct rest as [|c rest]; [reflexivity|].
    cbn [Regex.run]. unfold Regex.digit at 1. cbn in Nd.
    destruct (Js.is_digit c); [discriminate|]. reflexivity.
  - cbn in Dd. apply andb_prop in Dd. destruct Dd as [Da Dd].
    specialize (IH Dd (g ++ String a "")%string).
    cbn [append Regex.run]. unfold Regex.digit at 1. rewrite Da.
    cbn [Regex.run] in IH. cbn [Regex.push]. rewrite IH.
    now rewrite append_assoc.
Qed.

Lemma submitted_pattern_run (input : string) :
  Regex.run JobManager.submitted_pattern input None [] =
  match Job.strip_prefix "Submitted batch job " input with
  | Some (String c s) =>
      if Js.is_digit c
      then Regex.run [Regex.Star Regex.digit false; Regex.Close] s
                     (Some (String c "")) []
      else None
  | _ => None
  end.
Proof.
  unfold JobManager.submitted_pattern. rewrite run_lit.
  destruct (Job.strip_prefix _ input) as [[|c s]|]; reflexivity.
Qed.

Lemma submitted_pattern_captures (input : string) (m : list string) (rest : string) :
  Regex.run JobManager.submitted_pattern input None [] = Some (m, rest) ->
  exists id, m = [id] /\ id <> "" /\ JobManager.all_digits id = true.
Proof.
  rewrite submitted_pattern_run.
  destruct (Job.strip_prefix _ input) as [[|c s]|]; try discriminate.
  destruct (Js.is_digit c) eqn:Dc; [|discriminate].
  destruct (digits_then_close s (String c "")) as (d & r & R & _ & Dd & _).
  rewrite R. intros [= <- <-]. exists (String c d). cbn. rewrite Dc, Dd.
  repeat split. discriminate.
Qed.

(** X17. [extractJobId] returns either the word unknown or a non-empty
    string of digits. *)
Theorem extractJobId_unknown_or_digits (output : string) :
  JobManager.extractJobId output = "unknown" \/
  (JobManager.extractJobId output <> "" /\ JobManager.all_digits (JobManager.extractJobId output) = true).
Proof.
  unfold JobManager.extractJobId.
  induction output as [|a output IH]; cbn [Regex.search].
  - destruct (Regex.run JobManager.submitted_pattern "" None []) as [[m rest]|] eqn:R.
    + apply submitted_pattern_captures in R. destruct R as (id & -> & N & D).
      right. now split.
    + now left.
  - destruct (Regex.run JobManager.submitted_pattern (String a output) None [])
      as [[m rest]|] eqn:R.
    + apply submitted_pattern_captures in R. destruct R as (id & -> & N & D).
      right. now split.
    + exact IH.
Qed.

Lemma strip_prefix_app (p s : string) : Job.strip_prefix p (p ++ s) = Some s.
Proof.
  induction p as [|a p IH]; [reflexivity|]. cbn. now rewrite Ascii.eqb_refl.
Qed.

Lemma search_at_start (r : list Regex.Item) (s : string) m :
  Regex.run r s None [] = Some m -> Regex.search r s = Some m.
Proof. intros E. destruct s; cbn [Regex.search]; now rewrite E. Qed.

(** X18. From an answer of sbatch that begins with the words Submitted
    batch job and a number, [extractJobId] returns the whole number. *)
Theorem extractJobId_reads_the_number (digits rest : string) :
  digits <> "" -> JobManager.all_digits digits = true -> JobManager.next_is_no_digit rest = true ->
  JobManager.extractJobId ("Submitted batch job " ++ digits ++ rest) = digits.
Proof.
  intros N D R. unfold JobManager.extractJobId.
  assert (E : Regex.run JobManager.submitted_pattern
                ("Submitted batch job " ++ digits ++ rest) None [] =
              Some ([digits], rest)).
  { rewrite submitted_pattern_run, strip_prefix_app.
    destruct digits as [|c d]; [congruence|].
    cbn in D. apply andb_prop in D. destruct D as [Dc Dd].
    cbn [append]. rewrite Dc.
    now rewrite (digits_then_close_exact d rest Dd R). }
  now rewrite (search_at_start _ _ _ E).
Qed.

(** ** Submitting a job *)

Section SubmitFacts.
Import Prog Job JobManager.
Context {D : Js.Doubles} {W : Type} {H : Host W} {E : Editor W}.

Lemma saveScript_quiet (content jobName : string) (st : State W) :
  snd (saveScript content jobName st) = [] /\
  runningJobs (snd (fst (saveScript content jobName st))) = runningJobs st.
Proof.
  unfold saveScript, bind, read, throw, ret, effect.
  destruct (workspaceFolder (world st)) as [fsPath|]; [|now split].
  cbn [world runningJobs].
  destruct (fs_writeFileSync _ content (world st)) as [[e|] w1]; [now split|].
  cbn [world runningJobs].
  destruct (openTextDocument _ w1) as [[e|] w2]; now split.
Qed.

Lemma uploadScript_cases (localPath remotePath : string) (st : State W) :
  (exists e, uploadScript localPath remotePath st = (inl e, st, [])) \/
  (exists content res w',
      ssh_execCommand (upload_command remotePath content) (world st) =
      (res, w') /\
      ((exists result,
           res = inr result /\ code result = Some 0%Z /\
           uploadScript localPath remotePath st =
           (inr tt, mkState w' (runningJobs st),
            [ExecCommand (upload_command remotePath content) res])) \/
       ((forall result, res = inr result -> code result <> Some 0%Z) /\
        exists e,
          uploadScript localPath remotePath st =
          (inl e, mkState w' (runningJobs st),
           [ExecCommand (upload_command remotePath content) res])))).
Proof.
  remember (uploadScript localPath remotePath st) as out eqn:Eo.
  unfold uploadScript, bind in Eo.
  destruct (fs_readFileSync localPath (world st)) as [e|content];
    [left; now exists e|].
  destruct (executeCommand_cases (upload_command remotePath content) st)
    as [[_ Ex] | [_ (w' & res & Ex & Ec)]].
  - rewrite Ex in Eo. left. eexists. exact Eo.
  - rewrite Ec in Eo. right. exists content, res, w'. split; [exact Ex|].
    destruct res as [e|result].
    + right. split; [discriminate|]. now exists e.
    + destruct (code result) as [[| |]|] eqn:Ecode; unfold ret, throw in Eo;
        cbn [app] in Eo.
      * left. exists result. auto.
      * right. split; [intros ? [= <-]; congruence|]. eexists. exact Eo.
      * right. split; [intros ? [= <-]; congruence|]. eexists. exact Eo.
      * right. split; [intros ? [= <-]; congruence|]. eexists. exact Eo.
Qed.

Lemma ExecCommand_inj (c c' : string) (a a' : Err + CommandResult) :
  ExecCommand c a = ExecCommand c' a' -> c = c' /\ a = a'.
Proof. intros [= -> ->]. now split. Qed.

Lemma upload_is_not_sbatch (remotePath content scriptPath : string) :
  upload_command remotePath content <> sbatch_command scriptPath.
Proof. unfold upload_command, sbatch_command. cbn. discriminate. Qed.

Lemma squeue_is_not_sbatch (username scriptPath : string) :
  squeue_command username <> sbatch_command scriptPath.
Proof. unfold squeue_command, sbatch_command. cbn. discriminate. Qed.

Lemma refreshJobs_commands (st : State W) :
  fst (fst (refreshJobs st)) = inr tt /\
  filter is_shown (snd (refreshJobs st)) = [] /\
  forall command answer,
    In (ExecCommand command answer) (snd (refreshJobs st)) ->
    exists username, command = squeue_command username.
Proof.
  remember (refreshJobs st) as out eqn:Eo.
  unfold refreshJobs, try_catch, bind, read, ret, emit in Eo.
  destruct (ssh_isConnected (world st)) eqn:Hc; cbn [negb] in Eo;
    [|subst out; split; [|split]; try reflexivity; intros ? ? []].
  destruct (cfg_username (world st)) as [[|u0 u]|];
    [subst out; split; [|split]; try reflexivity; intros ? ? [] |
    | subst out; split; [|split]; try reflexivity; intros ? ? []].
  destruct (executeCommand_cases (squeue_command (String u0 u)) st)
    as [[Hn _] | [_ (w' & res & Ex & Ec)]]; [congruence|].
  rewrite Ec in Eo.
  destruct res as [e|result].
  - subst out. split; [|split]; try reflexivity.
    intros c a [[= <- <-]|[]]. exists (String u0 u); reflexivity.
  - destruct (code result) as [[| |]|]; subst out;
      (split; [|split]; try reflexivity); intros c a I; cbn [snd fst In] in I.
    + destruct I as [[= <- <-]|[I|[]]]; [exists (String u0 u); reflexivity | discriminate].
    + destruct I as [[= <- <-]|[]]; exists (String u0 u); reflexivity.
    + destruct I as [[= <- <-]|[]]; exists (String u0 u); reflexivity.
    + destruct I as [[= <- <-]|[]]; exists (String u0 u); reflexivity.
Qed.

(** The places where [submitJob] can stop. *)
Lemma submitJob_cases (st : State W) :
  fst (fst (submitJob st)) = inr tt /\
  ((ssh_isConnected (world st) = false /\
    submitJob st = (inr tt, st, [ShowErrorMessage "Not connected to server"]))
   \/
   (ssh_isConnected (world st) = true /\
    getJobConfiguration (world st) = None /\
    submitJob st = (inr tt, st, []))
   \/
   (exists jobConfig,
      ssh_isConnected (world st) = true /\
      getJobConfiguration (world st) = Some jobConfig /\
      ((exists message, snd (submitJob st) = [ShowErrorMessage message]) \/
       (exists content res message,
           snd (submitJob st) =
           [ExecCommand (upload_command (scriptPath jobConfig) content) res;
            ShowErrorMessage message]) \/
       (exists content result answer message last,
           code result = Some 0%Z /\
           snd (submitJob st) =
           ExecCommand (upload_command (scriptPath jobConfig) content)
                       (inr result) ::
           ExecCommand (sbatch_command (scriptPath jobConfig)) answer ::
           message :: last /\
           is_shown message = true /\
           filter is_shown last = [] /\
           forall command reply,
             In (ExecCommand command reply) last ->
             exists username, command = squeue_command username)))).
Proof.
  remember (submitJob st) as out eqn:Eo.
  unfold submitJob in Eo. unfold bind at 1, read at 1 in Eo.
  destruct (ssh_isConnected (world st)) eqn:Hc; cbn [negb] in Eo.
  2:{ unfold emit in Eo. subst out. split; [reflexivity|]. left. now split. }
  unfold bind at 1, read at 1 in Eo. cbn [app] in Eo.
  destruct (getJobConfiguration (world st)) as [jobConfig|] eqn:Hj.
  2:{ unfold ret in Eo. subst out. split; [reflexivity|]. right. left. auto. }
  unfold try_catch in Eo.
  match type of Eo with
  | context [let (p, t1) := ?b st in _] => remember (b st) as bo eqn:Eb
  end.
  assert (B :
    (exists e s1, bo = (inl e, s1, [])) \/
    (exists content res e s1,
        bo = (inl e, s1,
              [ExecCommand (upload_command (scriptPath jobConfig) content) res])) \/
    (exists content result answer,
        code result = Some 0%Z /\
        ((exists e s1,
             bo = (inl e, s1,
                   [ExecCommand (upload_command (scriptPath jobConfig) content)
                                (inr result);
                    ExecCommand (sbatch_command (scriptPath jobConfig)) answer]))
         \/
         (exists s1 message last,
             bo = (inr tt, s1,
                   ExecCommand (upload_command (scriptPath jobConfig) content)
                               (inr result) ::
                   ExecCommand (sbatch_command (scriptPath jobConfig)) answer ::
                   message :: last) /\
             is_shown message = true /\
             filter is_shown last = [] /\
             forall command reply,
               In (ExecCommand command reply) last ->
               exists username, command = squeue_command username)))).
  { clear Eo. unfold bind at 1 in Eb.
    pose proof (saveScript_quiet (generateScriptContent jobConfig)
                                 (name jobConfig) st) as [Q _].
    destruct (saveScript (generateScriptContent jobConfig) (name jobConfig) st)
      as [[[e|localPath] st1] tr1]; cbn [snd] in Q; subst tr1.
    { left. now exists e, st1. }
    unfold bind at 1 in Eb.
    destruct (uploadScript_cases localPath (scriptPath jobConfig) st1)
      as [(e & U) | (content & res & w' & Ex & [(result & -> & Ec & U) | (_ & e & U)])];
      rewrite U in Eb; cbn [app] in Eb.
    { left. now exists e, st1. }
    2:{ right. left. now exists content, res, e, (mkState w' (runningJobs st1)). }
    unfold bind at 1 in Eb.
    destruct (executeCommand_cases (sbatch_command (scriptPath jobConfig))
                                   (mkState w' (runningJobs st1)))
      as [[_ X] | [_ (w2 & answer & Ex2 & X)]]; rewrite X in Eb; cbn [app] in Eb.
    { right. left. eexists content, (inr result), _, _. exact Eb. }
    right. right. exists content, result, answer. split; [exact Ec|].
    destruct answer as [e|result2]; cbn [app] in Eb.
    { left. eexists _, _. exact Eb. }
    right.
    destruct (code result2) as [[| |]|];
      try (unfold emit in Eb; cbn [app] in Eb;
           eexists _, _, []; split; [exact Eb|]; split; [reflexivity|];
           split; [reflexivity|]; intros ? ? []).
    unfold bind, emit in Eb.
    pose proof (refreshJobs_commands
                  {| world := w2;
                     runningJobs := runningJobs
                       {| world := w'; runningJobs := runningJobs st1 |} |})
      as (R1 & R2 & R3).
    destruct (refreshJobs _) as [[o3 st3] tr3]. cbn [fst snd] in R1, R2, R3.
    subst o3. cbn [app] in Eb.
    eexists _, _, tr3. split; [exact Eb|]. split; [reflexivity|].
    split; assumption. }
  clear Eb.
  destruct B as [(e & s1 & ->) | [(content & res & e & s1 & ->)
    | (content & result & answer & Ec & [(e & s1 & ->) | (s1 & message & last & -> & B1 & B2 & B3)])]];
    unfold emit in Eo; cbn [app] in Eo; subst out;
    (split; [reflexivity|]); right; right; exists jobConfig;
    (split; [reflexivity|]); (split; [reflexivity|]); cbn [snd].
  - left. eexists. reflexivity.
  - right. left. eexists _, _, _. reflexivity.
  - right. right. eexists content, result, answer, _, []. 
    split; [exact Ec|]. split; [reflexivity|]. split; [reflexivity|].
    split; [reflexivity|]. intros ? ? [].
  - right. right. exists content, result, answer, message, last. auto.
Qed.

(** X19. [submitJob] never throws and shows one message, or none when
    the dialogs were dismissed. Whenever it runs sbatch on the remote
    script, it has just uploaded that script with exit code 0, and
    nothing was run before the upload. *)
Theorem submitJob_uploads_before_sbatch (st : State W) :
  fst (fst (submitJob st)) = inr tt /\
  length (filter is_shown (snd (submitJob st))) =
  (if ssh_isConnected (world st)
   then match getJobConfiguration (world st) with Some _ => 1 | None => 0 end
   else 1) /\
  forall jobConfig answer,
    getJobConfiguration (world st) = Some jobConfig ->
    In (ExecCommand (sbatch_command (scriptPath jobConfig)) answer)
       (snd (submitJob st)) ->
    exists content result rest,
      code result = Some 0%Z /\
      snd (submitJob st) =
      ExecCommand (upload_command (scriptPath jobConfig) content) (inr result) ::
      ExecCommand (sbatch_command (scriptPath jobConfig)) answer :: rest.
Proof.
  destruct (submitJob_cases st) as [T C]. split; [exact T|].
  destruct C as [[Hc ->] | [(Hc & Hj & ->) | (jobConfig & Hc & Hj & C)]];
    rewrite Hc; try rewrite Hj; cbn [snd].
  - split; [reflexivity|]. intros c a _ [I|[]]. discriminate.
  - split; [reflexivity|]. intros c a _ [].
  - destruct C as [(m & ->) | [(content & res & m & ->)
      | (content & result & answer & message & last & Ec & -> & Sm & Sl & Cl)]].
    + split; [reflexivity|]. intros c a _ [I|[]]. discriminate.
    + split; [reflexivity|]. intros c a _ [I|[I|[]]]; [|discriminate].
      apply ExecCommand_inj in I. destruct I as [I _].
      now apply upload_is_not_sbatch in I.
    + split.
      * cbn [filter is_shown]. rewrite Sm, Sl. reflexivity.
      * intros c a [= <-] [I|[I|[I|I]]].
        -- apply ExecCommand_inj in I. destruct I as [I _].
           now apply upload_is_not_sbatch in I.
        -- apply ExecCommand_inj in I. destruct I as [_ <-].
           now exists content, result, (message :: last).
        -- subst message. discriminate.
        -- apply Cl in I. destruct I as (u & I). symmetry in I.
           now apply squeue_is_not_sbatch in I.
Qed.

(** X20. A job configuration that comes out of the dialogs carries the
    answers: the name and the time limit that were typed, [parseInt] of
    the GPU and CPU counts that were picked, the memory size and the
    partition that were picked, none of them empty, and script, output
    and error paths that are the job name with the endings sh, out and
    err in the configured remote directory.  When every pick is answered
    with one of the offered items, the four picked values are among the
    offered ones. *)
Theorem getJobConfiguration_values (w : W) (config : JobConfig) :
  getJobConfiguration w = Some config ->
  (showInputBox "Enter job name" w = Some (name config) /\
   name config <> "") /\
  (showInputBox "Enter time limit (format: D-HH:MM:SS)" w =
   Some (timeLimit config) /\
   timeLimit config <> "") /\
  (exists picked,
      showQuickPick gpuCounts "Select number of GPUs" w = Some picked /\
      picked <> "" /\ gpuCount config = Js.parseInt picked) /\
  (exists picked,
      showQuickPick cpuCounts "Select CPU cores per GPU" w = Some picked /\
      picked <> "" /\ cpuPerGpu config = Js.parseInt picked) /\
  (showQuickPick memorySizes "Select memory per GPU" w =
   Some (memoryPerGpu config) /\
   memoryPerGpu config <> "") /\
  (showQuickPick partitions "Select partition" w = Some (partition config) /\
   partition config <> "") /\
  (let remotePath := match cfg_remotePath w with Some p => p | None => "" end in
   scriptPath config = (remotePath ++ "/" ++ name config ++ ".sh")%string /\
   outputPath config = Some (remotePath ++ "/" ++ name config ++ ".out")%string /\
   errorPath config = Some (remotePath ++ "/" ++ name config ++ ".err")%string) /\
  ((forall items placeHolder item,
       showQuickPick items placeHolder w = Some item -> In item items) ->
   In (gpuCount config) (map Js.parseInt gpuCounts) /\
   In (cpuPerGpu config) (map Js.parseInt cpuCounts) /\
   In (memoryPerGpu config) memorySizes /\
   In (partition config) partitions).
Proof.
  unfold getJobConfiguration.
  destruct (showInputBox "Enter job name" w) as [[|n0 n]|] eqn:Pn;
    try discriminate.
  destruct (showQuickPick gpuCounts _ w) as [[|g0 g]|] eqn:Pg;
    try discriminate.
  destruct (showQuickPick cpuCounts _ w) as [[|c0 c]|] eqn:Pc;
    try discriminate.
  destruct (showQuickPick memorySizes _ w) as [[|m0 m]|] eqn:Pm;
    try discriminate.
  destruct (showQuickPick partitions _ w) as [[|p0 p]|] eqn:Pp;
    try discriminate.
  destruct (showInputBox "Enter time limit (format: D-HH:MM:SS)" w)
    as [[|t0 t]|] eqn:Pt; try discriminate.
  destruct (showInputBox "Enter Python script path to execute" w)
    as [[|s0 s]|]; try discriminate.
  intros [= <-]. cbn [name timeLimit gpuCount cpuPerGpu memoryPerGpu
                      partition scriptPath outputPath errorPath].
  split; [split; [reflexivity | discriminate]|].
  split; [split; [reflexivity | discriminate]|].
  split; [exists (String g0 g); repeat split; discriminate|].
  split; [exists (String c0 c); repeat split; discriminate|].
  split; [split; [reflexivity | discriminate]|].
  split; [split; [reflexivity | discriminate]|].
  split; [repeat split|].
  intros Offered.
  apply Offered in Pg, Pc, Pm, Pp.
  repeat split; try assumption; now apply in_map.
Qed.

End SubmitFacts.

(** ** The refresh timer *)

Section TimerFacts.
Import JobManager.

Lemma filter_other (h : nat) (l : list nat) :
  Forall (fun x => x < h) l ->
  filter (fun x => negb (Nat.eqb x h)) l = l.
Proof.
  induction 1 as [|x l Hx _ IH]; [reflexivity|].
  cbn [filter]. destruct (Nat.eqb_spec x h); [lia|]. cbn. now rewrite IH.
Qed.

(** What every call keeps: the running timers are those of the others
    and the one the manager remembers, which is a handle handed out
    after the start. *)
Lemma calls_keep_one_timer (t : Timers) :
  Forall (fun x => x < handed_out t) (running t) ->
  forall calls r,
    (running (timers r) =
     running t ++ match refreshInterval r with Some h => [h] | None => [] end /\
     match refreshInterval r with
     | Some h => handed_out t <= h < handed_out (timers r)
     | None => handed_out t <= handed_out (timers r)
     end) ->
    running (timers (fold_left call calls r)) =
    running t ++ match refreshInterval (fold_left call calls r) with
                 | Some h => [h] | None => [] end /\
    match refreshInterval (fold_left call calls r) with
    | Some h => handed_out t <= h < handed_out (timers (fold_left call calls r))
    | None => handed_out t <= handed_out (timers (fold_left call calls r))
    end.
Proof.
  intros F.
  induction calls as [|c calls IH]; intros r I; [exact I|].
  cbn [fold_left]. apply IH. destruct I as [I1 I2].
  destruct r as [[h|] [n run]]; destruct c;
    cbn [call startAutoRefresh stopAutoRefresh refreshInterval timers
         setInterval clearInterval running handed_out] in *.
  - now split.
  - split; [|lia]. rewrite I1, filter_app.
    rewrite filter_other.
    + cbn [filter]. now rewrite Nat.eqb_refl.
    + eapply Forall_impl; [|exact F]. cbn. intros; lia.
  - split; [|lia]. rewrite I1. now rewrite app_nil_r.
  - now split.
Qed.

(** X21. Whatever sequence of [startAutoRefresh] and [stopAutoRefresh]
    is called on a manager that owns no timer, at most one timer of the
    manager is running afterwards, namely the one it remembers, and the
    timers of others keep running. *)
Theorem auto_refresh_keeps_one_timer (t : Timers) (calls : list Call) :
  Forall (fun x => x < handed_out t) (running t) ->
  let r := fold_left call calls (fresh t) in
  running (timers r) =
  running t ++ match refreshInterval r with Some h => [h] | None => [] end /\
  match refreshInterval r with
  | Some h => handed_out t <= h < handed_out (timers r)
  | None => handed_out t <= handed_out (timers r)
  end.
Proof.
  intros F. cbv zeta. apply (calls_keep_one_timer t F).
  unfold fresh. cbn [running timers refreshInterval handed_out].
  split; [now rewrite app_nil_r | lia].
Qed.

(** After a call the manager remembers a timer exactly if the call was
    [startAutoRefresh]. *)
Lemma call_remembers (r : Refresher) (c : Call) :
  refreshInterval (call r c) <> None <-> c = Start.
Proof.
  destruct c, r as [[h|] [n run]]; cbn; split; intros X;
    try discriminate; try reflexivity; congruence.
Qed.

End TimerFacts.

(** ** Names and slots of GPU nodes *)

Lemma run_caps_prefix (r : list Regex.Item) :
  forall s cur caps m rest,
    Regex.run r s cur caps = Some (m, rest) ->
    exists more, m = rev caps ++ more.
Proof.
  induction r as [|it r IH]; intros s cur caps m rest E.
  - simpl in E. injection E as <- _. exists []. now rewrite app_nil_r.
  - destruct it as [p | p lazy | |]; cbn [Regex.run] in E.
    + destruct s as [|a s]; [discriminate|].
      destruct (p a); [|discriminate]. now apply IH in E.
    + revert cur E. induction s as [|a s IHs]; intros cur E.
      * destruct lazy.
        -- destruct (Regex.run r "" cur caps) as [[c0 rest0]|] eqn:R;
             [|discriminate].
           injection E as <- <-. now apply IH in R.
        -- now apply IH in E.
      * destruct lazy.
        -- destruct (Regex.run r (String a s) cur caps) as [[c0 rest0]|] eqn:R.
           ++ injection E as <- <-. now apply IH in R.
           ++ destruct (p a); [|discriminate]. now apply IHs in E.
        -- destruct (p a).
           ++ match type of E with
              | match ?m with _ => _ end = _ => destruct m as [[c0 rest0]|] eqn:R
              end.
              ** injection E as <- <-. now apply IHs in R.
              ** now apply IH in E.
           ++ now apply IH in E.
    + apply IH in E. exact E.
    + apply IH in E. destruct E as (more & ->). cbn [rev].
      rewrite <- app_assoc. now eexists.
Qed.

Lemma run_lit_cur (p : string) (r : list Regex.Item) :
  forall s g caps,
    Regex.run (Regex.lit p ++ r) s (Some g) caps =
    match Job.strip_prefix p s with
    | Some rest => Regex.run r rest (Some (g ++ p)%string) caps
    | None => None
    end.
Proof.
  induction p as [|a p IH]; intros s g caps.
  - cbn. now rewrite append_nil_r.
  - unfold Regex.lit.
    cbn [list_ascii_of_string map app Regex.run Job.strip_prefix].
    destruct s as [|c s]; [reflexivity|].
    rewrite Ascii.eqb_sym. destruct (Ascii.eqb_spec c a) as [->|]; [|reflexivity].
    cbn [Regex.push]. unfold Regex.lit in IH. rewrite IH.
    now rewrite append_assoc.
Qed.

Lemma digits_then_group_end (R : list Regex.Item) (s : string) :
  forall g m rest,
    Regex.run (Regex.Star Regex.digit false :: Regex.Close :: R) s (Some g) [] =
    Some (m, rest) ->
    exists d, JobManager.all_digits d = true /\ nth 0 m "" = (g ++ d)%string.
Proof.
  assert (Stop : forall s g m rest,
             Regex.run (Regex.Close :: R) s (Some g) [] = Some (m, rest) ->
             exists d, JobManager.all_digits d = true /\
                       nth 0 m "" = (g ++ d)%string).
  { intros s0 g m rest E. cbn [Regex.run] in E.
    apply run_caps_prefix in E. destruct E as (more & ->).
    exists "". rewrite append_nil_r. now split. }
  cbn [Regex.run]. induction s as [|a s IHs]; intros g m rest E.
  - apply (Stop "" g m rest). exact E.
  - unfold Regex.digit at 1 in E. destruct (Js.is_digit a) eqn:Da.
    + match type of E with
      | match ?x with _ => _ end = _ => destruct x as [[c0 rest0]|] eqn:X
      end.
      * injection E as <- <-. apply IHs in X. destruct X as (d & Dd & N).
        exists (String a d). cbn. rewrite Da, Dd. split; [reflexivity|].
        rewrite N. now rewrite append_assoc.
      * apply (Stop (String a s) g m rest). exact E.
    + apply (Stop (String a s) g m rest). exact E.
Qed.

Lemma node_name_capture (R : list Regex.Item) (s : string) m rest :
  Regex.run (Regex.group (Regex.lit "aurora-g" ++ Regex.plus Regex.digit false)
             ++ R) s None [] = Some (m, rest) ->
  exists d, d <> "" /\ JobManager.all_digits d = true /\
            nth 0 m "" = ("aurora-g" ++ d)%string.
Proof.
  replace (Regex.group (Regex.lit "aurora-g" ++ Regex.plus Regex.digit false) ++ R)
    with (Regex.Open :: Regex.lit "aurora-g" ++
          (Regex.Chr Regex.digit :: Regex.Star Regex.digit false ::
           Regex.Close :: R)) by reflexivity.
  cbn [Regex.run]. rewrite run_lit_cur.
  destruct (Job.strip_prefix "aurora-g" s) as [[|c s1]|]; try discriminate.
  cbn [Regex.run]. unfold Regex.digit at 1.
  destruct (Js.is_digit c) eqn:Dc; [|discriminate].
  intros E. apply digits_then_group_end in E. destruct E as (d & Dd & N).
  exists (String c d). cbn [JobManager.all_digits]. rewrite Dc, Dd.
  repeat split; [discriminate|]. rewrite N. reflexivity.
Qed.

Lemma slot_run (s : string) m rest :
  Regex.run (Regex.lit "[" ++ Regex.group [Regex.Chr Regex.dot] ++ Regex.lit "]")
            s None [] = Some (m, rest) ->
  exists c, m = [String c ""].
Proof.
  rewrite run_lit.
  destruct (Job.strip_prefix "[" s) as [[|c s1]|]; try discriminate.
  unfold Regex.group. cbn [app Regex.run].
  destruct (Regex.dot c); [|discriminate]. cbn [Regex.push append].
  rewrite <- (app_nil_r (Regex.lit "]")), run_lit.
  destruct (Job.strip_prefix "]" s1); [|discriminate].
  cbn. intros [= <- _]. now exists c.
Qed.

Lemma slot_search (s : string) m rest :
  Regex.search (Regex.lit "[" ++ Regex.group [Regex.Chr Regex.dot] ++ Regex.lit "]")
               s = Some (m, rest) ->
  exists c, m = [String c ""].
Proof.
  pose proof (fun s => slot_run s m rest) as Run.
  remember (Regex.lit "[" ++ Regex.group [Regex.Chr Regex.dot] ++ Regex.lit "]")
    as r eqn:Er. clear Er.
  induction s as [|a s IH]; cbn [Regex.search].
  - destruct (Regex.run r "" None []) as [m0|] eqn:R; [|discriminate].
    intros [= ->]. now apply Run in R.
  - destruct (Regex.run r (String a s) None []) as [m0|] eqn:R.
    + intros [= ->]. now apply Run in R.
    + exact IH.
Qed.

Lemma slot_matches (s : string) :
  Forall (fun slot => String.length slot = 1)
         (map (fun m => nth 0 m "")
              (Regex.matchAll
                 (Regex.lit "[" ++ Regex.group [Regex.Chr Regex.dot] ++
                  Regex.lit "]") s)).
Proof.
  unfold Regex.matchAll. generalize (S (String.length s)). intros fuel.
  revert s. induction fuel as [|fuel IH]; intros s; cbn [Regex.matchAll_fuel map].
  - constructor.
  - destruct (Regex.search _ s) as [[m rest]|] eqn:X; [|constructor].
    cbn [map]. constructor; [|apply IH].
    apply slot_search in X. destruct X as (c & ->). reflexivity.
Qed.

Section GpuFacts.
Context {D : Js.Doubles}.

Lemma parseGPUStatus_never_empty (now : Z) (output : string) :
  Gpu.nodes (Gpu.parseGPUStatus now output) <> [].
Proof.
  unfold Gpu.parseGPUStatus. cbv zeta. cbn [Gpu.nodes].
  destruct (flat_map Gpu.parse_line (Gpu.status_lines output)); discriminate.
Qed.

(** X22. [parseGPUStatus] never returns an empty list of nodes. Every
    node it returns is named aurora-g followed by a number, shows each
    GPU slot as a single character and has a CPU and a memory usage; the
    status carries the time of the parse. *)
Theorem parseGPUStatus_nodes (now : Z) (output : string) :
  Gpu.nodes (Gpu.parseGPUStatus now output) <> [] /\
  Gpu.lastUpdated (Gpu.parseGPUStatus now output) = now /\
  Forall (fun node =>
            (exists d, d <> "" /\ JobManager.all_digits d = true /\
                       Gpu.name node = ("aurora-g" ++ d)%string) /\
            Forall (fun slot => String.length slot = 1) (Gpu.gpuStatus node) /\
            Gpu.cpuUsage node <> None /\ Gpu.memoryUsage node <> None)
         (Gpu.nodes (Gpu.parseGPUStatus now output)).
Proof.
  unfold Gpu.parseGPUStatus. cbv zeta. cbn [Gpu.nodes Gpu.lastUpdated].
  assert (P : Forall (fun node =>
            (exists d, d <> "" /\ JobManager.all_digits d = true /\
                       Gpu.name node = ("aurora-g" ++ d)%string) /\
            Forall (fun slot => String.length slot = 1) (Gpu.gpuStatus node) /\
            Gpu.cpuUsage node <> None /\ Gpu.memoryUsage node <> None)
           (flat_map Gpu.parse_line (Gpu.status_lines output))).
  { apply Forall_flat_map. apply Forall_forall. intros line _.
    unfold Gpu.parse_line. cbv zeta.
    destruct (Gpu.nodeMatch (Js.trim line)) as [m|] eqn:Hm; [|constructor].
    constructor; [|constructor].
    cbn [Gpu.name Gpu.gpuStatus Gpu.cpuUsage Gpu.memoryUsage].
    split; [|split; [|split; discriminate]].
    - unfold Gpu.nodeMatch, Regex.match_start in Hm.
      destruct (Regex.run Gpu.node_pattern (Js.trim line) None [])
        as [[caps rest]|] eqn:R; [|discriminate].
      injection Hm as <-. unfold Gpu.node_pattern in R.
      apply node_name_capture in R. exact R.
    - unfold Gpu.capture at 1. cbn [Nat.sub]. apply slot_matches. }
  destruct (flat_map Gpu.parse_line (Gpu.status_lines output)) as [|n ns].
  - split; [discriminate|]. split; [reflexivity|].
    unfold Gpu.fallback_nodes. cbn [map].
    repeat constructor; cbn [Gpu.name]; try discriminate.
    all: eexists; split; [|split; [|reflexivity]]; [discriminate | reflexivity].
  - split; [discriminate|]. split; [reflexivity | exact P].
Qed.
End GpuFacts.

Section LegacyFacts.
Import GpuLegacy.
Context {D : Js.Doubles}.

Lemma legacy_step_keeps (P : GPUNode -> Prop) :
  (forall m s rest,
      Regex.run header_pattern s None [] = Some (m, rest) ->
      P (mkNode (nth 0 m "") [] None None 0 0)) ->
  (forall node s cpu mem,
      P node ->
      let gpuArray :=
        map (fun m => nth 0 m "") (Regex.matchAll slot_pattern s) in
      P (mkNode (name node) gpuArray cpu mem
                (length (filter (String.eqb "-") gpuArray))
                (length gpuArray))) ->
  (forall node cpu mem,
      P node ->
      P (mkNode (name node) (gpuStatus node) cpu mem
                (availableGPUs node) (totalGPUs node))) ->
  forall lines st,
    Forall P (fst st) ->
    (forall node, snd st = Some node -> P node) ->
    Forall P (fst (fold_left step lines st)) /\
    (forall node, snd (fold_left step lines st) = Some node -> P node).
Proof.
  intros Hh Hg Hk lines.
  induction lines as [|line lines IH]; intros [nodes current] F C;
    [now split|].
  cbn [fold_left]. apply IH; unfold step; cbn [fst snd] in *.
  - unfold Regex.match_start.
    destruct (Regex.run header_pattern (Js.trim line) None [])
      as [[m rest]|]; cbn [fst].
    + destruct current as [node|]; [|exact F].
      apply Forall_app. split; [exact F|]. constructor; [|constructor].
      now apply C.
    + destruct current as [node|]; [|exact F].
      destruct (first_capture (Regex.search gpu_pattern _)); [exact F|].
      destruct (first_capture (Regex.search (percent_pattern "CPU:") _));
        [exact F|].
      destruct (first_capture (Regex.search (percent_pattern "MEM:") _));
        exact F.
  - unfold Regex.match_start.
    destruct (Regex.run header_pattern (Js.trim line) None [])
      as [[m rest]|] eqn:R; cbn [snd].
    + intros node [= <-]. eapply Hh. exact R.
    + destruct current as [node|]; [|exact C].
      specialize (C node eq_refl).
      destruct (first_capture (Regex.search gpu_pattern _)) as [g|].
      { cbn [snd]. intros n [= <-]. now apply Hg. }
      destruct (first_capture (Regex.search (percent_pattern "CPU:") _)).
      { cbn [snd]. intros n [= <-]. now apply Hk. }
      destruct (first_capture (Regex.search (percent_pattern "MEM:") _)).
      { cbn [snd]. intros n [= <-]. now apply Hk. }
      cbn [snd]. intros n [= <-]. exact C.
Qed.

(** X23. In the status that the parser of the multi-line format returns,
    every node is named aurora-g followed by a number, its slots are
    single characters, its total is the number of its slots and its
    available count is the number of slots shown as a dash. *)
Theorem legacy_parseGPUStatus_nodes (now : Z) (output : string) :
  Forall (fun node =>
            (exists d, d <> "" /\ JobManager.all_digits d = true /\
                       name node = ("aurora-g" ++ d)%string) /\
            Forall (fun slot => String.length slot = 1) (gpuStatus node) /\
            totalGPUs node = length (gpuStatus node) /\
            availableGPUs node =
            length (filter (String.eqb "-") (gpuStatus node)) /\
            availableGPUs node <= totalGPUs node)
         (nodes (parseGPUStatus now output)).
Proof.
  unfold parseGPUStatus.
  match goal with
  | |- context [fold_left step ?l ?i] =>
      destruct (legacy_step_keeps
        (fun node =>
            (exists d, d <> "" /\ JobManager.all_digits d = true /\
                       name node = ("aurora-g" ++ d)%string) /\
            Forall (fun slot => String.length slot = 1) (gpuStatus node) /\
            totalGPUs node = length (gpuStatus node) /\
            availableGPUs node =
            length (filter (String.eqb "-") (gpuStatus node)) /\
            availableGPUs node <= totalGPUs node)) with (lines := l) (st := i)
        as [F C]
  end.
  - intros m s rest R. unfold header_pattern in R.
    apply node_name_capture in R. cbn. repeat split; auto.
  - intros node s cpu mem (N & _). cbn.
    repeat split; auto; [apply slot_matches | apply filter_length_le].
  - intros node cpu mem P. exact P.
  - constructor.
  - discriminate.
  - destruct (fold_left step _ _) as [ns [node|]]; cbn [fst snd nodes] in *.
    + apply Forall_app. split; [exact F|]. constructor; [|constructor].
      now apply C.
    + exact F.
Qed.
End LegacyFacts.

(** ** The connection *)

Section SshFacts.
Import Prog SshManager.
Context {W : Type} {H : Host W}.

Local Notation "'M'" := (@Prog.M (State W) Event).

Lemma last_status_app (t1 t2 : list Event) (s : ConnectionStatus) :
  last_status (t1 ++ t2) s = last_status t2 (last_status t1 s).
Proof. unfold last_status. apply fold_left_app. Qed.

Lemma tracks_ret {A : Type} (a : A) : tracks (ret a : M A).
Proof. intros st. reflexivity. Qed.

Lemma tracks_throw {A : Type} (e : Err) : tracks (throw e : M A).
Proof. intros st. reflexivity. Qed.

Lemma tracks_read {A : Type} (f : State W -> A) : tracks (read f : M A).
Proof. intros st. reflexivity. Qed.

Lemma tracks_setStatus (s : ConnectionStatus) : tracks (setStatus s : M unit).
Proof. intros st. reflexivity. Qed.

Lemma tracks_message (ev : Event) :
  is_message ev = true -> tracks (emit ev : M unit).
Proof. intros I st. destruct ev; try discriminate; reflexivity. Qed.

Lemma tracks_bind {A B : Type} (m : M A) (k : A -> M B) :
  tracks m -> (forall a, tracks (k a)) -> tracks (bind m k).
Proof.
  intros Tm Tk st. unfold bind. specialize (Tm st).
  destruct (m st) as [[[e|a] s1] t1]; cbn [fst snd] in *; [exact Tm|].
  specialize (Tk a s1). destruct (k a s1) as [[r s2] t2]. cbn [fst snd] in *.
  now rewrite last_status_app, <- Tm.
Qed.

Lemma tracks_try_catch {A : Type} (m : M A) (h : Err -> M A) :
  tracks m -> (forall e, tracks (h e)) -> tracks (try_catch m h).
Proof.
  intros Tm Th st. unfold try_catch. specialize (Tm st).
  destruct (m st) as [[[e|a] s1] t1]; cbn [fst snd] in *; [|exact Tm].
  specialize (Th e s1). destruct (h e s1) as [[r s2] t2]. cbn [fst snd] in *.
  now rewrite last_status_app, <- Tm.
Qed.

Lemma never_throws_bind {A B : Type} (m : M A) (k : A -> M B) :
  never_throws m -> (forall a, never_throws (k a)) -> never_throws (bind m k).
Proof.
  intros Nm Nk st. unfold bind. destruct (Nm st) as (a & Ea).
  destruct (m st) as [[o s1] t1]. cbn [fst] in Ea. subst o.
  destruct (Nk a s1) as (b & Eb).
  destruct (k a s1) as [[r s2] t2]. cbn [fst] in *. now exists b.
Qed.

Lemma never_throws_try_catch {A : Type} (m : M A) (h : Err -> M A) :
  (forall e, never_throws (h e)) -> never_throws (try_catch m h).
Proof.
  intros Nh st. unfold try_catch.
  destruct (m st) as [[[e|a] s1] t1]; [|now exists a].
  destruct (Nh e s1) as (b & Eb).
  destruct (h e s1) as [[r s2] t2]. cbn [fst] in *. now exists b.
Qed.

Lemma never_throws_ret {A : Type} (a : A) : never_throws (ret a : M A).
Proof. intros st. now exists a. Qed.

Lemma never_throws_read {A : Type} (f : State W -> A) :
  never_throws (read f : M A).
Proof. intros st. now eexists. Qed.

Lemma never_throws_emit (ev : Event) : never_throws (emit ev : M unit).
Proof. intros st. now exists tt. Qed.

Lemma never_throws_setStatus (s : ConnectionStatus) :
  never_throws (setStatus s : M unit).
Proof. intros st. now exists tt. Qed.

Lemma tracks_establish (c : FileSync.ConnectionConfig) : tracks (establish c).
Proof.
  unfold establish. apply tracks_bind.
  - intros st. destruct (ssh_connect c (world st)) as [[e|] w]; reflexivity.
  - intros _. apply tracks_bind; [apply tracks_setStatus|]. intros _.
    apply tracks_bind; [now apply tracks_message|]. intros _.
    apply tracks_ret.
Qed.

Lemma tracks_connect : tracks connect.
Proof.
  unfold connect.
  apply tracks_bind; [apply tracks_read|]. intros host.
  apply tracks_bind; [apply tracks_read|]. intros port.
  apply tracks_bind; [apply tracks_read|]. intros username.
  apply tracks_bind; [apply tracks_read|]. intros privateKeyPath.
  assert (Unconfigured :
    tracks (bind (emit (ShowErrorMessage
                          "Please configure host and username first"))
                 (fun _ => ret false) : M bool)).
  { apply tracks_bind; [now apply tracks_message|]. intros _. apply tracks_ret. }
  destruct host as [[|h0 h]|]; try exact Unconfigured.
  destruct username as [[|u0 u]|]; try exact Unconfigured.
  apply tracks_bind; [apply tracks_setStatus|]. intros _.
  apply tracks_try_catch.
  - apply tracks_bind; [apply tracks_read|]. intros [|].
    + apply tracks_bind; [|intros key; apply tracks_establish].
      intros st. destruct (fs_readFileSync _ (world st)); reflexivity.
    + apply tracks_bind; [apply tracks_read|]. intros password.
      destruct (Js.truthy password); [apply tracks_establish|].
      apply tracks_bind; [apply tracks_read|]. intros inputPassword.
      destruct (Js.truthy inputPassword); cbn [negb].
      * apply tracks_bind; [intros st; reflexivity|]. intros _.
        apply tracks_establish.
      * apply tracks_bind; [apply tracks_setStatus|]. intros _.
        apply tracks_ret.
  - intros e. apply tracks_bind; [apply tracks_setStatus|]. intros _.
    apply tracks_bind; [now apply tracks_message|]. intros _.
    apply tracks_ret.
Qed.

Lemma never_throws_connect : never_throws connect.
Proof.
  unfold connect.
  apply never_throws_bind; [apply never_throws_read|]. intros host.
  apply never_throws_bind; [apply never_throws_read|]. intros port.
  apply never_throws_bind; [apply never_throws_read|]. intros username.
  apply never_throws_bind; [apply never_throws_read|]. intros privateKeyPath.
  assert (Unconfigured :
    never_throws (bind (emit (ShowErrorMessage
                          "Please configure host and username first"))
                 (fun _ => ret false) : M bool)).
  { apply never_throws_bind; [apply never_throws_emit|]. intros _.
    apply never_throws_ret. }
  destruct host as [[|h0 h]|]; try exact Unconfigured.
  destruct username as [[|u0 u]|]; try exact Unconfigured.
  apply never_throws_bind; [apply never_throws_setStatus|]. intros _.
  apply never_throws_try_catch. intros e.
  apply never_throws_bind; [apply never_throws_setStatus|]. intros _.
  apply never_throws_bind; [apply never_throws_emit|]. intros _.
  apply never_throws_ret.
Qed.

Lemma tracks_disconnect : tracks disconnect.
Proof.
  unfold disconnect.
  apply tracks_bind; [apply tracks_read|]. intros connected.
  apply tracks_bind.
  - destruct connected; [intros st; reflexivity | apply tracks_ret].
  - intros _. apply tracks_bind; [intros st; reflexivity|]. intros _.
    apply tracks_setStatus.
Qed.

Lemma never_throws_disconnect : never_throws disconnect.
Proof.
  unfold disconnect.
  apply never_throws_bind; [apply never_throws_read|]. intros connected.
  apply never_throws_bind.
  - destruct connected; [intros st; now exists tt | apply never_throws_ret].
  - intros _. apply never_throws_bind; [intros st; now exists tt|]. intros _.
    apply never_throws_setStatus.
Qed.

Lemma tracks_run_test : tracks run_test.
Proof.
  unfold run_test. apply tracks_try_catch.
  - apply tracks_bind.
    + intros st. unfold execCommand.
      destruct (ssh_execCommand test_command (world st)) as [[e|r] w];
        reflexivity.
    + intros result.
      destruct (Job.code result) as [[| |]|];
        (apply tracks_bind; [now apply tracks_message|]); intros _;
        apply tracks_ret.
  - intros e. apply tracks_bind; [now apply tracks_message|]. intros _.
    apply tracks_ret.
Qed.

Lemma never_throws_run_test : never_throws run_test.
Proof.
  unfold run_test. apply never_throws_try_catch. intros e.
  apply never_throws_bind; [apply never_throws_emit|]. intros _.
  apply never_throws_ret.
Qed.

(** X24. None of [connect], [disconnect], [toggleConnection] and
    [testConnection] throws, and after each of them the stored status is
    the one the listeners were told last (or the old one if they were
    told nothing). *)
Theorem status_is_what_listeners_heard :
  (tracks connect /\ never_throws connect) /\
  (tracks disconnect /\ never_throws disconnect) /\
  (tracks toggleConnection /\ never_throws toggleConnection) /\
  (tracks testConnection /\ never_throws testConnection).
Proof.
  pose proof tracks_connect as Tc. pose proof never_throws_connect as Nc.
  pose proof tracks_disconnect as Td. pose proof never_throws_disconnect as Nd.
  repeat split; try assumption.
  - unfold toggleConnection. apply tracks_bind; [apply tracks_read|].
    intros [| | |]; try assumption; try apply tracks_ret;
      (apply tracks_bind; [exact Tc|]); intros _; apply tracks_ret.
  - unfold toggleConnection.
    apply never_throws_bind; [apply never_throws_read|].
    intros [| | |]; try assumption; try apply never_throws_ret;
      (apply never_throws_bind; [exact Nc|]); intros _;
      apply never_throws_ret.
  - unfold testConnection. apply tracks_bind; [apply tracks_read|].
    intros current. destruct (negb (is_connected current));
      [|apply tracks_run_test].
    apply tracks_bind; [exact Tc|]. intros [|]; cbn [negb];
      [apply tracks_run_test | apply tracks_ret].
  - unfold testConnection.
    apply never_throws_bind; [apply never_throws_read|].
    intros current. destruct (negb (is_connected current));
      [|apply never_throws_run_test].
    apply never_throws_bind; [exact Nc|]. intros [|]; cbn [negb];
      [apply never_throws_run_test | apply never_throws_ret].
Qed.
End SshFacts.
Section SshConnectFacts.
Import Prog SshManager.
Context {W : Type} {H : Host W}.

(** X25. [connect] hands the SSH client only configurations with the
    configured, non-empty host and user name and with a key or a
    non-empty password. It returns true exactly when the client accepted
    one, and the status is then Connected. *)
Theorem connect_needs_credentials (st : State W) :
  (forall config outcome,
      In (SshConnect config outcome) (snd (connect st)) ->
      cfg_host (world st) = Some (FileSync.conn_host config) /\
      cfg_username (world st) = Some (FileSync.conn_username config) /\
      FileSync.conn_host config <> "" /\
      FileSync.conn_username config <> "" /\
      (FileSync.conn_privateKey config <> None \/
       Js.truthy (FileSync.conn_password config) = true)) /\
  (fst (fst (connect st)) = inr true <->
   exists config, In (SshConnect config None) (snd (connect st))) /\
  (fst (fst (connect st)) = inr true ->
   status (snd (fst (connect st))) = Connected).
Proof.
  remember (connect st) as out eqn:Eo.
  cbv [connect bind read ret emit throw try_catch establish setStatus
       setCachedPassword] in Eo.
  cbn [world status cachedPassword app] in Eo.
  repeat match type of Eo with
         | context [match ?x with _ => _ end] =>
             lazymatch x with
             | context [match _ with _ => _ end] => fail
             | _ => destruct x eqn:?
             end
         end.
  all: subst out;
    cbn [fst snd In app world status cachedPassword] in *.
  all: split;
    [intros config outcome I;
     repeat (destruct I as [I|I]; [try discriminate I|]);
     try contradiction;
     injection I as <- <-;
     cbn [FileSync.conn_host FileSync.conn_username FileSync.conn_privateKey
          FileSync.conn_password];
     repeat split; try discriminate; try assumption;
     try (left; discriminate);
     try (right; assumption);
     try (right;
          match goal with
          | Hn : negb ?b = false |- ?b = true =>
              destruct b; [reflexivity | discriminate Hn]
          end)
    |].
  all: split;
    [split;
     [try discriminate; intros _; eexists; cbn [In]; eauto
     |intros (config & I);
      repeat (destruct I as [I|I]; [try discriminate I|]);
      try contradiction; reflexivity]
    |try discriminate; intros _; reflexivity].
Qed.

(** X26. Without a usable key, [connect] tries the cached password, or
    else the one typed at the prompt, and caches the typed one before
    the attempt, so that it stays cached when the attempt fails. When
    there is no password at all it makes no attempt, leaves the cache
    alone and reports the status Not Connected. *)
Theorem connect_caches_typed_password (st : State W) (host username : string) :
  cfg_host (world st) = Some host -> host <> "" ->
  cfg_username (world st) = Some username -> username <> "" ->
  match cfg_privateKeyPath (world st) with
  | Some (String _ _ as p) => fs_existsSync p (world st)
  | _ => false
  end = false ->
  let port := match cfg_port (world st) with Some p => p | None => 22%Z end in
  let password :=
    if Js.truthy (cachedPassword st) then cachedPassword st
    else showInputBox password_prompt (world st) in
  if Js.truthy password
  then
    cachedPassword (snd (fst (connect st))) = password /\
    exists outcome,
      In (SshConnect (FileSync.mkConnection host port username None password)
                     outcome)
         (snd (connect st))
  else
    cachedPassword (snd (fst (connect st))) = cachedPassword st /\
    connect st =
    (inr false, mkState (world st) NotConnected (cachedPassword st),
     [StatusChanged Connecting; StatusChanged NotConnected]).
Proof.
  intros Hh Nh Hu Nu Hk. cbv zeta.
  remember (connect st) as out eqn:Eo.
  cbv [connect bind read ret emit throw try_catch establish setStatus
       setCachedPassword] in Eo.
  cbn [world status cachedPassword app] in Eo.
  rewrite Hh, Hu in Eo.
  destruct host as [|h0 h]; [congruence|].
  destruct username as [|u0 u]; [congruence|].
  rewrite Hk in Eo. cbn [world status cachedPassword app] in Eo.
  destruct (Js.truthy (cachedPassword st)) eqn:Tc.
  - rewrite Tc.
    match type of Eo with
    | context [ssh_connect ?c ?w] =>
        destruct (ssh_connect c w) as [[e|] w'] eqn:Ec
    end;
      cbn [world status cachedPassword app] in Eo;
      subst out; cbn [fst snd cachedPassword In app];
      (split; [reflexivity|]); eexists; right; left; reflexivity.
  - destruct (Js.truthy (showInputBox password_prompt (world st))) eqn:Ti;
      cbn [world status cachedPassword] in Eo; rewrite Ti in Eo; cbn [negb] in Eo; cbv beta iota in Eo;
      cbn [world status cachedPassword app] in Eo.
    + match type of Eo with
      | context [ssh_connect ?c ?w] =>
          destruct (ssh_connect c w) as [[e|] w'] eqn:Ec
      end;
      cbn [world status cachedPassword app] in Eo;
      subst out; cbn [fst snd cachedPassword In app];
      (split; [reflexivity|]); eexists; right; left; reflexivity.
    + subst out. cbn [fst snd cachedPassword]. split; reflexivity.
Qed.
End SshConnectFacts.

(** ** The GPU manager *)

Section GpuManagerFacts.
Import Prog GpuManager.
Context {D : Js.Doubles} {W : Type} {H : Job.Host W}.

(** X27. [refreshStatus] never throws. Either the status query came back
    with exit code 0: then the status parsed from its output is stored,
    the same status is handed to the listeners, it has at least one
    node, and no message is shown. Or the stored status stays as it was,
    no listener is called and one error message is shown. *)
Theorem refreshStatus_stores_what_it_tells (st : State) :
  fst (fst (refreshStatus st)) = inr tt /\
  ((exists result w',
       Job.ssh_execCommand "slurm-gres-viz -i" (world st) = (inr result, w') /\
       Job.code result = Some 0%Z /\
       let status := Gpu.parseGPUStatus (Job.Date_now w') (Job.stdout result) in
       Gpu.nodes status <> [] /\
       refreshStatus st =
       (inr tt, mkState w' (Some status),
        [ExecCommand "slurm-gres-viz -i" (inr result);
         GPUStatusChanged status]))
   \/
   (lastStatus (snd (fst (refreshStatus st))) = lastStatus st /\
    filter is_fired (snd (refreshStatus st)) = [] /\
    length (filter is_shown (snd (refreshStatus st))) = 1)).
Proof.
  remember (refreshStatus st) as out eqn:Eo.
  cbv [refreshStatus getGPUStatus executeCommand setLastStatus bind read ret
       emit throw try_catch] in Eo.
  cbn [world lastStatus] in Eo.
  destruct (Job.ssh_isConnected (world st)) eqn:Hc;
    rewrite ?Hc in Eo; cbn [negb] in Eo.
  2:{ subst out. split; [reflexivity|]. right. repeat split. }
  rewrite Hc in Eo. cbn [negb] in Eo.
  destruct (Job.ssh_execCommand "slurm-gres-viz -i" (world st))
    as [[e|result] w'] eqn:Ex.
  { subst out. split; [reflexivity|]. right. repeat split. }
  cbn [world lastStatus app] in Eo.
  destruct (Job.code result) as [[| |]|] eqn:Ec;
    cbn [world lastStatus app] in Eo;
    subst out; (split; [reflexivity|]);
    try (right; repeat split; fail).
  left. exists result, w'. split; [reflexivity|]. split; [exact Ec|].
  cbv zeta. split; [|reflexivity].
  apply parseGPUStatus_never_empty.
Qed.

(** X28. [connectToGPUNode] never throws. Without a connection it shows
    one error message and runs nothing. With a connection it announces
    the node, runs the srun command for that node and shows one more
    message, which reports success exactly when the command came back
    with exit code 0. *)
Theorem connectToGPUNode_reports (nodeName : string) (st : State) :
  fst (fst (connectToGPUNode nodeName st)) = inr tt /\
  if Job.ssh_isConnected (world st)
  then
    exists answer,
      fst (Job.ssh_execCommand (srun_command nodeName) (world st)) = answer /\
      snd (connectToGPUNode nodeName st) =
      [ShowInformationMessage ("Connecting to " ++ nodeName ++ "...");
       ExecCommand (srun_command nodeName) answer;
       match answer with
       | inr result =>
           match Job.code result with
           | Some 0%Z =>
               ShowInformationMessage
                 ("Successfully connected to " ++ nodeName)
           | _ =>
               ShowErrorMessage
                 ("Failed to connect to " ++ nodeName ++ ": " ++
                  Job.stderr result)
           end
       | inl error =>
           ShowErrorMessage
             ("Failed to connect to " ++ nodeName ++ ": " ++ error)
       end]
  else
    connectToGPUNode nodeName st =
    (inr tt, st, [ShowErrorMessage "Please connect to server first"]).
Proof.
  remember (connectToGPUNode nodeName st) as out eqn:Eo.
  cbv [connectToGPUNode executeCommand bind read ret emit throw try_catch]
    in Eo.
  cbn [world lastStatus] in Eo.
  destruct (Job.ssh_isConnected (world st)) eqn:Hc;
    rewrite ?Hc in Eo; cbn [negb] in Eo.
  2:{ subst out. now split. }
  rewrite Hc in Eo. cbn [negb] in Eo.
  destruct (Job.ssh_execCommand (srun_command nodeName) (world st))
    as [[e|result] w'] eqn:Ex.
  { subst out. split; [reflexivity|]. now exists (inl e). }
  destruct (Job.code result) as [[| |]|] eqn:Ec;
    subst out; (split; [reflexivity|]); exists (inr result);
    rewrite Ec; now split.
Qed.
End GpuManagerFacts.

(** ** The refresh timer and the connection *)

Lemma onStatusChanged_calls (seen : list SshManager.ConnectionStatus) :
  forall r,
    fold_left Extension.onStatusChanged seen r =
    fold_left JobManager.call (map Extension.call_of seen) r.
Proof.
  induction seen as [|s seen IH]; intros r; [reflexivity|].
  cbn [fold_left map]. rewrite IH. now destruct s.
Qed.

(** X29. The job manager starts without a timer of its own.  After the
    status listener of the extension has seen a sequence of status
    changes, the refresh timer of the job manager is running exactly if
    the last status was Connected: then the running timers are those of
    the others and one timer of the manager, handed out after the start;
    otherwise only those of the others are running. *)
Theorem auto_refresh_follows_connection
    (t : JobManager.Timers) (seen : list SshManager.ConnectionStatus)
    (last : SshManager.ConnectionStatus) :
  Forall (fun x => x < JobManager.handed_out t) (JobManager.running t) ->
  let r :=
    fold_left Extension.onStatusChanged (seen ++ [last]) (JobManager.fresh t) in
  match last with
  | SshManager.Connected =>
      exists h,
        JobManager.refreshInterval r = Some h /\
        JobManager.running (JobManager.timers r) = JobManager.running t ++ [h] /\
        JobManager.handed_out t <= h < JobManager.handed_out (JobManager.timers r)
  | _ =>
      JobManager.refreshInterval r = None /\
      JobManager.running (JobManager.timers r) = JobManager.running t
  end.
Proof.
  intros F. cbv zeta. rewrite onStatusChanged_calls.
  assert (I : JobManager.running (JobManager.timers (JobManager.fresh t)) =
              JobManager.running t ++ [] /\
              JobManager.handed_out t <=
              JobManager.handed_out (JobManager.timers (JobManager.fresh t))).
  { unfold JobManager.fresh. cbn. split; [now rewrite app_nil_r | lia]. }
  pose proof (calls_keep_one_timer t F
                (map Extension.call_of (seen ++ [last]))
                (JobManager.fresh t) I) as [R B].
  assert (C : JobManager.refreshInterval
                (fold_left JobManager.call
                   (map Extension.call_of (seen ++ [last]))
                   (JobManager.fresh t)) <> None <->
              Extension.call_of last = JobManager.Start).
  { rewrite map_app, fold_left_app. cbn [map fold_left].
    apply call_remembers. }
  destruct (JobManager.refreshInterval
              (fold_left JobManager.call
                 (map Extension.call_of (seen ++ [last]))
                 (JobManager.fresh t))) as [h|].
  - assert (E : Extension.call_of last = JobManager.Start)
      by (apply C; discriminate).
    destruct last; try discriminate E. exists h. auto.
  - destruct last; try (rewrite app_nil_r in R; now split).
    exfalso. now apply (proj2 C).
Qed.

(** ** The SFTP channel *)

Section SftpFacts.
Import Prog FileSync.
Context {W : Type} {H : Host W}.

(** X30. [connectSFTP] opens the channel at most once, and only with the
    configured, non-empty host and user name and with a key or a
    non-empty password. When it opens nothing it throws and leaves the
    world as it was. *)
Theorem connectSFTP_needs_credentials (s : Session) (w : W) :
  (forall config outcome,
      In (SftpConnect config outcome) (snd (connectSFTP s w)) ->
      snd (connectSFTP s w) = [SftpConnect config outcome] /\
      cfg_host s = Some (conn_host config) /\
      cfg_username s = Some (conn_username config) /\
      conn_host config <> "" /\ conn_username config <> "" /\
      (conn_privateKey config <> None \/
       Js.truthy (conn_password config) = true)) /\
  (snd (connectSFTP s w) = [] ->
   exists e, connectSFTP s w = (inl e, w, [])).
Proof.
  remember (connectSFTP s w) as out eqn:Eo.
  cbv [connectSFTP bind read ret throw call] in Eo.
  repeat match type of Eo with
         | context [match ?x with _ => _ end] =>
             lazymatch x with
             | context [match _ with _ => _ end] => fail
             | _ => destruct x eqn:?
             end
         end.
  all: subst out; cbn [fst snd In app] in *.
  all: split;
    [intros config outcome I;
     repeat (destruct I as [I|I]; [try discriminate I|]);
     try contradiction;
     injection I as <- <-;
     cbn [conn_host conn_username conn_privateKey conn_password];
     repeat split; try discriminate; try assumption;
     try (left; discriminate);
     try (right; assumption)
    |try discriminate; intros _; eexists; reflexivity].
Qed.
End SftpFacts.

(** ** The further properties on the samples *)

Lemma syncFiles_message_then_close_witness :
  snd (SampleHost.run FileSync.LocalToRemote) =
  (FileSync.SftpConnect
     (FileSync.mkConnection "seraph" 22 "me" None (Some "secret")) None ::
   tl SampleHost.upload_before ++ [SampleHost.upload_refused]) ++
  [FileSync.ShowErrorMessage "Sync failed: Error: put: Permission denied";
   FileSync.SftpEnd None] /\
  fst (fst (SampleHost.run FileSync.LocalToRemote)) =
  inl "Error: put: Permission denied".
Proof.
  destruct (@syncFiles_message_then_close
              SampleHost.lib nat SampleHost.host SampleHost.session
              FileSync.LocalToRemote None 0 "/home/me/ws" "/data"
              eq_refl eq_refl eq_refl) as (T & _ & R).
  - discriminate.
  - split; [exact T | exact R].
Defined.

Lemma syncFiles_nothing_to_transfer_witness :
  exists dirs o,
    forallb FileSync.is_dir_event dirs = true /\
    snd (@FileSync.syncFiles SampleHost.lib nat SampleHost.host
           SampleHost.session FileSync.LocalToRemote
           (Some SampleOffline.nothing) 0) =
    snd (@FileSync.connectSFTP nat SampleHost.host SampleHost.session 0) ++
    dirs ++
    [FileSync.ShowInformationMessage
       "File synchronization completed successfully";
     FileSync.SftpEnd o] /\
    fst (fst (@FileSync.syncFiles SampleHost.lib nat SampleHost.host
                SampleHost.session FileSync.LocalToRemote
                (Some SampleOffline.nothing) 0)) =
    match o with
    | Some e => inl e
    | None => inr tt
    end.
Proof.
  apply (@syncFiles_nothing_to_transfer
           SampleHost.lib nat SampleHost.host SampleHost.session
           FileSync.LocalToRemote (Some SampleOffline.nothing) 0
           "/home/me/ws" "/data");
    [reflexivity | reflexivity | reflexivity | discriminate | reflexivity
    | vm_compute; reflexivity].
Defined.

Lemma download_of_unlistable_directory_witness :
  exists o,
    snd (@FileSync.syncFiles SampleHost.lib nat SampleOffline.offline
           SampleHost.session FileSync.RemoteToLocal None 0) =
    snd (@FileSync.connectSFTP nat SampleOffline.offline SampleHost.session 0) ++
    [FileSync.ShowInformationMessage
       "File synchronization completed successfully";
     FileSync.SftpEnd o] /\
    fst (fst (@FileSync.syncFiles SampleHost.lib nat SampleOffline.offline
                SampleHost.session FileSync.RemoteToLocal None 0)) =
    match o with
    | Some e => inl e
    | None => inr tt
    end.
Proof.
  apply (@download_of_unlistable_directory
           SampleHost.lib nat SampleOffline.offline SampleHost.session
           None 0 "/home/me/ws" "/data");
    [reflexivity | reflexivity | reflexivity | discriminate | reflexivity
    | reflexivity].
Defined.

Lemma uploadFiles_ignores_mkdir_errors_witness :
  fst (fst (@FileSync.uploadFiles SampleHost.lib nat SampleOffline.offline
              "/home/me/ws" "/data" SampleOffline.plain 0)) = inr tt.
Proof.
  apply (@uploadFiles_ignores_mkdir_errors
           SampleHost.lib nat SampleOffline.offline
           "/home/me/ws" "/data" SampleOffline.plain 0).
  intros l r w0. reflexivity.
Defined.

Lemma unreadable_local_file_is_downloaded_witness :
  FileSync.actions_for "r.py"
    (@FileSync.transfer_list SampleHost.lib nat SampleOffline.locked
       FileSync.Both "/home/me/ws" "/data" SampleOffline.plain 0) =
  [FileSync.mkAction FileSync.download "r.py"].
Proof.
  apply (@unreadable_local_file_is_downloaded
           SampleHost.lib nat SampleOffline.locked
           "/home/me/ws" "/data" SampleOffline.plain 0 "r.py").
  - reflexivity.
  - vm_compute. left. reflexivity.
Defined.

Lemma bidirectional_with_unlistable_remote_witness :
  @FileSync.transfer_list SampleHost.lib nat SampleOffline.offline
    FileSync.Both "/home/me/ws" "/data" SampleOffline.plain 0 =
  [FileSync.mkAction FileSync.upload "a.py";
   FileSync.mkAction FileSync.upload "r.py"] /\
  FileSync.transfers
    (snd (@FileSync.bidirectionalSync SampleHost.lib nat SampleOffline.offline
            "/home/me/ws" "/data" SampleOffline.plain 0)) =
  [FileSync.SftpPut "/home/me/ws/a.py" "/data/a.py" None;
   FileSync.SftpPut "/home/me/ws/r.py" "/data/r.py" None].
Proof.
  destruct (@bidirectional_with_unlistable_remote
              SampleHost.lib nat SampleOffline.offline
              "/home/me/ws" "/data" SampleOffline.plain 0 eq_refl) as [P T].
  split; [exact P | exact (T eq_refl)].
Defined.

Lemma parse_patterns_round_trip_witness :
  SyncUI.parse_patterns (String.concat ", " ["*.log"; "build"; "data set"]) =
  ["*.log"; "build"; "data set"].
Proof.
  apply (parse_patterns_round_trip ["*.log"; "build"; "data set"]).
  repeat constructor; discriminate.
Defined.

Lemma extractJobId_reads_the_number_witness :
  JobManager.extractJobId ("Submitted batch job " ++ "4242" ++ Js.nl) = "4242".
Proof.
  apply (extractJobId_reads_the_number "4242" Js.nl);
    [discriminate | reflexivity | reflexivity].
Defined.

Lemma getJobConfiguration_values_witness :
  Job.gpuCount SampleEditor.config = @Js.parseInt SampleNumbers.doubles "1" /\
  In (Job.memoryPerGpu SampleEditor.config) JobManager.memorySizes /\
  In (Job.partition SampleEditor.config) JobManager.partitions /\
  Job.scriptPath SampleEditor.config = "/data/me/train.sh".
Proof.
  destruct (@getJobConfiguration_values SampleNumbers.doubles nat
              SampleEditor.editor 0 SampleEditor.config eq_refl)
    as (_ & _ & (g & Pg & _ & Eg) & _ & _ & _ & (Es & _) & Offered).
  destruct Offered as (_ & _ & Im & Ip).
  - intros [|i items] placeHolder item; [discriminate|].
    intros [= <-]. now left.
  - injection Pg as <-. repeat split; assumption.
Defined.

Lemma auto_refresh_keeps_one_timer_witness :
  JobManager.running
    (JobManager.timers
       (fold_left JobManager.call
          [JobManager.Start; JobManager.Start; JobManager.Stop;
           JobManager.Start]
          (JobManager.fresh SampleEditor.timers))) = [0; 2; 4] /\
  3 <= 4 < 5.
Proof.
  apply (auto_refresh_keeps_one_timer SampleEditor.timers
           [JobManager.Start; JobManager.Start; JobManager.Stop;
            JobManager.Start]).
  repeat constructor.
Defined.

Lemma connect_caches_typed_password_witness :
  SshManager.cachedPassword
    (snd (fst (@SshManager.connect nat SampleSsh.host SampleSsh.start))) =
  Some "secret" /\
  exists outcome,
    In (SshManager.SshConnect
          (FileSync.mkConnection "seraph" 22 "me" None (Some "secret")) outcome)
       (snd (@SshManager.connect nat SampleSsh.host SampleSsh.start)).
Proof.
  apply (@connect_caches_typed_password nat SampleSsh.host SampleSsh.start
           "seraph" "me");
    [reflexivity | discriminate | reflexivity | discriminate | reflexivity].
Defined.

Lemma auto_refresh_follows_connection_witness :
  exists h,
    JobManager.refreshInterval
      (fold_left Extension.onStatusChanged
         ([SshManager.Connecting; SshManager.Connected; SshManager.Failed;
           SshManager.Connecting] ++ [SshManager.Connected])
         (JobManager.fresh SampleEditor.timers)) = Some h /\
    JobManager.running
      (JobManager.timers
         (fold_left Extension.onStatusChanged
            ([SshManager.Connecting; SshManager.Connected; SshManager.Failed;
              SshManager.Connecting] ++ [SshManager.Connected])
            (JobManager.fresh SampleEditor.timers))) = [0; 2] ++ [h] /\
    3 <= h < 5.
Proof.
  apply (auto_refresh_follows_connection SampleEditor.timers
           [SshManager.Connecting; SshManager.Connected; SshManager.Failed;
            SshManager.Connecting] SshManager.Connected).
  repeat constructor.
Defined.
